(** * Pareto frontier and baseline normalisation of the thesis plotting
      scripts

    Embedded sources:
    - [scripts/config.py]: [to_MB], [format_annotation_with_ratio];
    - [scripts/pareto_frontier.py]: [pareto_frontier];
    - [scripts/adj_space_plot.py]: [plot_normalized_with_annotation], from
      its first line to the test [if not normalized_sizes]; what follows
      is not modelled: it draws one group of bars for each name of
      [datasets_list], also for a dataset that the loop skipped, saves the
      figure and prints the name of the saved file;
    - [scripts/relabelling.py]: [plot_data_normalized_with_annotation], from
      its first line to the test [if num_items_per_group == 0]; what
      follows only draws and saves; and the statements of the module that
      choose the techniques to plot;
    - [scripts/pareto_frontier.py]: of [plot_pareto_for_datasets], the
      points and the line of one figure;
    - [scripts/adj_time_plot.py]: [plot_time_comparison_normalized] down to
      the texts over the bars, and the text over a single-hop bar of
      [plot_combined_neighbors_comparison];
    - [scripts/gdb_space_comparison.py]: [plot_storage_normalized] down to
      [plot_elements];
    - [scripts/memory.py]: [group_components].

    Python floats are IEEE-754 binary64 values.  They are modelled by the
    type [spec_float] of the standard library with [prec = 53] and
    [emax = 1024], so that comparisons, NaN, infinities, signed zeros and
    correctly rounded division are those of the interpreter.  The
    definitions come first, the properties after them. *)

From Stdlib Require Import ZArith Floats.SpecFloat.
From stdpp Require Import base option list sorting strings pretty gmap fin_maps.

Local Open Scope Z_scope.

(** ** Python floats *)

Module PyFloat.

Abbreviation float := spec_float.

Definition prec : Z := 53.
Definition emax : Z := 1024.

(** [float('inf')], [np.nan], and the literals [0], [1.0]. *)
Definition inf : float := S754_infinity false.
Definition nan : float := S754_nan.
Definition zero : float := S754_zero false.
Definition one : float := S754_finite false 4503599627370496 (-52).

#[global] Instance float_eq_dec : EqDecision float.
Proof. solve_decision. Defined.

(** [float(z)] for an integer [z] that a float can hold: the nearest
    float. *)
Definition of_int (z : Z) : float := binary_normalize prec emax z 0 false.

(** [a < b], [a <= b], [a == b], [a != b] on floats. *)
Definition ltb (a b : float) : bool := SFltb a b.
Definition leb (a b : float) : bool := SFleb a b.
Definition eqb (a b : float) : bool := SFeqb a b.
Definition neb (a b : float) : bool := negb (SFeqb a b).

(** IEEE division, without Python's zero-divisor check. *)
Definition fdiv (a b : float) : float := SFdiv prec emax a b.

Definition is_nan (a : float) : bool :=
  match a with S754_nan => true | _ => false end.

Definition is_finite (a : float) : bool :=
  match a with S754_zero _ | S754_finite _ _ _ => true | _ => false end.

(** *** The order of non-NaN floats

    [SFcompare] orders non-NaN floats by sign, then exponent, then
    mantissa.  [rank] sends a float to a triple of integers on which
    this is the lexicographic order. *)
Definition rank (a : float) : Z * Z * Z :=
  match a with
  | S754_nan => (0, 0, 0)
  | S754_zero _ => (0, 0, 0)
  | S754_infinity true => (-2, 0, 0)
  | S754_infinity false => (2, 0, 0)
  | S754_finite true m e => (-1, - e, Z.neg m)
  | S754_finite false m e => (1, e, Z.pos m)
  end.

Definition lex3 (u v : Z * Z * Z) : comparison :=
  let '(a1, b1, c1) := u in
  let '(a2, b2, c2) := v in
  match a1 ?= a2 with
  | Eq => match b1 ?= b2 with Eq => c1 ?= c2 | c => c end
  | c => c
  end.

End PyFloat.

(** ** [scripts/pareto_frontier.py] *)

Module Pareto.
Import PyFloat.

(** A point is the tuple [(x, y)]. *)
Definition point : Type := float * float.

(** Python's [<] and [==] on the 2-tuples [(p[0], p[1])]: the first
    position where the tuples differ (by [==]) decides.  (On tuples that
    hold the same NaN object Python compares by identity first; no
    property below applies it to NaN.) *)
Definition key_lt (p q : point) : bool :=
  if neb p.1 q.1 then ltb p.1 q.1
  else if neb p.2 q.2 then ltb p.2 q.2
  else false.

Definition point_eqb (p q : point) : bool := eqb p.1 q.1 && eqb p.2 q.2.

(** [sorted(points, key=lambda p: (p[0], p[1]))]: a stable sort that
    only asks [<] of the keys.  Each element is put behind every
    element that is not greater than it.  On points without NaN every
    stable sort returns this list ([stable_sort_unique] below).  On keys
    that hold NaN, [<] is no order and the list that the interpreter
    returns depends on its sorting algorithm; it need not be this one, so
    [sorted] stands for the call only on points without NaN. *)
Fixpoint insert_sorted (p : point) (l : list point) : list point :=
  match l with
  | [] => [p]
  | q :: l' => if key_lt p q then p :: q :: l' else q :: insert_sorted p l'
  end.

Definition sorted (points : list point) : list point :=
  foldl (λ acc p, insert_sorted p acc) [] points.

(** The body of the [for x, y in sorted_points] loop, on the pair
    [(pareto_front, min_y)]. *)
Definition scan_step (st : list point * float) (p : point)
  : list point * float :=
  let '(pareto_front, min_y) := st in
  let '(x, y) := p in
  if ltb y min_y then (pareto_front ++ [(x, y)], y)
  else (pareto_front, min_y).

Definition pareto_frontier (points : list point) : list point :=
  let sorted_points := sorted points in
  (foldl scan_step ([], inf) sorted_points).1.

(** The same loop, written by recursion on the remaining points. *)
Fixpoint scan (min_y : float) (l : list point) : list point :=
  match l with
  | [] => []
  | (x, y) :: l' =>
      if ltb y min_y then (x, y) :: scan y l' else scan min_y l'
  end.

(** Strict Pareto dominance under minimisation on both axes: [q] is no
    worse than [p] on both coordinates and better on one. *)
Definition dominates (q p : point) : bool :=
  leb q.1 p.1 && leb q.2 p.2 && (ltb q.1 p.1 || ltb q.2 p.2).

Definition no_nan (p : point) : Prop :=
  is_nan p.1 = false ∧ is_nan p.2 = false.

Definition finite_point (p : point) : Prop :=
  is_finite p.1 = true ∧ is_finite p.2 = true.

(** [p] sorts before or together with [q]. *)
Definition key_le (p q : point) : Prop := key_lt q p = false.

End Pareto.

(** ** Python exceptions and printed output *)

Module Py.
Import PyFloat.

Inductive exn : Type :=
| ZeroDivisionError
| KeyError (key : string)
| ValueError (msg : string).

Inductive outcome (A : Type) : Type :=
| Return (a : A)
| Raise (e : exn).
Global Arguments Return {A} a.
Global Arguments Raise {A} e.

(** A run of a piece of code: the lines it printed, in order, and how it
    ended. *)
Record run (A : Type) : Type :=
  Run { printed : list string; result : outcome A }.
Global Arguments Run {A} printed result.
Global Arguments printed {A} r.
Global Arguments result {A} r.

Definition ret {A} (a : A) : run A := Run [] (Return a).

Definition bind {A B} (c : run A) (k : A → run B) : run B :=
  match result c with
  | Return a => Run (printed c ++ printed (k a)) (result (k a))
  | Raise e => Run (printed c) (Raise e)
  end.

Definition print (line : string) : run unit := Run [line] (Return ()).
Definition raise {A} (e : exn) : run A := Run [] (Raise e).

#[global] Instance run_ret : MRet run := @ret.
#[global] Instance run_bind : MBind run := λ A B k c, bind c k.

(** [a / b] on floats: a zero divisor raises, anything else is IEEE
    division. *)
Definition truediv (a b : float) : run float :=
  if eqb b zero then raise ZeroDivisionError else mret (fdiv a b).

(** [d[k]] on a dict. *)
Definition getitem {V} (d : gmap string V) (k : string) : run V :=
  match d !! k with
  | Some v => mret v
  | None => raise (KeyError k)
  end.

End Py.

(** ** [scripts/config.py] *)

Module Config.
Import PyFloat Py.

Definition OUR_DATA_KEY : string := "Our".
Definition CSR_BASELINE_KEY : string := "CSR".
Definition LOGGRAPH_KEY : string := "LogGraph".
Definition CGRAPHINDEX_KEY : string := "CGraphIndex".

(** The float of the integer [1024 * 1024]. *)
Definition mebi : float := S754_finite false 4503599627370496 (-32).

(** [to_MB(byte_val)]: [byte_val / (1024 * 1024)]. *)
Definition to_MB (byte_val : float) : run float := truediv byte_val mebi.

(** Rounding of the non-negative rational [n / d] to the nearest integer,
    ties to even: the digit generation of a fixed-point float format. *)
Definition round_half_even (n d : Z) : Z :=
  let q := n / d in
  let r := n mod d in
  match 2 * r ?= d with
  | Lt => q
  | Gt => q + 1
  | Eq => if Z.even q then q else q + 1
  end.

(** The number of tenths nearest to [m * 2^e]. *)
Definition tenths (m : positive) (e : Z) : Z :=
  if 0 <=? e then Z.pos m * 2 ^ e * 10
  else round_half_even (Z.pos m * 10) (2 ^ (- e)).

(** [f'{v:.1f}']: one digit after the point, correctly rounded from the
    exact binary value; the sign is kept also when the digits are zero. *)
Definition format_1f (v : float) : string :=
  match v with
  | S754_nan => "nan"
  | S754_infinity s => (if s then "-" else "") +:+ "inf"
  | S754_zero s => (if s then "-" else "") +:+ "0.0"
  | S754_finite s m e =>
      let t := tenths m e in
      (if s then "-" else "") +:+ pretty (Z.to_N (t / 10)) +:+ "."
        +:+ pretty (Z.to_N (t mod 10))
  end.

(** [format_annotation_with_ratio(absolute_value, normalized_value,
    unit="MB", show_ratio=True)]. *)
Definition format_annotation_with_ratio
    (absolute_value normalized_value : float) (unit : string)
    (show_ratio : bool) : string :=
  if show_ratio && neb normalized_value one
  then format_1f normalized_value +:+ "x"
  else "".

End Config.

(** ** Measurement tables

    A table is a dict from dataset name to a dict from series name to a
    number.  The integers of the tables (byte counts far below [2^53]) are
    held as the floats of the same value, on which [/] gives the same
    quotient. *)

Abbreviation series := (gmap string PyFloat.float).
Abbreviation table := (gmap string (gmap string PyFloat.float)).

(** ** [scripts/adj_space_plot.py] *)

Module AdjSpace.
Import PyFloat Py Config.

Definition base_formats : list string :=
  [CSR_BASELINE_KEY; LOGGRAPH_KEY; CGRAPHINDEX_KEY].

Definition current_formats (include_our_data : bool) : list string :=
  if include_our_data then base_formats ++ [OUR_DATA_KEY] else base_formats.

Definition missing_baseline_warning (ds_name : string) : string :=
  "Warning: " +:+ CSR_BASELINE_KEY +:+ " data missing for dataset "
    +:+ ds_name +:+ ". Skipping.".

(** [for fmt in current_formats: ...] for one dataset, whose dict is [row];
    the two accumulators are [temp_normalized] and [temp_absolute_MB].
    The appended integer [0] is held as the float zero. *)
Fixpoint formats_loop (row : series) (csr_size : float) (fmts : list string)
    (temp_normalized temp_absolute_MB : list float)
  : run (list float * list float) :=
  match fmts with
  | [] => mret (temp_normalized, temp_absolute_MB)
  | fmt :: fmts' =>
      match row !! fmt with
      | Some size =>
          ratio ← truediv size csr_size;
          mb ← to_MB size;
          formats_loop row csr_size fmts'
            (temp_normalized ++ [ratio]) (temp_absolute_MB ++ [mb])
      | None =>
          formats_loop row csr_size fmts'
            (temp_normalized ++ [zero]) (temp_absolute_MB ++ [zero])
      end
  end.

(** The two rows that the loop over the formats builds for a dataset with
    a non-zero baseline, in closed form. *)
Definition normalized_row (row : series) (csr_size : float)
    (fmts : list string) : list float :=
  (λ fmt, match row !! fmt with
          | Some size => fdiv size csr_size
          | None => zero
          end) <$> fmts.

Definition absolute_row (row : series) (fmts : list string) : list float :=
  (λ fmt, match row !! fmt with
          | Some size => fdiv size mebi
          | None => zero
          end) <$> fmts.

(** The baseline of a dataset, and the datasets of a list that have one
    and that have none. *)
Definition baseline_of (current_data : table) (ds_name : string)
  : option float :=
  row ← current_data !! ds_name; row !! CSR_BASELINE_KEY.

Definition kept (current_data : table) (datasets_list : list string)
  : list string :=
  filter (λ ds_name, is_Some (baseline_of current_data ds_name)) datasets_list.

Definition skipped (current_data : table) (datasets_list : list string)
  : list string :=
  filter (λ ds_name, baseline_of current_data ds_name = None) datasets_list.

(** [for ds_name in datasets_list: ...]; the accumulators are
    [normalized_sizes] and [absolute_sizes_MB]. *)
Fixpoint datasets_loop (current_data : table) (fmts : list string)
    (datasets_list : list string)
    (normalized_sizes absolute_sizes_MB : list (list float))
  : run (list (list float) * list (list float)) :=
  match datasets_list with
  | [] => mret (normalized_sizes, absolute_sizes_MB)
  | ds_name :: rest =>
      row ← getitem current_data ds_name;
      match row !! CSR_BASELINE_KEY with
      | None =>
          print (missing_baseline_warning ds_name);;
          datasets_loop current_data fmts rest
            normalized_sizes absolute_sizes_MB
      | Some csr_size =>
          '(temp_normalized, temp_absolute_MB) ←
            formats_loop row csr_size fmts [] [];
          datasets_loop current_data fmts rest
            (normalized_sizes ++ [temp_normalized])
            (absolute_sizes_MB ++ [temp_absolute_MB])
      end
  end.

(** The test [if not normalized_sizes] behind the loop: [None] stands for
    the early return, and otherwise the two arrays are what is handed to
    matplotlib. *)
Definition hand_over (arrays : list (list float) * list (list float))
  : run (option (list (list float) * list (list float))) :=
  let '(normalized_sizes, absolute_sizes_MB) := arrays in
  match normalized_sizes with
  | [] => print "No data to plot.";; mret None
  | _ => mret (Some (normalized_sizes, absolute_sizes_MB))
  end.

(** From [normalized_sizes = []] down to the test [if not normalized_sizes],
    on the table [current_data]. *)
Definition collect (current_data : table) (datasets_list : list string)
    (include_our_data : bool)
  : run (option (list (list float) * list (list float))) :=
  arrays ← datasets_loop current_data (current_formats include_our_data)
             datasets_list [] [];
  hand_over arrays.

(** The series of a dataset and the table after the lines
    [for ds_values in current_data.values(): ds_values.pop(OUR_DATA_KEY,
    None)], which run when [include_our_data] is false. *)
Definition filtered_row (ds_values : series) (include_our_data : bool)
  : series :=
  if include_our_data then ds_values else delete OUR_DATA_KEY ds_values.

Definition filtered (current_data : table) (include_our_data : bool)
  : table :=
  if include_our_data then current_data
  else delete OUR_DATA_KEY <$> current_data.

(** [plot_normalized_with_annotation(data_to_plot, datasets_list,
    include_our_data)] down to the test [if not normalized_sizes], on the
    value of the table: [copy.deepcopy] gives a table of equal value, and
    popping a key from every dataset of the copy deletes it from every row.
    The objects, their copies and the aliasing are the subject of the
    module [Store] below.  The run ends where the arrays are handed over:
    the drawing behind the test, which lays out one position for each name
    of [datasets_list], skipped or not, and the line [Saved plot: ...]
    printed at its end are not part of it. *)
Definition plot_normalized_with_annotation (data_to_plot : table)
    (datasets_list : list string) (include_our_data : bool)
  : run (option (list (list float) * list (list float))) :=
  let current_data := data_to_plot in
  let current_data := filtered current_data include_our_data in
  collect current_data datasets_list include_our_data.

End AdjSpace.

(** ** [scripts/relabelling.py] *)

Module Relabel.
Import PyFloat Py Config.

Definition baseline_missing_msg (baseline_item_name ds_name : string)
  : string :=
  "Baseline item '" +:+ baseline_item_name +:+ "' not found in dataset '"
    +:+ ds_name +:+ "'.".

Definition zero_baseline_warning (baseline_item_name ds_name : string)
  : string :=
  "Warning: Baseline value for '" +:+ baseline_item_name
    +:+ "' in dataset '" +:+ ds_name
    +:+ "' is 0. Normalization will result in NaNs or Infs.".

Definition item_missing_msg (item_name ds_name : string) : string :=
  "Item '" +:+ item_name +:+ "' not found in dataset '" +:+ ds_name
    +:+ "'. Ensure all datasets have all items for selected techniques.".

(** [for item_name in items_order: ...], collecting
    [current_ds_item_sizes_bytes]. *)
Fixpoint items_loop (row : series) (ds_name : string)
    (items_order : list string) (current_ds_item_sizes_bytes : list float)
  : run (list float) :=
  match items_order with
  | [] => mret current_ds_item_sizes_bytes
  | item_name :: rest =>
      match row !! item_name with
      | None => raise (ValueError (item_missing_msg item_name ds_name))
      | Some size =>
          items_loop row ds_name rest (current_ds_item_sizes_bytes ++ [size])
      end
  end.

(** What [baseline_val] is after the test [if baseline_val == 0]. *)
Definition divisor (baseline_val : float) : float :=
  if eqb baseline_val zero then nan else baseline_val.

(** [for ds_name in datasets_order: ...]; the accumulators are
    [normalized_values] and [absolute_sizes_MB]. *)
Fixpoint datasets_order_loop (data_dict : table) (items_order : list string)
    (baseline_item_name : string) (datasets_order : list string)
    (normalized_values absolute_sizes_MB : list (list float))
  : run (list (list float) * list (list float)) :=
  match datasets_order with
  | [] => mret (normalized_values, absolute_sizes_MB)
  | ds_name :: rest =>
      row ← getitem data_dict ds_name;
      match row !! baseline_item_name with
      | None =>
          raise (ValueError (baseline_missing_msg baseline_item_name ds_name))
      | Some baseline_val =>
          baseline_val ←
            (if eqb baseline_val zero
             then print (zero_baseline_warning baseline_item_name ds_name);;
                  mret nan
             else mret baseline_val);
          current_ds_item_sizes_bytes ← items_loop row ds_name items_order [];
          ratios ← mapM (λ s, truediv s baseline_val)
                     current_ds_item_sizes_bytes;
          sizes_MB ← mapM to_MB current_ds_item_sizes_bytes;
          datasets_order_loop data_dict items_order baseline_item_name rest
            (normalized_values ++ [ratios]) (absolute_sizes_MB ++ [sizes_MB])
      end
  end.

(** The warnings that the loop prints for the datasets of a list: one for
    each zero baseline. *)
Definition zero_baseline_warnings (data_dict : table)
    (baseline_item_name : string) (datasets_order : list string)
  : list string :=
  omap (λ ds_name,
          row ← data_dict !! ds_name;
          baseline_val ← row !! baseline_item_name;
          if eqb baseline_val zero
          then Some (zero_baseline_warning baseline_item_name ds_name)
          else None) datasets_order.

(** [plot_data_normalized_with_annotation(data_dict, datasets_order,
    items_order, item_colors_map, baseline_item_name, plot_title,
    y_label_base)] down to the test [if num_items_per_group == 0]; the
    colours and the titles play no part in it.  [None] stands for the early
    return, and otherwise the two arrays are what is handed to
    matplotlib. *)
Definition plot_data_normalized_with_annotation (data_dict : table)
    (datasets_order items_order : list string) (baseline_item_name : string)
  : run (option (list (list float) * list (list float))) :=
  '(normalized_values, absolute_sizes_MB) ←
    datasets_order_loop data_dict items_order baseline_item_name datasets_order
      [] [];
  match items_order with
  | [] => print "No items to plot. Aborting plot generation.";; mret None
  | _ => mret (Some (normalized_values, absolute_sizes_MB))
  end.

End Relabel.

(** ** Objects and copies

    The dicts of a table are objects of the interpreter's store: the outer
    dict holds references to the dicts of its datasets, and two names or
    two entries may refer to one object.  This module runs
    [plot_normalized_with_annotation] of [adj_space_plot.py] on such a
    store. *)

Module Store.
Import PyFloat Py Config.

Definition loc : Type := positive.

Inductive pyobj : Type :=
| Table (rows : gmap string loc)
| Series (vals : gmap string float).

Abbreviation heap := (gmap loc pyobj).

Definition alloc (h : heap) (o : pyobj) : loc * heap :=
  let l := fresh (dom h) in (l, <[l := o]> h).

(** [copy.deepcopy] of the entries of the outer dict into the new dict [y].
    [memo] sends every object copied so far to its copy, so that an object
    referred to twice is copied once.  The numbers are immutable and are
    not copied. *)
Fixpoint deepcopy_items (items : list (string * loc)) (memo : gmap loc loc)
    (h : heap) (y : gmap string loc) : option (gmap string loc * heap) :=
  match items with
  | [] => Some (y, h)
  | (k, l) :: items' =>
      match memo !! l with
      | Some l' => deepcopy_items items' memo h (<[k := l']> y)
      | None =>
          match h !! l with
          | Some (Series vals) =>
              let '(l', h') := alloc h (Series vals) in
              deepcopy_items items' (<[l := l']> memo) h' (<[k := l']> y)
          | _ => None
          end
      end
  end.

(** [copy.deepcopy(data_to_plot)]; [None] when [data_to_plot] is not a
    table of series. *)
Definition deepcopy (h : heap) (data_to_plot : loc) : option (loc * heap) :=
  match h !! data_to_plot with
  | Some (Table rows) =>
      '(y, h') ← deepcopy_items (map_to_list rows) ∅ h ∅;
      Some (alloc h' (Table y))
  | _ => None
  end.

(** [ds_values.pop(key, None)]: the dict [ds_values] is changed in place. *)
Definition dict_pop (h : heap) (ds_values : loc) (key : string) : heap :=
  match h !! ds_values with
  | Some (Series vals) => <[ds_values := Series (delete key vals)]> h
  | _ => h
  end.

(** [for ds_values in current_data.values(): ds_values.pop(OUR_DATA_KEY,
    None)]. *)
Definition pop_our_data (h : heap) (current_data : loc) : heap :=
  match h !! current_data with
  | Some (Table rows) =>
      foldl (λ h kv, dict_pop h kv.2 OUR_DATA_KEY) h (map_to_list rows)
  | _ => h
  end.

Definition read_series (h : heap) (l : loc) : option series :=
  match h !! l with
  | Some (Series vals) => Some vals
  | _ => None
  end.

(** The value of the table that the object at [r] holds; [None] when it is
    not a table of series. *)
Definition read_table (h : heap) (r : loc) : option table :=
  match h !! r with
  | Some (Table rows) =>
      if decide (map_Forall (λ _ l, is_Some (read_series h l)) rows)
      then Some (omap (read_series h) rows)
      else None
  | _ => None
  end.

(** [plot_normalized_with_annotation(data_to_plot, datasets_list,
    include_our_data)] on the store: the store it leaves behind and the run
    of its loops, which only read [current_data]. *)
Definition plot_normalized_with_annotation (h : heap) (data_to_plot : loc)
    (datasets_list : list string) (include_our_data : bool)
  : option (heap * run (option (list (list float) * list (list float)))) :=
  '(current_data, h) ← deepcopy h data_to_plot;
  let h := if include_our_data then h else pop_our_data h current_data in
  current_table ← read_table h current_data;
  Some (h, AdjSpace.collect current_table datasets_list include_our_data).

(** An object after [pop(key, None)]. *)
Definition popped (key : string) (o : pyobj) : pyobj :=
  match o with
  | Series vals => Series (delete key vals)
  | Table rows => Table rows
  end.

(** The invariant of the copy loop, for the store [h0] at the call: the
    objects of [h0] are as they were, and [memo] sends series of [h0] to
    objects that [h0] did not have and that hold the same values. *)
Definition copy_inv (h0 h : heap) (memo : gmap loc loc) : Prop :=
  (∀ l o, h0 !! l = Some o → h !! l = Some o) ∧
  (∀ l l', memo !! l = Some l' →
     h0 !! l' = None ∧
     ∃ vals, h0 !! l = Some (Series vals) ∧ h !! l' = Some (Series vals)).

(** A variant that is not in the source, for comparison: the same
    function without [copy.deepcopy], on [current_data = data_to_plot]. *)
Definition plot_without_copy (h : heap) (data_to_plot : loc)
    (datasets_list : list string) (include_our_data : bool)
  : option (heap * run (option (list (list float) * list (list float)))) :=
  let current_data := data_to_plot in
  let h := if include_our_data then h else pop_our_data h current_data in
  current_table ← read_table h current_data;
  Some (h, AdjSpace.collect current_table datasets_list include_our_data).

End Store.

(** ** [scripts/data.py] *)

Module Data.
Import PyFloat.

Definition SPACE_DATA : table :=
  {[ "prime" := {[ "CSR" := of_int 17473954; "LogGraph" := of_int 9924656;
                   "CGraphIndex" := of_int 15733715;
                   "Our" := of_int 10057280 ]};
     "dblp" := {[ "CSR" := of_int 228825326; "LogGraph" := of_int 225081476;
                  "CGraphIndex" := of_int 431141622;
                  "Our" := of_int 164349996 ]};
     "mag" := {[ "CSR" := of_int 107695702; "LogGraph" := of_int 80142194;
                 "CGraphIndex" := of_int 112866678;
                 "Our" := of_int 83332724 ]};
     "patents" := {[ "CSR" := of_int 150278772;
                     "LogGraph" := of_int 144335227;
                     "CGraphIndex" := of_int 180056813;
                     "Our" := of_int 130629362 ]};
     "amazon" := {[ "CSR" := of_int 21035422; "LogGraph" := of_int 17773226;
                    "CGraphIndex" := of_int 29950426;
                    "Our" := of_int 14362964 ]} ]}.

Definition RELABEL_DATA : table :=
  {[ "prime" := {[ "CSV" := of_int 11858144; "random" := of_int 13723984;
                   "topsort" := of_int 9674928; "BFS" := of_int 10186344;
                   "CM" := of_int 10057280; "DM" := of_int 9865320 ]};
     "dblp" := {[ "CSV" := of_int 218427364; "random" := of_int 223423772;
                  "topsort" := of_int 162679972; "BFS" := of_int 164785396;
                  "CM" := of_int 164349996; "DM" := of_int 198937796 ]};
     "patents" := {[ "CSV" := of_int 145541474; "random" := of_int 146298938;
                     "topsort" := of_int 136975290; "BFS" := of_int 130156730;
                     "CM" := of_int 130629362; "DM" := of_int 140558682 ]};
     "mag" := {[ "CSV" := of_int 95939756; "random" := of_int 97043980;
                 "topsort" := of_int 87752244; "BFS" := of_int 87470956;
                 "CM" := of_int 83332724; "DM" := of_int 83504356 ]};
     "amazon" := {[ "CSV" := of_int 18847540; "random" := of_int 19234092;
                    "topsort" := of_int 16985468; "BFS" := of_int 14389860;
                    "CM" := of_int 14362964; "DM" := of_int 16053916 ]} ]}.

(** [sorted(list(SPACE_DATA.keys()))], which is also
    [sorted(list(RELABEL_DATA.keys()))]. *)
Definition datasets : list string :=
  ["amazon"; "dblp"; "mag"; "patents"; "prime"].

(** [techniques_for_plot_final] and [BASELINE_TECHNIQUE_NAME] of
    [relabelling.py], as the module computes them from its constants. *)
Definition techniques_for_plot_final : list string :=
  ["CSV"; "random"; "topsort"; "BFS"; "CM"; "DM"].
Definition BASELINE_TECHNIQUE_NAME : string := "CSV".

(** The decimal literal [n / 1000], as the interpreter reads it: the float
    nearest to it. *)
Definition milli (n : Z) : float := fdiv (of_int n) (of_int 1000).

(** The points that [plot_pareto_for_datasets] collects for the dataset
    ['prime'] and the single-hop times: [(to_MB(space), time)] for CSR,
    LogGraph, CGraphIndex and Our. *)
Definition prime_single_hop_points : list Pareto.point :=
  [(fdiv (of_int 17473954) Config.mebi, milli 6281);
   (fdiv (of_int 9924656) Config.mebi, milli 17099);
   (fdiv (of_int 15733715) Config.mebi, milli 5981);
   (fdiv (of_int 10057280) Config.mebi, milli 12049)].

End Data.

(** ** Tables and points of the examples *)

Module Examples.
Import PyFloat.

(** The points of the example of the specification, out of order. *)
Definition example_points : list Pareto.point :=
  [(of_int 1, of_int 10); (of_int 3, of_int 5);
   (of_int 2, of_int 5); (of_int 4, of_int 1)].

(** The table of the example of the specification. *)
Definition amazon_table : table :=
  {[ "amazon" := {[ "CSR" := of_int 21035422; "Our" := of_int 14362964 ]} ]}.

(** The floats next to [1.0]: [1 + 2^-52] and [1 - 2^-53]. *)
Definition one_succ : float := S754_finite false 4503599627370497 (-52).
Definition one_pred : float := S754_finite false 9007199254740991 (-53).

(** A store in which the two datasets of the table at [1] are one and the
    same dict, at [2]. *)
Definition shared_store : gmap positive Store.pyobj :=
  {[ 1%positive := Store.Table {[ "a" := 2%positive; "b" := 2%positive ]};
     2%positive := Store.Series {[ "CSR" := of_int 4; "Our" := of_int 2 ]} ]}.

(** A table whose dataset ["bad"] has a zero baseline. *)
Definition zero_baseline_table : table :=
  {[ "bad" := {[ "CSR" := of_int 0; "LogGraph" := of_int 5 ]};
     "good" := {[ "CSR" := of_int 4; "LogGraph" := of_int 8 ]} ]}.

(** A table whose dataset ["bare"] has no baseline. *)
Definition missing_baseline_table : table :=
  {[ "bare" := {[ "LogGraph" := of_int 5 ]};
     "good" := {[ "CSR" := of_int 4; "LogGraph" := of_int 8 ]} ]}.

End Examples.

(** ** [scripts/pareto_frontier.py]: [plot_pareto_for_datasets] *)

Module ParetoPlot.
Import PyFloat Py Config Pareto.

Definition representations : list string :=
  [CSR_BASELINE_KEY; LOGGRAPH_KEY; CGRAPHINDEX_KEY; OUR_DATA_KEY].

(** [data[dataset][rep]] under the test
    [dataset in data and rep in data[dataset]]. *)
Definition measured (data : table) (dataset rep : string) : option float :=
  row ← data !! dataset; row !! rep.

(** [for rep in representations: ...] for one dataset and one table of
    times; the accumulator is [points_for_pareto]. *)
Fixpoint representations_loop (space_data time_data : table)
    (dataset : string) (reps : list string) (points_for_pareto : list point)
  : run (list point) :=
  match reps with
  | [] => mret points_for_pareto
  | rep :: reps' =>
      match measured space_data dataset rep,
            measured time_data dataset rep with
      | Some space, Some time_ns =>
          space_mb ← to_MB space;
          representations_loop space_data time_data dataset reps'
            (points_for_pareto ++ [(space_mb, time_ns)])
      | _, _ =>
          representations_loop space_data time_data dataset reps'
            points_for_pareto
      end
  end.

(** The lines behind the loop: the points of the black line, or [None]
    when no line is drawn.  [frontier.sort()] compares the tuples as
    [sorted] does. *)
Definition frontier_line (points_for_pareto : list point)
  : option (list point) :=
  if decide (1 < length points_for_pareto)%nat then
    let frontier := pareto_frontier points_for_pareto in
    if decide (1 < length frontier)%nat then Some (sorted frontier)
    else None
  else None.

(** The body of [for dataset in space_data.keys()], without the drawing:
    the markers and the line of one figure. *)
Definition plot_pareto_dataset (space_data time_data : table)
    (dataset : string) : run (list point * option (list point)) :=
  points_for_pareto ←
    representations_loop space_data time_data dataset representations [];
  mret (points_for_pareto, frontier_line points_for_pareto).

(** The point of a representation that both tables hold. *)
Definition point_of (space_data time_data : table) (dataset rep : string)
  : option point :=
  space ← measured space_data dataset rep;
  time_ns ← measured time_data dataset rep;
  Some (fdiv space mebi, time_ns).

End ParetoPlot.

(** ** [scripts/adj_space_plot.py]: the two settings of [include_our_data] *)

Module AdjSpaceMore.
Import PyFloat Py Config AdjSpace.

(** The rows of a run with ['Our'], cut down to the base formats. *)
Definition without_our (arrays : list (list float) * list (list float))
  : list (list float) * list (list float) :=
  (take (length base_formats) <$> arrays.1,
   take (length base_formats) <$> arrays.2).

End AdjSpaceMore.

(** ** [scripts/relabelling.py]: the choice of the techniques

    The statements that the module runs when it is loaded, from
    [BASELINE_TECHNIQUE_NAME = 'CSV'] to [techniques_for_plot_final], as a
    function of the three constants that they read. *)

Module RelabelConfig.
Import Py.

Definition MASTER_TECHNIQUES_ORDER : list string :=
  ["CSV"; "random"; "topsort"; "BFS"; "CM"; "DM"].

(** The keys of [ALL_TECHNIQUE_COLORS]. *)
Definition ALL_TECHNIQUE_COLORS : gset string :=
  list_to_set ["CSV"; "random"; "topsort"; "BFS"; "CM"; "DM"].

(** [None] is Python's [None]. *)
Definition CHOSEN_TECHNIQUES_TO_PLOT : option (list string) :=
  Some ["CSV"; "topsort"; "CM"; "BFS"; "random"; "DM"].

Definition not_in_master_msg (baseline : string) : string :=
  "Baseline technique '" +:+ baseline
    +:+ "' must be in MASTER_TECHNIQUES_ORDER.".

Definition no_color_msg (baseline : string) : string :=
  "Baseline technique '" +:+ baseline
    +:+ "' must have a color defined in ALL_TECHNIQUE_COLORS.".

Definition techniques_for_plot (master : list string) (colors : gset string)
    (baseline : string) (chosen : option (list string))
  : run (list string) :=
  if decide (baseline ∉ master)
  then raise (ValueError (not_in_master_msg baseline))
  else if decide (baseline ∉ colors)
  then raise (ValueError (no_color_msg baseline))
  else
    match chosen with
    | None => mret master
    | Some chosen =>
        let selected_techniques_set : gset string :=
          list_to_set (filter (λ tech, tech ∈ master) chosen) in
        let selected_techniques_set :=
          selected_techniques_set ∪ {[ baseline ]} in
        mret (filter (λ tech, tech ∈ selected_techniques_set) master)
    end.

End RelabelConfig.

(** ** Sorted keys

    [sorted(list(d.keys()))] on a dict with string keys: strings compare
    character by character, by code point. *)

Module PyStr.

Definition str_le (a b : string) : Prop := String.leb a b = true.

#[global] Instance str_le_dec : RelDecision str_le.
Proof. intros a b. unfold str_le. apply _. Defined.

Definition sorted_keys {V} (d : gmap string V) : list string :=
  merge_sort str_le (map_to_list d).*1.

End PyStr.

(** ** [scripts/adj_time_plot.py] *)

Module AdjTime.
Import PyFloat Py Config PyStr.

Definition techniques : list string :=
  [CSR_BASELINE_KEY; LOGGRAPH_KEY; CGRAPHINDEX_KEY; OUR_DATA_KEY].

(** [any(data[ds][tech] > 0 for ds in datasets if tech in data[ds])]:
    the datasets are looked at in order, up to the first value above
    zero. *)
Fixpoint has_data (data : table) (tech : string) (datasets : list string)
  : run bool :=
  match datasets with
  | [] => mret false
  | ds :: rest =>
      row ← getitem data ds;
      match row !! tech with
      | Some v => if ltb zero v then mret true else has_data data tech rest
      | None => has_data data tech rest
      end
  end.

(** [for tech in techniques: ...], collecting [available_techniques]. *)
Fixpoint available_loop (data : table) (datasets : list string)
    (techs : list string) (available_techniques : list string)
  : run (list string) :=
  match techs with
  | [] => mret available_techniques
  | tech :: rest =>
      has_data ← has_data data tech datasets;
      available_loop data datasets rest
        (if has_data : bool then available_techniques ++ [tech]
         else available_techniques)
  end.

(** The literal [0.8]. *)
Definition zero_point_eight : float := fdiv (of_int 8) (of_int 10).

(** [width = 0.8 / len(available_techniques)]. *)
Definition bar_width (available_techniques : list string) : run float :=
  truediv zero_point_eight (of_int (Z.of_nat (length available_techniques))).

(** [for ds in datasets: ...] for one technique; the accumulators are
    [normalized_values] and [absolute_values].  The appended integer [0]
    is held as the float zero. *)
Fixpoint values_loop (data : table) (technique normalize_to : string)
    (datasets : list string) (normalized_values absolute_values : list float)
  : run (list float * list float) :=
  match datasets with
  | [] => mret (normalized_values, absolute_values)
  | ds :: rest =>
      row ← getitem data ds;
      match row !! technique, row !! normalize_to with
      | Some current_value, Some base_value =>
          if ltb zero base_value then
            ratio ← truediv current_value base_value;
            values_loop data technique normalize_to rest
              (normalized_values ++ [ratio])
              (absolute_values ++ [current_value])
          else
            values_loop data technique normalize_to rest
              (normalized_values ++ [zero]) (absolute_values ++ [zero])
      | _, _ =>
          values_loop data technique normalize_to rest
            (normalized_values ++ [zero]) (absolute_values ++ [zero])
      end
  end.

(** The text over a bar, [None] when nothing is written: the height of a
    bar is the value it was drawn with. *)
Definition annotation (abs_val norm_val : float) : option string :=
  let height := norm_val in
  if ltb zero height
  then Some (format_annotation_with_ratio abs_val norm_val "ms" true)
  else None.

(** The bars of one technique: its name, the heights, and the texts. *)
Definition bars : Type := string * list float * list (option string).

(** [for i, technique in enumerate(available_techniques): ...]. *)
Fixpoint techniques_loop (data : table) (normalize_to : string)
    (datasets : list string) (available_techniques : list string)
    (drawn : list bars) : run (list bars) :=
  match available_techniques with
  | [] => mret drawn
  | technique :: rest =>
      '(normalized_values, absolute_values) ←
        values_loop data technique normalize_to datasets [] [];
      techniques_loop data normalize_to datasets rest
        (drawn ++ [(technique, normalized_values,
                    zip_with annotation absolute_values normalized_values)])
  end.

(** [plot_time_comparison_normalized(data, title, filename, normalize_to)]
    down to the last bar: the bars that are drawn, technique by
    technique. *)
Definition plot_time_comparison_normalized (data : table)
    (normalize_to : string) : run (list bars) :=
  let datasets := sorted_keys data in
  available_techniques ← available_loop data datasets techniques [];
  width ← bar_width available_techniques;
  techniques_loop data normalize_to datasets available_techniques [].

(** A technique has data when some dataset holds a value above zero for
    it. *)
Definition positive_in (data : table) (tech : string) : Prop :=
  ∃ ds row v, data !! ds = Some row ∧ row !! tech = Some v ∧ ltb zero v = true.

(** The height of the bar of a technique in a dataset. *)
Definition guarded_ratio (row : series) (technique normalize_to : string)
  : float :=
  match row !! technique, row !! normalize_to with
  | Some current_value, Some base_value =>
      if ltb zero base_value then fdiv current_value base_value else zero
  | _, _ => zero
  end.

Definition guarded_value (row : series) (technique normalize_to : string)
  : float :=
  match row !! technique, row !! normalize_to with
  | Some current_value, Some base_value =>
      if ltb zero base_value then current_value else zero
  | _, _ => zero
  end.

(** The bars of a technique, in closed form. *)
Definition bar_heights (data : table) (technique normalize_to : string)
  : list float :=
  omap (λ ds, row ← data !! ds;
              Some (guarded_ratio row technique normalize_to))
       (sorted_keys data).

Definition bar_values (data : table) (technique normalize_to : string)
  : list float :=
  omap (λ ds, row ← data !! ds;
              Some (guarded_value row technique normalize_to))
       (sorted_keys data).

Definition bars_of (data : table) (normalize_to technique : string) : bars :=
  (technique, bar_heights data technique normalize_to,
   zip_with annotation (bar_values data technique normalize_to)
     (bar_heights data technique normalize_to)).

End AdjTime.

(** ** [scripts/adj_time_plot.py]: the labels of
    [plot_combined_neighbors_comparison] *)

Module AdjTimeLabels.
Import PyFloat Py Config.

(** The literals [0.01] and [0.05]. *)
Definition one_hundredth : float := fdiv (of_int 1) (of_int 100).
Definition one_twentieth : float := fdiv (of_int 5) (of_int 100).

(** The text over a single-hop bar of
    [plot_combined_neighbors_comparison], [None] when nothing is written. *)
Definition single_hop_annotation (norm_val : float) : option string :=
  if ltb one_hundredth norm_val then
    let annotation_text :=
      format_annotation_with_ratio zero norm_val "" true in
    if negb (String.eqb annotation_text "")
       && negb (String.eqb annotation_text "0.0x")
    then Some annotation_text
    else None
  else None.

End AdjTimeLabels.

(** ** [scripts/gdb_space_comparison.py] *)

Module GdbSpace.
Import PyFloat Py Config.

Definition formats : list string := ["Our"; "Neo4j"; "ArangoDB"].

(** The two values of [normalize_by] that pass the [assert] in the first
    line of [plot_storage_normalized]. *)
Inductive normalization : Type := zipped | unzipped.

Definition key_of (normalize_by : normalization) : string :=
  match normalize_by with zipped => "zipped" | unzipped => "unzipped" end.

(** [for ds_name in datasets: ...] for one database format; the
    accumulators are [norm_vals] and [abs_vals_mb]. *)
Fixpoint format_loop (data : table) (fmt normalize_by : string)
    (datasets : list string) (norm_vals abs_vals_mb : list float)
  : run (list float * list float) :=
  match datasets with
  | [] => mret (norm_vals, abs_vals_mb)
  | ds_name :: rest =>
      ds_data ← getitem data ds_name;
      val ← getitem ds_data fmt;
      base_val ← getitem ds_data normalize_by;
      if eqb val zero || eqb base_val zero then
        format_loop data fmt normalize_by rest
          (norm_vals ++ [nan]) (abs_vals_mb ++ [nan])
      else
        ratio ← truediv val base_val;
        mb ← to_MB val;
        format_loop data fmt normalize_by rest
          (norm_vals ++ [ratio]) (abs_vals_mb ++ [mb])
  end.

(** An element of [plot_elements]: its label and its two arrays. *)
Definition element : Type := string * list float * list float.

(** [for fmt in formats: ...], collecting [db_formats_prepared_data]. *)
Fixpoint db_formats_loop (data : table) (normalize_by : string)
    (datasets : list string) (fmts : list string)
    (db_formats_prepared_data : list element) : run (list element) :=
  match fmts with
  | [] => mret db_formats_prepared_data
  | fmt :: rest =>
      '(norm_vals, abs_vals_mb) ←
        format_loop data fmt normalize_by datasets [] [];
      db_formats_loop data normalize_by datasets rest
        (db_formats_prepared_data ++ [(fmt, norm_vals, abs_vals_mb)])
  end.

(** The loop over the datasets for the input files, which is the same in
    the two branches up to the keys: [val_key] is the other input file and
    [base_key] the one that normalizes. *)
Fixpoint input_loop (data : table) (val_key base_key : string)
    (datasets : list string) (norm_vals abs_vals_mb : list float)
  : run (list float * list float) :=
  match datasets with
  | [] => mret (norm_vals, abs_vals_mb)
  | ds_name :: rest =>
      ds_data ← getitem data ds_name;
      val ← getitem ds_data val_key;
      base_val ← getitem ds_data base_key;
      ratio ← (if eqb base_val zero then mret nan
               else truediv val base_val);
      mb ← to_MB val;
      input_loop data val_key base_key rest
        (norm_vals ++ [ratio]) (abs_vals_mb ++ [mb])
  end.

(** [plot_storage_normalized(data, normalize_by)] down to
    [plot_elements]; [datasets] is the list of the module.  The largest
    ratio, which the function also keeps, only places the texts and sets
    the limit of the axis. *)
Definition plot_storage_normalized (datasets : list string) (data : table)
    (normalize_by : normalization) : run (list element) :=
  db_formats_prepared_data ←
    db_formats_loop data (key_of normalize_by) datasets formats [];
  match normalize_by with
  | zipped =>
      '(uncomp_norm_vals, uncomp_abs_vals_mb) ←
        input_loop data "unzipped" "zipped" datasets [] [];
      mret ([("Uncompressed Input", uncomp_norm_vals, uncomp_abs_vals_mb)]
              ++ db_formats_prepared_data)
  | unzipped =>
      '(zip_norm_vals, zip_abs_vals_mb) ←
        input_loop data "zipped" "unzipped" datasets [] [];
      mret ([("Zipped Input", zip_norm_vals, zip_abs_vals_mb)]
              ++ db_formats_prepared_data)
  end.

(** The two entries of a database format for a dataset. *)
Definition format_entry (ds_data : series) (fmt normalize_by : string)
  : option (float * float) :=
  val ← ds_data !! fmt;
  base_val ← ds_data !! normalize_by;
  Some (if eqb val zero || eqb base_val zero then (nan, nan)
        else (fdiv val base_val, fdiv val mebi)).

(** The two entries of the input file for a dataset. *)
Definition input_entry (ds_data : series) (val_key base_key : string)
  : option (float * float) :=
  val ← ds_data !! val_key;
  base_val ← ds_data !! base_key;
  Some (if eqb base_val zero then nan else fdiv val base_val,
        fdiv val mebi).

(** The label and the key of the input file that is drawn as a bar. *)
Definition input_label (normalize_by : normalization) : string :=
  match normalize_by with
  | zipped => "Uncompressed Input"
  | unzipped => "Zipped Input"
  end.

Definition input_key (normalize_by : normalization) : string :=
  match normalize_by with zipped => "unzipped" | unzipped => "zipped" end.

(** A table that holds every dataset of the module with all its keys. *)
Definition complete (datasets : list string) (data : table) : Prop :=
  ∀ ds_name, ds_name ∈ datasets → ∃ ds_data,
    data !! ds_name = Some ds_data ∧
    ∀ k, k ∈ formats ++ ["zipped"; "unzipped"] → is_Some (ds_data !! k).

End GdbSpace.

(** ** [scripts/memory.py]

    [detailed_data] is the dict of a JSON object: component names with
    their byte counts, which are Python integers, in the order of the
    file.  A dict is held as the list of its items in insertion order;
    the keys of a dict are distinct.  The dict that [group_components]
    returns holds integers and, under ['_other_details'], a list of
    strings. *)

Module Memory.
Import PyFloat Config.

Inductive entry : Type :=
| Size (n : Z)
| Details (l : list string).

Abbreviation components := (list (string * Z)).
Abbreviation groups := (list (string * entry)).

(** [detailed_data[k]] under the test [k in detailed_data]. *)
Fixpoint get (detailed_data : components) (k : string) : option Z :=
  match detailed_data with
  | [] => None
  | (k', v) :: rest => if decide (k' = k) then Some v else get rest k
  end.

(** [if k in detailed_data: acc += detailed_data[k]]. *)
Definition add_component (detailed_data : components) (acc : Z) (k : string)
  : Z :=
  match get detailed_data k with
  | Some v => acc + v
  | None => acc
  end.

(** [if total > 0: grouped[name] = total], for a [name] that [grouped]
    does not hold yet. *)
Definition set_group (name : string) (total : Z) (grouped : groups)
  : groups :=
  if 0 <? total then grouped ++ [(name, Size total)] else grouped.

(** [if k in detailed_data and detailed_data[k] > 0:
    grouped[name] = detailed_data[k]]. *)
Definition set_single (detailed_data : components) (k name : string)
    (grouped : groups) : groups :=
  match get detailed_data k with
  | Some v => if 0 <? v then grouped ++ [(name, Size v)] else grouped
  | None => grouped
  end.

Definition fixed_components : list string :=
  ["nodeIntLikeProperties"; "edgeIntLikeProperties";
   "nodeDoubleProperties"; "edgeDoubleProperties"].

Definition accounted_components : gset string :=
  list_to_set
    ["nodeAdjLists"; "edgeAdjLists"; "nodeParentLists";
     "nodeIntLikeProperties"; "edgeIntLikeProperties";
     "nodeDoubleProperties"; "edgeDoubleProperties";
     "varSize"; "typesSystemOverhead"; "labels"; "nodePkToId"].

(** [f"{comp}({size//(1024*1024):.1f}MB)"]: the integer quotient is
    formatted as the float of the same value. *)
Definition other_detail (comp : string) (size : Z) : string :=
  comp +:+ "(" +:+ format_1f (of_int (size / (1024 * 1024))) +:+ "MB)".

(** The body of [for comp, size in detailed_data.items()], on the pair
    [(other_total, other_components)]. *)
Definition other_step (st : Z * list string) (item : string * Z)
  : Z * list string :=
  let '(other_total, other_components) := st in
  let '(comp, size) := item in
  if bool_decide (comp ∉ accounted_components) && (0 <? size)
  then (other_total + size, other_components ++ [other_detail comp size])
  else (other_total, other_components).

Definition group_components (detailed_data : components) : groups :=
  let grouped := [] in
  let adj_lists := 0 in
  let adj_lists := add_component detailed_data adj_lists "nodeAdjLists" in
  let adj_lists := add_component detailed_data adj_lists "edgeAdjLists" in
  let grouped := set_group "Adjacency Lists" adj_lists grouped in
  let grouped :=
    set_single detailed_data "nodeParentLists" "Parent Lists" grouped in
  let fixed_props := 0 in
  let fixed_props :=
    foldl (add_component detailed_data) fixed_props fixed_components in
  let grouped := set_group "Fixed-size Properties" fixed_props grouped in
  let grouped :=
    set_single detailed_data "varSize" "Variable-size Properties" grouped in
  let type_system := 0 in
  let type_system :=
    add_component detailed_data type_system "typesSystemOverhead" in
  let type_system := add_component detailed_data type_system "labels" in
  let grouped := set_group "Type System" type_system grouped in
  let grouped :=
    set_single detailed_data "nodePkToId" "Node ID Mapping" grouped in
  let '(other_total, other_components) :=
    foldl other_step (0, []) detailed_data in
  if 0 <? other_total
  then grouped ++ [("Other", Size other_total);
                   ("_other_details", Details other_components)]
  else grouped.

(** [sum(detailed_data.values())]. *)
Definition total (detailed_data : components) : Z :=
  foldr (λ item acc, item.2 + acc) 0 detailed_data.

(** [del grouped['_other_details']] and [grouped.pop('_other_details',
    [])]: the dict without the key. *)
Definition without_details (grouped : groups) : groups :=
  filter (λ item, item.1 ≠ "_other_details") grouped.

(** [sum(grouped.values())] on a dict of integers. *)
Definition entry_size (e : entry) : Z :=
  match e with Size n => n | Details _ => 0 end.

Definition total_size (grouped : groups) : Z :=
  foldr (λ item acc, entry_size item.2 + acc) 0 grouped.

Definition preferred_order : list string :=
  ["Adjacency Lists"; "Parent Lists"; "Fixed-size Properties";
   "Variable-size Properties"; "Type System"; "Node ID Mapping"; "Other"].

End Memory.

(** ** More of [scripts/data.py], and the inputs of further examples *)

Module MoreData.
Import PyFloat Data.

Definition TIME_NEIGHBORS_SINGLE_HOP : table :=
  {[ "prime" := {[ "CSR" := milli 6281; "LogGraph" := milli 17099;
                   "CGraphIndex" := milli 5981; "Our" := milli 12049 ]};
     "dblp" := {[ "CSR" := milli 147752; "LogGraph" := milli 602897;
                  "CGraphIndex" := milli 6335; "Our" := milli 259453 ]};
     "mag" := {[ "CSR" := milli 33087; "LogGraph" := milli 82871;
                 "CGraphIndex" := milli 23239; "Our" := milli 52554 ]};
     "patents" := {[ "CSR" := milli 35426; "LogGraph" := milli 121755;
                     "CGraphIndex" := milli 3771; "Our" := milli 88395 ]};
     "amazon" := {[ "CSR" := milli 42191; "LogGraph" := milli 270697;
                    "CGraphIndex" := milli 38077; "Our" := milli 56458 ]} ]}.

Definition GDB_SPACE_DATA : table :=
  {[ "prime" := {[ "Our" := of_int 13725696; "Neo4j" := of_int 327155712;
                   "ArangoDB" := of_int 597724981;
                   "zipped" := of_int 29644676;
                   "unzipped" := of_int 260029594 ]};
     "dblp" := {[ "Our" := of_int 591323136; "Neo4j" := of_int 4617089843;
                  "ArangoDB" := of_int 5595838451;
                  "zipped" := of_int 946959092;
                  "unzipped" := of_int 3461480607 ]};
     "mag" := {[ "Our" := of_int 28874752; "Neo4j" := of_int 2061123584;
                 "ArangoDB" := of_int 2087764522;
                 "zipped" := of_int 407781263;
                 "unzipped" := of_int 1799829557 ]};
     "patents" := {[ "Our" := of_int 201961472; "Neo4j" := of_int 2040109465;
                     "ArangoDB" := of_int 2840802617;
                     "zipped" := of_int 245210043;
                     "unzipped" := of_int 1304864323 ]};
     "amazon" := {[ "Our" := of_int 186363904; "Neo4j" := of_int 1395864371;
                    "ArangoDB" := of_int 756251906;
                    "zipped" := of_int 218967442;
                    "unzipped" := of_int 795215172 ]} ]}.

(** The components of a dataset: two adjacency lists, a component of
    size zero, and one that the grouping does not know. *)
Definition example_components : Memory.components :=
  [("nodeAdjLists", 100); ("edgeAdjLists", 50); ("varSize", 0);
   ("bloomFilter", 7)].

(** A table without any baseline. *)
Definition bare_table : table := {[ "bare" := {[ "LogGraph" := of_int 5 ]} ]}.

End MoreData.

(** * Properties *)

(** ** The order of floats *)

Module PyFloatFacts.
Import PyFloat.

Lemma SFcompare_rank (a b : float) :
  is_nan a = false → is_nan b = false →
  SFcompare a b = Some (lex3 (rank a) (rank b)).
Proof.
  destruct a as [sa|sa| |sa ma ea], b as [sb|sb| |sb mb eb];
    try discriminate; intros _ _;
    repeat match goal with s : bool |- _ => destruct s end;
    cbn -[Z.compare Z.opp]; try reflexivity.
  all: try (rewrite Z.compare_opp, (Z.compare_antisym ea eb)).
  all: destruct (ea ?= eb); reflexivity.
Qed.

(** The lexicographic comparison of triples, read as arithmetic. *)
Lemma lex3_spec (u v : Z * Z * Z) :
  match lex3 u v with
  | Lt => u.1.1 < v.1.1 ∨ u.1.1 = v.1.1 ∧
          (u.1.2 < v.1.2 ∨ u.1.2 = v.1.2 ∧ u.2 < v.2)
  | Eq => u = v
  | Gt => v.1.1 < u.1.1 ∨ u.1.1 = v.1.1 ∧
          (v.1.2 < u.1.2 ∨ u.1.2 = v.1.2 ∧ v.2 < u.2)
  end.
Proof.
  destruct u as [[a1 b1] c1], v as [[a2 b2] c2]; cbn.
  destruct (Z.compare_spec a1 a2); [|lia..].
  destruct (Z.compare_spec b1 b2); [|lia..].
  destruct (Z.compare_spec c1 c2); [|lia..].
  congruence.
Qed.

(** Decides a statement on the order of floats that are known not to be
    NaN: the comparisons are moved to the ranks and left to [lia]. *)
Ltac float_order :=
  unfold neb, ltb, leb, eqb, SFltb, SFleb, SFeqb in *;
  repeat match goal with
    | H : context [SFcompare ?a ?b] |- _ =>
        rewrite (SFcompare_rank a b) in H by assumption
    | |- context [SFcompare ?a ?b] =>
        rewrite (SFcompare_rank a b) by assumption
    end;
  repeat match goal with
    | H : context [lex3 ?u ?v] |- _ =>
        let Hs := fresh in
        pose proof (lex3_spec u v) as Hs; destruct (lex3 u v)
    | |- context [lex3 ?u ?v] =>
        let Hs := fresh in
        pose proof (lex3_spec u v) as Hs; destruct (lex3 u v)
    end;
  cbn [negb andb orb fst snd] in *;
  try discriminate; try reflexivity; try tauto;
  repeat match goal with
    | H : ?u = ?v :> (Z * Z * Z) |- _ =>
        first [ rewrite H in * | rewrite <- H in * ]; clear H
    end;
  try (exfalso; lia); try tauto; try (intuition lia).

Lemma ltb_irrefl (a : float) : ltb a a = false.
Proof.
  destruct a as [s|s| |s m e]; try destruct s; try reflexivity;
    unfold ltb, SFltb; cbn; rewrite Z.compare_refl;
    fold (Pos.compare m m); rewrite Pos.compare_refl; reflexivity.
Qed.

Lemma eqb_refl (a : float) : is_nan a = false → eqb a a = true.
Proof. intros Ha. float_order. Qed.

Lemma eqb_sym (a b : float) : eqb a b = eqb b a.
Proof.
  destruct (is_nan a) eqn:Ha; [by destruct a, b|].
  destruct (is_nan b) eqn:Hb; [by destruct a, b|].
  float_order.
Qed.

Lemma eqb_trans (a b c : float) :
  is_nan b = false → eqb a b = true → eqb b c = true → eqb a c = true.
Proof.
  intros Hb Hab Hbc.
  assert (is_nan a = false) by (by destruct a, b).
  assert (is_nan c = false) by (by destruct b, c).
  float_order.
Qed.

Lemma ltb_trans (a b c : float) :
  ltb a b = true → ltb b c = true → ltb a c = true.
Proof.
  intros Hab Hbc.
  assert (is_nan a = false) by (by destruct a, b).
  assert (is_nan b = false) by (by destruct a, b).
  assert (is_nan c = false) by (by destruct b, c).
  float_order.
Qed.

Lemma ltb_asym (a b : float) : ltb a b = true → ltb b a = false.
Proof.
  intros Hab.
  assert (is_nan a = false) by (by destruct a, b).
  assert (is_nan b = false) by (by destruct a, b).
  float_order.
Qed.

Lemma leb_iff (a b : float) :
  leb a b = true ↔ ltb a b = true ∨ eqb a b = true.
Proof.
  unfold leb, ltb, eqb, SFleb, SFltb, SFeqb.
  destruct (SFcompare a b) as [[]|]; intuition discriminate.
Qed.

Lemma not_ltb_iff (a b : float) :
  is_nan a = false → is_nan b = false →
  ltb a b = false ↔ leb b a = true.
Proof. intros Ha Hb. float_order. Qed.

Lemma neb_eqb (a b : float) : neb a b = negb (eqb a b).
Proof. reflexivity. Qed.

Lemma ltb_inf (a : float) : is_finite a = true → ltb a inf = true.
Proof. by destruct a as [s|s| |s m e]; try destruct s. Qed.

Lemma is_finite_not_nan (a : float) : is_finite a = true → is_nan a = false.
Proof. by destruct a. Qed.

Lemma ltb_not_nan_l (a b : float) : ltb a b = true → is_nan a = false.
Proof. by destruct a, b. Qed.

End PyFloatFacts.

(** ** The Pareto frontier *)

Module ParetoFacts.
Import PyFloat PyFloatFacts Pareto Examples.

Lemma key_lt_asym (p q : point) :
  no_nan p → no_nan q → key_lt p q = true → key_le p q.
Proof.
  destruct p as [px py], q as [qx qy]; intros [??] [??]; unfold key_le, key_lt.
  cbn [fst snd] in *. float_order.
Qed.

Lemma key_le_refl (p : point) : key_le p p.
Proof.
  unfold key_le, key_lt. rewrite !ltb_irrefl. by repeat case_match.
Qed.

Lemma key_le_trans (p q r : point) :
  no_nan p → no_nan q → no_nan r → key_le p q → key_le q r → key_le p r.
Proof.
  destruct p as [px py], q as [qx qy], r as [rx ry]; intros [??] [??] [??].
  unfold key_le, key_lt. cbn [fst snd] in *. float_order.
Qed.

Lemma key_le_cases (p q : point) :
  no_nan p → no_nan q → key_le p q →
  ltb p.1 q.1 = true ∨ eqb p.1 q.1 = true ∧ leb p.2 q.2 = true.
Proof.
  destruct p as [px py], q as [qx qy]; intros [??] [??].
  unfold key_le, key_lt. cbn [fst snd] in *. float_order.
Qed.

Lemma insert_sorted_perm (p : point) (l : list point) :
  insert_sorted p l ≡ₚ p :: l.
Proof.
  induction l as [|q l IH]; cbn; [done|].
  destruct (key_lt p q); [done|]. rewrite IH. apply Permutation_swap.
Qed.

Lemma foldl_insert_sorted_perm (l acc : list point) :
  foldl (λ acc p, insert_sorted p acc) acc l ≡ₚ acc ++ l.
Proof.
  revert acc. induction l as [|p l IH]; intros acc; cbn.
  - by rewrite app_nil_r.
  - rewrite IH, insert_sorted_perm. by rewrite <- Permutation_middle.
Qed.

Lemma sorted_perm (points : list point) : sorted points ≡ₚ points.
Proof. apply (foldl_insert_sorted_perm points []). Qed.

Lemma insert_sorted_sorted (p : point) (l : list point) :
  no_nan p → Forall no_nan l →
  StronglySorted key_le l → StronglySorted key_le (insert_sorted p l).
Proof.
  intros Hp Hl Hs. induction Hs as [|q l Hs IH Hq]; cbn.
  - repeat constructor.
  - apply Forall_cons in Hl as [Hnq Hl].
    destruct (key_lt p q) eqn:Hpq.
    + constructor; [by constructor|].
      pose proof (key_lt_asym p q Hp Hnq Hpq) as Hle.
      constructor; [done|].
      rewrite Forall_forall in Hq, Hl |- *. intros r Hr.
      apply (key_le_trans p q r); auto.
    + constructor; [by apply IH|].
      rewrite insert_sorted_perm. by constructor.
Qed.

Lemma foldl_insert_sorted_sorted (l acc : list point) :
  Forall no_nan l → Forall no_nan acc → StronglySorted key_le acc →
  StronglySorted key_le (foldl (λ acc p, insert_sorted p acc) acc l).
Proof.
  revert acc. induction l as [|p l IH]; intros acc Hl Hacc Hs; cbn; [done|].
  apply Forall_cons in Hl as [Hp Hl].
  apply IH; [done| |by apply insert_sorted_sorted].
  rewrite insert_sorted_perm. by constructor.
Qed.

Lemma sorted_sorted (points : list point) :
  Forall no_nan points → StronglySorted key_le (sorted points).
Proof.
  intros H. apply foldl_insert_sorted_sorted; [done|constructor..].
Qed.

Lemma point_eqb_refl (p : point) : no_nan p → point_eqb p p = true.
Proof. intros [??]. unfold point_eqb. by rewrite !eqb_refl. Qed.

Lemma key_le_antisym (p q : point) :
  no_nan p → no_nan q → key_le p q → key_le q p → point_eqb p q = true.
Proof.
  destruct p as [px py], q as [qx qy]; intros [??] [??].
  unfold key_le, key_lt, point_eqb. cbn [fst snd] in *. float_order.
Qed.

Lemma key_lt_not_eqb (p q r : point) :
  no_nan p → no_nan q → no_nan r →
  key_lt p q = true → key_le q r → point_eqb r p = false.
Proof.
  destruct p as [px py], q as [qx qy], r as [rx ry]; intros [??] [??] [??].
  unfold key_le, key_lt, point_eqb. cbn [fst snd] in *. float_order.
Qed.

Lemma filter_none {A} (P : A → Prop) `{∀ x, Decision (P x)} (l : list A) :
  (∀ x, x ∈ l → ¬ P x) → filter P l = [].
Proof.
  induction l as [|x l IH]; intros Hl; [done|].
  rewrite filter_cons_False by (apply Hl; by left).
  apply IH. intros y Hy. apply Hl. by right.
Qed.

(** The sort is stable: it keeps the points that are equal to a given one
    under [==] in the order of the input. *)
Lemma insert_sorted_stable (p r : point) (l : list point) :
  no_nan p → no_nan r → Forall no_nan l → StronglySorted key_le l →
  filter (λ q, point_eqb q r = true) (insert_sorted p l) =
  filter (λ q, point_eqb q r = true) (l ++ [p]).
Proof.
  intros Hp Hr Hl Hs. induction Hs as [|q l Hs IH Hq]; [done|].
  apply Forall_cons in Hl as [Hnq Hl]. cbn [insert_sorted].
  destruct (key_lt p q) eqn:Hpq.
  - rewrite filter_app. cbn [app].
    destruct (point_eqb p r) eqn:Hpr.
    + (* nothing in [q :: l] is equal to [p], hence to [r] *)
      assert (filter (λ q0, point_eqb q0 r = true) (q :: l) = []) as Hnil.
      { apply filter_none.
        intros s Hs'. apply not_true_iff_false.
        assert (no_nan s) as Hns.
        { apply elem_of_cons in Hs' as [->|?]; [done|].
          rewrite Forall_forall in Hl. by apply Hl. }
        assert (key_le q s) as Hqs.
        { apply elem_of_cons in Hs' as [->|?]; [apply key_le_refl|].
          rewrite Forall_forall in Hq. by apply Hq. }
        pose proof (key_lt_not_eqb p q s Hp Hnq Hns Hpq Hqs) as Hsp.
        destruct (point_eqb s r) eqn:Hsr; [|done].
        exfalso. clear -Hp Hr Hns Hsp Hsr Hpr.
        destruct p as [px py], r as [rx ry], s as [sx sy].
        destruct Hp as [??], Hr as [??], Hns as [??].
        unfold point_eqb in *. cbn [fst snd] in *. float_order. }
      rewrite Hnil. rewrite !(filter_cons_True _ p) by done.
      by rewrite Hnil.
    + rewrite !(filter_cons_False _ p) by (by rewrite Hpr).
      by rewrite filter_nil, app_nil_r.
  - rewrite <- app_comm_cons. destruct (point_eqb q r) eqn:Hqr.
    + rewrite !(filter_cons_True _ q) by done. f_equal. by apply IH.
    + rewrite !(filter_cons_False _ q) by (by rewrite Hqr). by apply IH.
Qed.

Lemma foldl_insert_sorted_stable (l acc : list point) (r : point) :
  no_nan r → Forall no_nan l → Forall no_nan acc →
  StronglySorted key_le acc →
  filter (λ q, point_eqb q r = true)
    (foldl (λ acc p, insert_sorted p acc) acc l) =
  filter (λ q, point_eqb q r = true) (acc ++ l).
Proof.
  intros Hr. revert acc.
  induction l as [|p l IH]; intros acc Hl Hacc Hs; cbn [foldl].
  - by rewrite app_nil_r.
  - apply Forall_cons in Hl as [Hp Hl].
    rewrite IH; [|done| |by apply insert_sorted_sorted].
    + rewrite !filter_app, (insert_sorted_stable p r acc) by done.
      rewrite filter_app. rewrite <- app_assoc. f_equal.
      by rewrite <- filter_app.
    + rewrite insert_sorted_perm. by constructor.
Qed.

Lemma sorted_stable (points : list point) (r : point) :
  no_nan r → Forall no_nan points →
  filter (λ q, point_eqb q r = true) (sorted points) =
  filter (λ q, point_eqb q r = true) points.
Proof.
  intros Hr Hl.
  apply (foldl_insert_sorted_stable points [] r);
    [done..|constructor|constructor].
Qed.

(** Two sorted lists that hold, for every point, the same points equal to
    it in the same order are the same list. *)
Lemma sorted_stable_eq (a b : list point) :
  Forall no_nan a → Forall no_nan b →
  StronglySorted key_le a → StronglySorted key_le b →
  (∀ r, no_nan r → filter (λ q, point_eqb q r = true) a =
                    filter (λ q, point_eqb q r = true) b) →
  a = b.
Proof.
  intros Ha. revert b. induction a as [|x a IH]; intros b Hb Hsa Hsb Hf.
  - destruct b as [|y b]; [done|].
    apply Forall_cons in Hb as [Hy _].
    specialize (Hf y Hy). rewrite filter_nil in Hf.
    by rewrite (filter_cons_True _ y) in Hf by by apply point_eqb_refl.
  - apply Forall_cons in Ha as [Hx Ha].
    apply StronglySorted_inv in Hsa as [Hsa Hxa].
    destruct b as [|y b].
    { specialize (Hf x Hx). rewrite filter_nil in Hf.
      by rewrite (filter_cons_True _ x) in Hf by by apply point_eqb_refl. }
    apply Forall_cons in Hb as [Hy Hb].
    apply StronglySorted_inv in Hsb as [Hsb Hyb].
    assert (x ∈ y :: b) as Hxin.
    { pose proof (Hf x Hx) as Hfx.
      rewrite (filter_cons_True _ x) in Hfx by by apply point_eqb_refl.
      assert (x ∈ filter (λ q, point_eqb q x = true) (y :: b)) as Hin
        by (rewrite <- Hfx; by left).
      by apply list_elem_of_filter in Hin as [_ ?]. }
    assert (y ∈ x :: a) as Hyin.
    { pose proof (Hf y Hy) as Hfy.
      rewrite (filter_cons_True _ y (b)) in Hfy by by apply point_eqb_refl.
      assert (y ∈ filter (λ q, point_eqb q y = true) (x :: a)) as Hin
        by (rewrite Hfy; by left).
      by apply list_elem_of_filter in Hin as [_ ?]. }
    assert (key_le y x) as Hyx.
    { apply elem_of_cons in Hxin as [->|Hxin]; [apply key_le_refl|].
      rewrite Forall_forall in Hyb. by apply Hyb. }
    assert (key_le x y) as Hxy.
    { apply elem_of_cons in Hyin as [->|Hyin]; [apply key_le_refl|].
      rewrite Forall_forall in Hxa. by apply Hxa. }
    pose proof (key_le_antisym y x Hy Hx Hyx Hxy) as Heq.
    assert (x = y) as <-.
    { pose proof (Hf x Hx) as Hfx.
      rewrite (filter_cons_True _ x) in Hfx by by apply point_eqb_refl.
      rewrite (filter_cons_True _ y) in Hfx by done. congruence. }
    f_equal. apply IH; [done..|].
    intros r Hr. specialize (Hf r Hr).
    destruct (point_eqb x r) eqn:Hxr.
    + rewrite !(filter_cons_True _ x) in Hf by done. congruence.
    + by rewrite !(filter_cons_False _ x) in Hf by (by rewrite Hxr).
Qed.

(** [sorted] is the stable sort: every sorted rearrangement of the input
    that keeps equal points in the order of the input is the list that
    [sorted] returns.  So it does not matter by which algorithm the
    interpreter sorts. *)
Lemma stable_sort_unique (points l' : list point) :
  Forall no_nan points → l' ≡ₚ points → StronglySorted key_le l' →
  (∀ r, filter (λ q, point_eqb q r = true) l' =
        filter (λ q, point_eqb q r = true) points) →
  l' = sorted points.
Proof.
  intros Hnn Hperm Hs Hstable.
  apply sorted_stable_eq.
  - by rewrite Hperm.
  - by rewrite sorted_perm.
  - done.
  - by apply sorted_sorted.
  - intros r Hr. by rewrite Hstable, sorted_stable.
Qed.

Lemma foldl_scan_step (l acc : list point) (min_y : float) :
  (foldl scan_step (acc, min_y) l).1 = acc ++ scan min_y l.
Proof.
  revert acc min_y. induction l as [|[x y] l IH]; intros acc min_y; cbn.
  - by rewrite app_nil_r.
  - destruct (ltb y min_y); rewrite IH; [|done].
    by rewrite <- app_assoc.
Qed.

Lemma pareto_frontier_scan (points : list point) :
  pareto_frontier points = scan inf (sorted points).
Proof. unfold pareto_frontier. by rewrite foldl_scan_step. Qed.

(** A point is kept by the scan exactly when its [y] is below the start
    value and below the [y] of everything in front of it. *)
Lemma scan_elem (l : list point) (min_y : float) (p : point) :
  Forall no_nan l → is_nan min_y = false →
  p ∈ scan min_y l ↔
  ∃ l1 l2, l = l1 ++ p :: l2 ∧ ltb p.2 min_y = true ∧
           ∀ q, q ∈ l1 → ltb p.2 q.2 = true.
Proof.
  revert min_y. induction l as [|[x y] l IH]; intros m Hl Hm; cbn.
  - split; [by intros ?%elem_of_nil|]. by intros ([|??]&?&?&_).
  - apply Forall_cons in Hl as [[_ Hy] Hl]. cbn in Hy.
    destruct (ltb y m) eqn:Hym.
    + rewrite elem_of_cons, (IH y Hl Hy). split.
      * intros [->|(l1&l2&->&Hlt&Hall)].
        { exists [], l. split_and!; [done..|]. by intros ? ?%elem_of_nil. }
        exists ((x, y) :: l1), l2. split_and!; [done|by eapply ltb_trans|].
        intros q [->|?]%elem_of_cons; auto.
      * intros ([|q l1]&l2&Heq&Hlt&Hall); simplify_eq/=; [by left|].
        right. exists l1, l2. split_and!; [done| |].
        -- apply (Hall (x, y)). by left.
        -- intros q Hq. apply Hall. by right.
    + rewrite (IH m Hl Hm). split.
      * intros (l1&l2&->&Hlt&Hall).
        exists ((x, y) :: l1), l2. split_and!; [done..|].
        intros q [->|?]%elem_of_cons; [|by auto]. cbn.
        assert (is_nan p.2 = false) by by eapply ltb_not_nan_l.
        float_order.
      * intros ([|q l1]&l2&Heq&Hlt&Hall); simplify_eq/=; [congruence|].
        exists l1, l2. split_and!; [done..|]. intros q Hq. apply Hall. by right.
Qed.

Lemma scan_subseteq (l : list point) (min_y : float) (p : point) :
  p ∈ scan min_y l → p ∈ l ∧ ltb p.2 min_y = true.
Proof.
  revert min_y. induction l as [|[x y] l IH]; intros m; cbn.
  - by intros ?%elem_of_nil.
  - destruct (ltb y m) eqn:Hym.
    + intros [->|[? ?]%IH]%elem_of_cons; [by split; [left|]|].
      split; [by right|]. by eapply ltb_trans.
    + intros [? ?]%IH. split; [by right|done].
Qed.

Lemma dominates_irrefl (p : point) : dominates p p = false.
Proof.
  unfold dominates. rewrite !ltb_irrefl. by rewrite andb_false_r.
Qed.

Lemma dominates_point_eqb (q p p' : point) :
  no_nan q → no_nan p → no_nan p' →
  point_eqb p' p = true → dominates q p' = dominates q p.
Proof.
  destruct q as [qx qy], p as [px py], p' as [px' py'].
  intros [??] [??] [??]. unfold point_eqb, dominates. cbn [fst snd] in *.
  intros [? ?]%andb_true_iff.
  assert (leb qx px' = leb qx px) as -> by float_order.
  assert (leb qy py' = leb qy py) as -> by float_order.
  assert (ltb qx px' = ltb qx px) as -> by float_order.
  assert (ltb qy py' = ltb qy py) as -> by float_order.
  done.
Qed.

(** In a sorted list, a point whose [y] is below everything in front of it
    is dominated by nothing. *)
Lemma sorted_split_not_dominated (l1 l2 : list point) (p q : point) :
  Forall no_nan (l1 ++ p :: l2) →
  StronglySorted key_le (l1 ++ p :: l2) →
  (∀ r, r ∈ l1 → ltb p.2 r.2 = true) →
  q ∈ l1 ++ p :: l2 → dominates q p = false.
Proof.
  intros Hnn Hs Hl1 Hq.
  apply Forall_app in Hnn as [Hn1 [Hp Hn2]%Forall_cons].
  apply elem_of_app in Hq as [Hq|[->|Hq]%elem_of_cons].
  - pose proof (Hl1 q Hq) as Hlt.
    rewrite Forall_forall in Hn1. destruct (Hn1 q Hq) as [??], Hp as [??].
    unfold dominates. destruct p as [px py], q as [qx qy]. cbn [fst snd] in *.
    assert (leb qy py = false) as -> by float_order.
    by rewrite andb_false_r.
  - apply dominates_irrefl.
  - apply StronglySorted_app_1_r, StronglySorted_inv in Hs as [_ Hle].
    rewrite Forall_forall in Hle, Hn2.
    pose proof (key_le_cases p q Hp (Hn2 q Hq) (Hle q Hq)) as Hc.
    destruct (Hn2 q Hq) as [??], Hp as [??].
    unfold dominates. destruct p as [px py], q as [qx qy]. cbn [fst snd] in *.
    destruct Hc as [Hc|[Hc1 Hc2]].
    + assert (leb qx px = false) as -> by float_order. done.
    + assert (ltb qx px = false) as -> by float_order.
      assert (ltb qy py = false) as -> by float_order.
      by rewrite andb_false_r.
Qed.

Lemma frontier_not_dominated (points : list point) (p q : point) :
  Forall no_nan points →
  p ∈ pareto_frontier points → q ∈ points → dominates q p = false.
Proof.
  intros Hnn Hp Hq. rewrite pareto_frontier_scan in Hp.
  assert (Forall no_nan (sorted points)) as Hnn'
    by by rewrite sorted_perm.
  apply scan_elem in Hp as (l1&l2&Heq&_&Hl1); [|done..].
  apply (sorted_split_not_dominated l1 l2); [by rewrite <- Heq| |done|].
  - rewrite <- Heq. by apply sorted_sorted.
  - by rewrite <- Heq, sorted_perm.
Qed.

Lemma frontier_subseteq (points : list point) (p : point) :
  p ∈ pareto_frontier points → p ∈ points.
Proof.
  rewrite pareto_frontier_scan. intros [? _]%scan_subseteq.
  by rewrite <- (sorted_perm points).
Qed.

(** The first element of a list that is equal to [p] under [==]. *)
Lemma first_point_eqb (l : list point) (p : point) :
  no_nan p → p ∈ l →
  ∃ l1 p' l2, l = l1 ++ p' :: l2 ∧ point_eqb p' p = true ∧
              ∀ q, q ∈ l1 → point_eqb q p = false.
Proof.
  intros [Hx Hy]. induction l as [|q l IH]; [by intros ?%elem_of_nil|].
  intros Hin. destruct (point_eqb q p) eqn:Hqp.
  - exists [], q, l. split_and!; [done..|]. by intros ? ?%elem_of_nil.
  - apply elem_of_cons in Hin as [->|Hin].
    { unfold point_eqb in Hqp. by rewrite !eqb_refl in Hqp. }
    destruct (IH Hin) as (l1&p'&l2&->&?&Hl1).
    exists (q :: l1), p', l2. split_and!; [done..|].
    intros r [->|?]%elem_of_cons; auto.
Qed.

Lemma point_eqb_no_nan (p' p : point) :
  point_eqb p' p = true → no_nan p'.
Proof.
  unfold point_eqb. intros [? ?]%andb_true_iff.
  destruct p' as [[] []], p as [[] []]; by split.
Qed.

(** A point that nothing dominates and whose [y] is below [inf] is on the
    frontier, up to [==]. *)
Lemma not_dominated_on_frontier (points : list point) (p : point) :
  Forall no_nan points → ltb p.2 inf = true →
  p ∈ points → (∀ q, q ∈ points → dominates q p = false) →
  ∃ p', p' ∈ pareto_frontier points ∧ point_eqb p' p = true.
Proof.
  intros Hnn Hinf Hp Hnd. rewrite pareto_frontier_scan.
  assert (Forall no_nan (sorted points)) as Hnn' by by rewrite sorted_perm.
  pose proof (sorted_sorted points Hnn) as Hs.
  rewrite Forall_forall in Hnn.
  destruct (first_point_eqb (sorted points) p) as (l1&p'&l2&Heq&Hpp&Hl1);
    [by apply Hnn|by rewrite sorted_perm|].
  exists p'. split; [|done].
  assert (p' ∈ points) as Hp'.
  { rewrite <- (sorted_perm points), Heq.
    apply elem_of_app. right. by left. }
  apply scan_elem; [done..|]. exists l1, l2. split_and!; [done| |].
  - destruct (Hnn p' Hp') as [??], (Hnn p Hp) as [??].
    unfold point_eqb in Hpp. destruct p as [px py], p' as [px' py'].
    cbn [fst snd] in *. apply andb_true_iff in Hpp as [Hpp1 Hpp2].
    assert (is_nan inf = false) by done. float_order.
  - intros q Hq.
    assert (q ∈ points) as Hq'.
    { rewrite <- (sorted_perm points), Heq. apply elem_of_app. by left. }
    rewrite Heq in Hs.
    pose proof (Hnd q Hq') as Hd. pose proof (Hl1 q Hq) as Hne.
    assert (key_le q p') as Hle.
    { eapply StronglySorted_app_1_elem_of; [done..|]. by left. }
    rewrite <- (dominates_point_eqb q p p') in Hd by auto.
    pose proof (key_le_cases q p' (Hnn q Hq') (Hnn p' Hp') Hle) as Hc.
    destruct (Hnn q Hq') as [??], (Hnn p' Hp') as [??], (Hnn p Hp) as [??].
    unfold dominates, point_eqb in *.
    destruct p as [px py], p' as [px' py'], q as [qx qy]. cbn [fst snd] in *.
    apply andb_true_iff in Hpp as [Hpp1 Hpp2].
    destruct Hc as [Hc|[Hc1 Hc2]].
    + rewrite Hc in Hd. rewrite orb_true_l, andb_true_r in Hd.
      assert (leb qx px' = true) as Hl by float_order.
      rewrite Hl in Hd. cbn in Hd. float_order.
    + assert (eqb qx px = true) as Hqx by float_order.
      rewrite Hqx in Hne. cbn in Hne.
      float_order.
Qed.

Lemma scan_strongly_sorted (l : list point) (min_y : float) :
  Forall no_nan l → StronglySorted key_le l →
  StronglySorted (λ p q, leb p.1 q.1 = true ∧ ltb q.2 p.2 = true)
    (scan min_y l).
Proof.
  intros Hnn Hs. revert min_y.
  induction Hs as [|[x y] l Hs IH Hle]; intros m; cbn; [constructor|].
  apply Forall_cons in Hnn as [Hp Hnn].
  destruct (ltb y m); [|by apply IH].
  constructor; [by apply IH|].
  rewrite Forall_forall in Hle, Hnn |- *.
  intros q [Hq Hlt]%scan_subseteq. split; [|done].
  pose proof (key_le_cases (x, y) q Hp (Hnn q Hq) (Hle q Hq)) as Hc.
  destruct Hp as [??], (Hnn q Hq) as [??], q as [qx qy].
  cbn [fst snd] in *. float_order.
Qed.

(** The examples of the specification, and the stability of the sort: of
    two points that are equal under [==], the first of the input is the
    one returned. *)
Lemma pareto_frontier_examples :
  pareto_frontier [] = [] ∧
  pareto_frontier [(of_int 5, of_int 5)] = [(of_int 5, of_int 5)] ∧
  pareto_frontier example_points =
    [(of_int 1, of_int 10); (of_int 2, of_int 5); (of_int 4, of_int 1)] ∧
  pareto_frontier [(S754_zero false, one); (S754_zero true, one)] =
    [(S754_zero false, one)] ∧
  pareto_frontier [(S754_zero true, one); (S754_zero false, one)] =
    [(S754_zero true, one)].
Proof. repeat split; vm_compute; reflexivity. Qed.

(** The frontier of the points of ['prime'] with the single-hop times:
    LogGraph, Our and CGraphIndex, in this order; CSR takes more space and
    more time than CGraphIndex. *)
Lemma pareto_frontier_prime :
  pareto_frontier Data.prime_single_hop_points =
  [(fdiv (of_int 9924656) Config.mebi, Data.milli 17099);
   (fdiv (of_int 10057280) Config.mebi, Data.milli 12049);
   (fdiv (of_int 15733715) Config.mebi, Data.milli 5981)].
Proof. vm_compute. reflexivity. Qed.

Lemma point_eqb_below_inf (p' p : point) :
  point_eqb p' p = true → ltb p'.2 inf = true → ltb p.2 inf = true.
Proof.
  unfold point_eqb. intros [_ Hy]%andb_true_iff.
  destruct p' as [x' y'], p as [x y]. cbn [fst snd] in *.
  destruct y' as [[]|[]| |[] ? ?], y as [[]|[]| |[] ? ?]; done.
Qed.

(** C1, what the code returns: for every list of points without NaN
    coordinates, every returned point is an input point that no input
    point strictly dominates and whose y is below +infinity; and an input
    point that no input point strictly dominates appears (up to [==]) in
    the returned list exactly when its y is below +infinity.  So the
    points that the docstring puts on the frontier and the code leaves
    out are the undominated points with y = +infinity, which the test
    [y < min_y] rejects against the first [min_y = float('inf')]. *)
Theorem pareto_frontier_misses_infinite_y (points : list point) :
  Forall no_nan points →
  (∀ p, p ∈ pareto_frontier points →
        p ∈ points ∧ ltb p.2 inf = true ∧
        ∀ q, q ∈ points → dominates q p = false) ∧
  (∀ p, p ∈ points → (∀ q, q ∈ points → dominates q p = false) →
        (∃ p', p' ∈ pareto_frontier points ∧ point_eqb p' p = true) ↔
        ltb p.2 inf = true).
Proof.
  intros Hnn. split.
  - intros p Hp. split_and!.
    + by apply frontier_subseteq.
    + rewrite pareto_frontier_scan in Hp.
      by apply scan_subseteq in Hp as [_ ?].
    + intros q Hq. by apply (frontier_not_dominated points).
  - intros p Hp Hnd. split.
    + intros (p'&Hp'&Heq). apply (point_eqb_below_inf p' p Heq).
      rewrite pareto_frontier_scan in Hp'.
      by apply scan_subseteq in Hp' as [_ ?].
    + intros Hinf. by apply not_dominated_on_frontier.
Qed.

Lemma pareto_frontier_misses_infinite_y_witness :
  Forall no_nan [(one, inf)] ∧
  (∀ p, p ∈ pareto_frontier [(one, inf)] →
        p ∈ [(one, inf)] ∧ ltb p.2 inf = true ∧
        ∀ q, q ∈ [(one, inf)] → dominates q p = false) ∧
  (∀ p, p ∈ [(one, inf)] →
        (∀ q, q ∈ [(one, inf)] → dominates q p = false) →
        (∃ p', p' ∈ pareto_frontier [(one, inf)] ∧ point_eqb p' p = true) ↔
        ltb p.2 inf = true).
Proof.
  assert (Forall no_nan [(one, inf)]) as H1 by (repeat constructor).
  split; [exact H1|].
  exact (pareto_frontier_misses_infinite_y [(one, inf)] H1).
Defined.

(** The runs behind it: the single point [(1.0, inf)], which nothing
    dominates, is not returned; of [(1.0, inf)] and [(2.0, 5.0)], neither
    of which dominates the other, only the second is returned. *)
Lemma pareto_frontier_infinite_y_runs :
  pareto_frontier [(one, inf)] = [] ∧
  dominates (one, inf) (one, inf) = false ∧
  pareto_frontier [(one, inf); (of_int 2, of_int 5)]
    = [(of_int 2, of_int 5)] ∧
  dominates (of_int 2, of_int 5) (one, inf) = false ∧
  dominates (one, inf) (of_int 2, of_int 5) = false.
Proof. repeat split; vm_compute; reflexivity. Qed.

(** C2: for every list of points without NaN coordinates, no point
    returned by [pareto_frontier] is strictly dominated by a point of the
    input, and no returned point strictly dominates a returned point. *)
Theorem pareto_frontier_sound (points : list point) :
  Forall no_nan points →
  ∀ p, p ∈ pareto_frontier points →
       (∀ q, q ∈ points → dominates q p = false) ∧
       (∀ p', p' ∈ pareto_frontier points → dominates p' p = false).
Proof.
  intros Hnn p Hp. split.
  - intros q Hq. by apply (frontier_not_dominated points).
  - intros p' Hp'. apply (frontier_not_dominated points); [done..|].
    by apply frontier_subseteq.
Qed.

Lemma pareto_frontier_sound_witness :
  Forall no_nan Data.prime_single_hop_points ∧
  ∀ p, p ∈ pareto_frontier Data.prime_single_hop_points →
       (∀ q, q ∈ Data.prime_single_hop_points → dominates q p = false) ∧
       (∀ p', p' ∈ pareto_frontier Data.prime_single_hop_points →
              dominates p' p = false).
Proof.
  assert (Forall no_nan Data.prime_single_hop_points) as H1
    by (repeat constructor; vm_compute; reflexivity).
  split; [exact H1|].
  exact (pareto_frontier_sound Data.prime_single_hop_points H1).
Defined.

(** C3: for every list of points without NaN coordinates, the list
    returned by [pareto_frontier] is ascending in x and strictly
    descending in y; both hold between any two of its positions. *)
Theorem pareto_frontier_ordered (points : list point) :
  Forall no_nan points →
  StronglySorted (λ a b, leb a b = true) (pareto_frontier points).*1 ∧
  StronglySorted (λ a b, ltb b a = true) (pareto_frontier points).*2.
Proof.
  intros Hnn. rewrite pareto_frontier_scan.
  assert (StronglySorted (λ p q, leb p.1 q.1 = true ∧ ltb q.2 p.2 = true)
            (scan inf (sorted points))) as Hs.
  { apply scan_strongly_sorted; [by rewrite sorted_perm|].
    by apply sorted_sorted. }
  split.
  - eapply StronglySorted_fmap; [|exact Hs]. by intros ?? [??].
  - eapply StronglySorted_fmap; [|exact Hs]. by intros ?? [??].
Qed.

Lemma pareto_frontier_ordered_witness :
  Forall no_nan Data.prime_single_hop_points ∧
  StronglySorted (λ a b, leb a b = true)
    (pareto_frontier Data.prime_single_hop_points).*1 ∧
  StronglySorted (λ a b, ltb b a = true)
    (pareto_frontier Data.prime_single_hop_points).*2.
Proof.
  assert (Forall no_nan Data.prime_single_hop_points) as H1
    by (repeat constructor; vm_compute; reflexivity).
  split; [exact H1|].
  exact (pareto_frontier_ordered Data.prime_single_hop_points H1).
Defined.

(** C10: for every non-empty list of points with finite coordinates,
    [pareto_frontier] returns a non-empty list whose first element is an
    input point of least x and, among the input points of that x, of
    least y. *)
Theorem pareto_frontier_head (points : list point) :
  points ≠ [] → Forall finite_point points →
  ∃ p rest, pareto_frontier points = p :: rest ∧ p ∈ points ∧
    ∀ q, q ∈ points →
         leb p.1 q.1 = true ∧ (eqb p.1 q.1 = true → leb p.2 q.2 = true).
Proof.
  intros Hne Hfin.
  assert (Forall no_nan points) as Hnn.
  { eapply Forall_impl; [exact Hfin|].
    intros ? [??]. split; by apply is_finite_not_nan. }
  pose proof (sorted_sorted points Hnn) as Hs.
  pose proof (sorted_perm points) as Hperm.
  rewrite pareto_frontier_scan.
  destruct (sorted points) as [|[x y] l] eqn:Heq.
  { by apply Permutation_nil_l in Hperm. }
  assert ((x, y) ∈ points) as Hin by (rewrite <- Hperm; by left).
  rewrite Forall_forall in Hfin, Hnn.
  destruct (Hfin _ Hin) as [_ Hy]. cbn in Hy.
  cbn. rewrite (ltb_inf y Hy).
  eexists _, _. split_and!; [done..|].
  intros q Hq. rewrite <- Hperm in Hq.
  assert (key_le (x, y) q) as Hle.
  { apply elem_of_cons in Hq as [->|Hq]; [apply key_le_refl|].
    apply StronglySorted_inv in Hs as [_ Hs].
    rewrite Forall_forall in Hs. by apply Hs. }
  rewrite Hperm in Hq.
  pose proof (key_le_cases _ _ (Hnn _ Hin) (Hnn _ Hq) Hle) as Hc.
  destruct (Hnn _ Hin) as [??], (Hnn _ Hq) as [??], q as [qx qy].
  cbn [fst snd] in *. float_order.
Qed.

Lemma pareto_frontier_head_witness :
  example_points ≠ [] ∧ Forall finite_point example_points ∧
  ∃ p rest, pareto_frontier example_points = p :: rest ∧ p ∈ example_points ∧
    ∀ q, q ∈ example_points →
         leb p.1 q.1 = true ∧ (eqb p.1 q.1 = true → leb p.2 q.2 = true).
Proof.
  assert (example_points ≠ []) as H1 by discriminate.
  assert (Forall finite_point example_points) as H2 by (repeat constructor).
  split; [exact H1|]. split; [exact H2|].
  exact (pareto_frontier_head example_points H1 H2).
Defined.

End ParetoFacts.

(** ** Runs, and division *)

Module PyFacts.
Import PyFloat Py.

Lemma run_eta {A} (c : run A) : Run (printed c) (result c) = c.
Proof. by destruct c. Qed.

Lemma bind_ret_l {A B} (a : A) (k : A → run B) : mret a ≫= k = k a.
Proof. unfold mbind, run_bind, bind. cbn. apply run_eta. Qed.

Lemma bind_raise_l {A B} (e : exn) (k : A → run B) : raise e ≫= k = raise e.
Proof. reflexivity. Qed.

Lemma bind_print_l {B} (line : string) (k : unit → run B) :
  print line ≫= k = Run (line :: printed (k ())) (result (k ())).
Proof. reflexivity. Qed.

Lemma bind_assoc {A B C} (c : run A) (k : A → run B) (k' : B → run C) :
  (c ≫= k) ≫= k' = c ≫= (λ a, k a ≫= k').
Proof.
  unfold mbind, run_bind, bind. destruct c as [l [a|e]]; cbn; [|done].
  destruct (k a) as [l' [b|e']]; cbn; [|done].
  by rewrite app_assoc.
Qed.

Lemma bind_ext {A B} (c : run A) (k k' : A → run B) :
  (∀ a, k a = k' a) → c ≫= k = c ≫= k'.
Proof.
  intros H. unfold mbind, run_bind, bind.
  destruct c as [l [a|e]]; cbn; [|done]. by rewrite H.
Qed.

Lemma bind_Return {A B} (l : list string) (a : A) (k : A → run B) :
  Run l (Return a) ≫= k = Run (l ++ printed (k a)) (result (k a)).
Proof. reflexivity. Qed.

Lemma bind_Raise {A B} (l : list string) (e : exn) (k : A → run B) :
  Run l (Raise e) ≫= k = Run l (Raise e).
Proof. reflexivity. Qed.

Lemma result_bind_Raise {A B} (c : run A) (k : A → run B) (e : exn) :
  result c = Raise e → result (c ≫= k) = Raise e.
Proof. unfold mbind, run_bind, bind. by intros ->. Qed.

(** A line printed in the middle of a run changes nothing but the printed
    lines. *)
Lemma bind_print_between {A B} (c : run A) (w : string) (k : A → run B) :
  result (c ≫= λ a, print w;; k a) = result (c ≫= k) ∧
  ((∀ e, result c ≠ Raise e) →
   ∃ l1 l2, printed (c ≫= k) = l1 ++ l2 ∧
            printed (c ≫= λ a, print w;; k a) = l1 ++ w :: l2).
Proof.
  unfold mbind, run_bind, bind. destruct c as [l [a|e]]; cbn.
  - split; [done|]. intros _. by exists l, (printed (k a)).
  - split; [done|]. intros H. by destruct (H e).
Qed.

Lemma truediv_nonzero (a b : float) :
  eqb b zero = false → truediv a b = mret (fdiv a b).
Proof. unfold truediv. by intros ->. Qed.

Lemma truediv_zero (a b : float) :
  eqb b zero = true → truediv a b = raise ZeroDivisionError.
Proof. unfold truediv. by intros ->. Qed.

Lemma to_MB_total (a : float) : Config.to_MB a = mret (fdiv a Config.mebi).
Proof. reflexivity. Qed.

(** [v / v] is exactly [1.0] for a finite non-zero [v]. *)
Lemma fdiv_self (s : bool) (m : positive) (e : Z) :
  fdiv (S754_finite s m e) (S754_finite s m e) = one.
Proof.
  unfold fdiv, SFdiv, SFdiv_core_binary.
  rewrite !Z.sub_diag. rewrite xorb_nilpotent.
  change (Z.min (fexp prec emax 0) 0) with (-53).
  change (0 - -53) with 53.
  change (IntDef.Z.div_eucl _ (Z.pos m))
    with (Z.div_eucl (Z.shiftl (Z.pos m) 53) (Z.pos m)).
  assert (Z.div_eucl (Z.shiftl (Z.pos m) 53) (Z.pos m) = (2 ^ 53, 0)) as ->.
  { rewrite Z.shiftl_mul_pow2 by done.
    pose proof (Z.div_mul (2 ^ 53) (Z.pos m) ltac:(done)) as Hd.
    pose proof (Z.mod_mul (2 ^ 53) (Z.pos m)) as Hm.
    rewrite (Z.mul_comm (Z.pos m)).
    unfold Z.div, Z.modulo in Hd, Hm.
    destruct (Z.div_eucl (2 ^ 53 * Z.pos m) (Z.pos m)) as [q r].
    by rewrite Hd, Hm. }
  assert (new_location (Z.pos m) 0 = loc_Exact) as ->.
  { unfold new_location. by destruct (Z.even (Z.pos m)). }
  reflexivity.
Qed.

Lemma finite_nonzero_inv (v : float) :
  is_finite v = true → eqb v zero = false → ∃ s m e, v = S754_finite s m e.
Proof. destruct v as [s|s| |s m e]; try done. eauto. Qed.

Lemma fdiv_self_one (v : float) :
  is_finite v = true → eqb v zero = false → fdiv v v = one.
Proof.
  intros Hf Hz. destruct (finite_nonzero_inv v Hf Hz) as (s&m&e&->).
  apply fdiv_self.
Qed.

Lemma fdiv_nan_r (a : float) : fdiv a nan = nan.
Proof. by destruct a. Qed.

End PyFacts.

(** ** The annotation of a ratio *)

Module ConfigFacts.
Import PyFloat Py Config Examples.

(** [v == 1.0] holds for the float [1.0] and for no other. *)
Lemma eqb_one_iff (v : float) : eqb v one = true ↔ v = one.
Proof.
  split; [|by intros ->].
  unfold one. generalize 4503599627370496%positive (-52). intros m1 e1.
  destruct v as [s|s| |s m e]; try destruct s; try discriminate.
  unfold eqb, SFeqb, SFcompare.
  destruct (Z.compare_spec e e1) as [->| |]; try discriminate.
  fold (Pos.compare m m1).
  destruct (Pos.compare_spec m m1) as [->| |]; try discriminate.
  done.
Qed.

(** [round_half_even] gives an integer nearest to the quotient. *)
Lemma round_half_even_nearest (n d : Z) :
  0 < d → 2 * Z.abs (n - round_half_even n d * d) ≤ d.
Proof.
  intros Hd. unfold round_half_even.
  pose proof (Z.div_mod n d ltac:(lia)) as Hn.
  pose proof (Z.mod_pos_bound n d Hd) as Hr.
  set (q := n / d) in *. set (r := n mod d) in *.
  destruct (Z.compare_spec (2 * r) d); [destruct (Z.even q)|..]; nia.
Qed.

(** The tenths that [format_1f] prints are nearest to ten times the
    value [m * 2^e]. *)
Lemma tenths_nearest (m : positive) (e : Z) :
  if 0 <=? e then tenths m e = Z.pos m * 2 ^ e * 10
  else 2 * Z.abs (Z.pos m * 10 - tenths m e * 2 ^ (- e)) ≤ 2 ^ (- e).
Proof.
  unfold tenths. destruct (0 <=? e) eqn:He; [done|].
  apply round_half_even_nearest. apply Z.pow_pos_nonneg; lia.
Qed.

Lemma tenths_nonneg (m : positive) (e : Z) : 0 ≤ tenths m e.
Proof.
  unfold tenths, round_half_even. destruct (0 <=? e) eqn:He.
  - apply Z.leb_le in He. pose proof (Z.pow_nonneg 2 e). nia.
  - apply Z.leb_gt in He.
    assert (0 < 2 ^ (- e)) as Hd by (apply Z.pow_pos_nonneg; lia).
    pose proof (Z.div_pos (Z.pos m * 10) (2 ^ (- e)) ltac:(lia) Hd).
    repeat case_match; lia.
Qed.

Lemma string_app_assoc (s1 s2 s3 : string) :
  (s1 +:+ s2) +:+ s3 = s1 +:+ (s2 +:+ s3).
Proof.
  induction s1 as [|c s1 IH]; [done|].
  change (String c ((s1 +:+ s2) +:+ s3) = String c (s1 +:+ (s2 +:+ s3))).
  by rewrite IH.
Qed.

(** A finite float is printed with one digit behind the point. *)
Lemma format_1f_one_decimal (s : bool) (m : positive) (e : Z) :
  ∃ int_part digit,
    format_1f (S754_finite s m e) = int_part +:+ "." +:+ digit ∧
    String.length digit = 1%nat.
Proof.
  unfold format_1f.
  exists ((if s then "-" else "") +:+ pretty (Z.to_N (tenths m e / 10))),
    (pretty (Z.to_N (tenths m e `mod` 10))).
  split.
  - by rewrite string_app_assoc.
  - pose proof (Z.mod_pos_bound (tenths m e) 10 ltac:(lia)) as Hb.
    assert (∃ n : nat, (n < 10)%nat ∧
              Z.to_N (tenths m e `mod` 10) = N.of_nat n) as (n&Hn&->).
    { exists (Z.to_nat (tenths m e `mod` 10)). split; lia. }
    do 10 (destruct n as [|n]; [reflexivity|]). lia.
Qed.

(** On a tie [round_half_even] gives the even neighbour. *)
Lemma round_half_even_tie (n d : Z) :
  0 < d → 2 * Z.abs (n - round_half_even n d * d) = d →
  Z.even (round_half_even n d) = true.
Proof.
  intros Hd. unfold round_half_even.
  pose proof (Z.div_mod n d ltac:(lia)) as Hn.
  pose proof (Z.mod_pos_bound n d Hd) as Hr.
  set (q := n / d) in *. set (r := n mod d) in *.
  destruct (Z.compare_spec (2 * r) d) as [He|Hl|Hg].
  - destruct (Z.even q) eqn:E; [done|]. intros _.
    by rewrite Z.even_add, E.
  - intros H. exfalso. nia.
  - intros H. exfalso. nia.
Qed.

(** The integer nearest to [n / d], the even one of two, is unique. *)
Lemma nearest_even_unique (n d t1 t2 : Z) :
  0 < d →
  2 * Z.abs (n - t1 * d) ≤ d →
  (2 * Z.abs (n - t1 * d) = d → Z.even t1 = true) →
  2 * Z.abs (n - t2 * d) ≤ d →
  (2 * Z.abs (n - t2 * d) = d → Z.even t2 = true) →
  t1 = t2.
Proof.
  intros Hd H1 E1 H2 E2.
  assert (Z.abs (t1 - t2) ≤ 1) as Hclose by nia.
  destruct (decide (t1 = t2)) as [|Hne]; [done|exfalso].
  assert (2 * Z.abs (n - t1 * d) = d) as T1 by nia.
  assert (2 * Z.abs (n - t2 * d) = d) as T2 by nia.
  specialize (E1 T1). specialize (E2 T2).
  apply Z.even_spec in E1 as [k1 ->], E2 as [k2 ->]. lia.
Qed.

(** The tenths that [format_1f] prints: ten times the value where that is
    an integer, and else the integer nearest to it, the even one of two. *)
Lemma tenths_spec (m : positive) (e : Z) :
  0 ≤ tenths m e ∧
  if 0 <=? e then tenths m e = Z.pos m * 2 ^ e * 10
  else 2 * Z.abs (Z.pos m * 10 - tenths m e * 2 ^ (- e)) ≤ 2 ^ (- e) ∧
       (2 * Z.abs (Z.pos m * 10 - tenths m e * 2 ^ (- e)) = 2 ^ (- e) →
        Z.even (tenths m e) = true).
Proof.
  split; [apply tenths_nonneg|].
  pose proof (tenths_nearest m e) as H. destruct (0 <=? e) eqn:He; [done|].
  split; [done|]. unfold tenths. rewrite He.
  apply round_half_even_tie. apply Z.pow_pos_nonneg; [lia|].
  apply Z.leb_gt in He. lia.
Qed.

(** No other integer fits that description, so it fixes the digits. *)
Lemma tenths_unique (m : positive) (e t : Z) :
  (if 0 <=? e then t = Z.pos m * 2 ^ e * 10
   else 2 * Z.abs (Z.pos m * 10 - t * 2 ^ (- e)) ≤ 2 ^ (- e) ∧
        (2 * Z.abs (Z.pos m * 10 - t * 2 ^ (- e)) = 2 ^ (- e) →
         Z.even t = true)) →
  t = tenths m e.
Proof.
  intros H. pose proof (tenths_spec m e) as [_ H'].
  destruct (0 <=? e) eqn:He; [by rewrite H'|].
  destruct H as [H1 H2], H' as [H1' H2'].
  apply Z.leb_gt in He.
  eapply (nearest_even_unique (Z.pos m * 10) (2 ^ (- e))); try done.
  apply Z.pow_pos_nonneg; lia.
Qed.

(** C8: with the ratio shown, [format_annotation_with_ratio] returns the
    empty string for the float [1.0] and for no other value, and the ratio
    with one decimal followed by [x] for every other value, also for the
    two floats next to [1.0]; with the ratio not shown it returns the empty
    string.  The text of the ratio is [nan], [inf] or [-inf] for these
    values and, for [(-1)^s * m * 2^e], the sign, the integer part and one
    digit of the number of tenths [t] nearest to ten times [m * 2^e],
    the even one where two are equally near: [0.25] gives [0.2x] and
    [0.75] gives [0.8x]; the float of [0.95], which lies below it, gives
    [0.9x], and the float of [0.96] gives [1.0x]. *)
Theorem format_annotation_with_ratio_exact (absolute_value v : float)
    (unit : string) :
  format_annotation_with_ratio absolute_value v unit true =
    (if decide (v = one) then "" else format_1f v +:+ "x") ∧
  format_annotation_with_ratio absolute_value v unit false = "" ∧
  format_annotation_with_ratio absolute_value one_succ unit true = "1.0x" ∧
  format_annotation_with_ratio absolute_value one_pred unit true = "1.0x" ∧
  match v with
  | S754_nan =>
      format_annotation_with_ratio absolute_value v unit true = "nanx"
  | S754_infinity s =>
      format_annotation_with_ratio absolute_value v unit true =
      (if s then "-" else "") +:+ "infx"
  | S754_zero s =>
      format_annotation_with_ratio absolute_value v unit true =
      (if s then "-" else "") +:+ "0.0x"
  | S754_finite s m e =>
      if decide (v = one)
      then format_annotation_with_ratio absolute_value v unit true = ""
      else
        ∃ t : Z,
          0 ≤ t ∧
          (if 0 <=? e then t = Z.pos m * 2 ^ e * 10
           else 2 * Z.abs (Z.pos m * 10 - t * 2 ^ (- e)) ≤ 2 ^ (- e) ∧
                (2 * Z.abs (Z.pos m * 10 - t * 2 ^ (- e)) = 2 ^ (- e) →
                 Z.even t = true)) ∧
          format_annotation_with_ratio absolute_value v unit true =
          (if s then "-" else "") +:+ pretty (Z.to_N (t / 10)) +:+ "."
            +:+ pretty (Z.to_N (t mod 10)) +:+ "x"
  end ∧
  format_annotation_with_ratio absolute_value
    (fdiv (of_int 1) (of_int 4)) unit true = "0.2x" ∧
  format_annotation_with_ratio absolute_value
    (fdiv (of_int 3) (of_int 4)) unit true = "0.8x" ∧
  format_annotation_with_ratio absolute_value
    (fdiv (of_int 5) (of_int 2)) unit true = "2.5x" ∧
  format_annotation_with_ratio absolute_value
    (fdiv (of_int 95) (of_int 100)) unit true = "0.9x" ∧
  format_annotation_with_ratio absolute_value
    (fdiv (of_int 96) (of_int 100)) unit true = "1.0x" ∧
  format_annotation_with_ratio absolute_value
    (fdiv (of_int 123456) (of_int 100)) unit true = "1234.6x" ∧
  format_annotation_with_ratio absolute_value
    (fdiv (of_int 14362964) (of_int 21035422)) unit true = "0.7x".
Proof.
  assert (format_annotation_with_ratio absolute_value v unit true =
    (if decide (v = one) then "" else format_1f v +:+ "x")) as Hlabel.
  { unfold format_annotation_with_ratio, neb. fold (eqb v one). cbn [andb].
    case_decide as Hv.
    - by rewrite (proj2 (eqb_one_iff v) Hv).
    - destruct (eqb v one) eqn:E; [|done]. by apply eqb_one_iff in E. }
  split; [exact Hlabel|]. split; [done|]. split; [done|]. split; [done|].
  split; [|repeat split; vm_compute; reflexivity].
  destruct v as [s|s| |s m e].
  - rewrite Hlabel. by destruct s.
  - rewrite Hlabel. by destruct s.
  - by rewrite Hlabel.
  - rewrite Hlabel. case_decide as Hv; [done|].
    exists (tenths m e). destruct (tenths_spec m e) as [H0 H].
    split; [done|]. split; [done|].
    unfold format_1f. by rewrite !string_app_assoc.
Qed.

End ConfigFacts.

(** ** The loops of [adj_space_plot.py] *)

Module AdjSpaceFacts.
Import PyFloat Py Config AdjSpace PyFacts.

Lemma formats_loop_nonzero (row : series) (csr_size : float)
    (fmts : list string) (tn ta : list float) :
  eqb csr_size zero = false →
  formats_loop row csr_size fmts tn ta =
  mret (tn ++ normalized_row row csr_size fmts, ta ++ absolute_row row fmts).
Proof.
  intros Hz. revert tn ta.
  induction fmts as [|fmt fmts IH]; intros tn ta; cbn [formats_loop].
  - by rewrite !app_nil_r.
  - unfold normalized_row, absolute_row. rewrite !fmap_cons.
    fold (normalized_row row csr_size fmts) (absolute_row row fmts).
    destruct (row !! fmt) as [size|].
    + rewrite (truediv_nonzero _ _ Hz), bind_ret_l, to_MB_total, bind_ret_l.
      rewrite IH. by rewrite <- !app_assoc.
    + rewrite IH. by rewrite <- !app_assoc.
Qed.

Lemma formats_loop_zero (row : series) (csr_size size : float) (fmt : string)
    (fmts : list string) (tn ta : list float) :
  eqb csr_size zero = true → row !! fmt = Some size →
  formats_loop row csr_size (fmt :: fmts) tn ta = raise ZeroDivisionError.
Proof.
  intros Hz Hfmt. cbn [formats_loop]. by rewrite Hfmt, (truediv_zero _ _ Hz).
Qed.

Lemma datasets_loop_app (T : table) (fmts l1 l2 : list string)
    (ns am : list (list float)) :
  datasets_loop T fmts (l1 ++ l2) ns am =
  ('(ns', am') ← datasets_loop T fmts l1 ns am;
   datasets_loop T fmts l2 ns' am').
Proof.
  revert ns am.
  induction l1 as [|ds l1 IH]; intros ns am; cbn [datasets_loop app].
  - by rewrite bind_ret_l.
  - rewrite bind_assoc. apply bind_ext; intros row.
    destruct (row !! CSR_BASELINE_KEY) as [csr_size|].
    + rewrite bind_assoc. apply bind_ext; intros [tn ta]. apply IH.
    + rewrite bind_assoc. apply bind_ext; intros _. apply IH.
Qed.

Lemma datasets_loop_missing_baseline (T : table) (fmts rest : list string)
    (ds : string) (row : series) (ns am : list (list float)) :
  T !! ds = Some row → row !! CSR_BASELINE_KEY = None →
  datasets_loop T fmts (ds :: rest) ns am =
  (print (missing_baseline_warning ds);; datasets_loop T fmts rest ns am).
Proof.
  intros HT Hrow. cbn [datasets_loop]. unfold getitem.
  by rewrite HT, bind_ret_l, Hrow.
Qed.

Lemma datasets_loop_zero_baseline (T : table) (fmts rest : list string)
    (ds : string) (row : series) (csr_size : float)
    (ns am : list (list float)) :
  T !! ds = Some row → row !! CSR_BASELINE_KEY = Some csr_size →
  eqb csr_size zero = true →
  datasets_loop T (CSR_BASELINE_KEY :: fmts) (ds :: rest) ns am =
  raise ZeroDivisionError.
Proof.
  intros HT Hrow Hz. cbn [datasets_loop]. unfold getitem.
  rewrite HT, bind_ret_l, Hrow.
  by rewrite (formats_loop_zero row csr_size csr_size).
Qed.

(** The loop over datasets that all have a non-zero baseline: one row per
    dataset, nothing printed. *)
Lemma datasets_loop_all_present (T : table) (fmts datasets : list string)
    (ns am : list (list float)) :
  (∀ ds, ds ∈ datasets → ∃ row csr,
     T !! ds = Some row ∧ row !! CSR_BASELINE_KEY = Some csr ∧
     eqb csr zero = false) →
  ∃ ns' am',
    datasets_loop T fmts datasets ns am = mret (ns ++ ns', am ++ am') ∧
    Forall2 (λ ds rn, ∃ row csr,
       T !! ds = Some row ∧ row !! CSR_BASELINE_KEY = Some csr ∧
       rn = normalized_row row csr fmts) datasets ns' ∧
    Forall2 (λ ds ra, ∃ row,
       T !! ds = Some row ∧ ra = absolute_row row fmts) datasets am'.
Proof.
  revert ns am. induction datasets as [|ds datasets IH]; intros ns am H.
  - exists [], []. rewrite !app_nil_r. by repeat split; constructor.
  - destruct (H ds) as (row&csr&HT&Hrow&Hz); [by left|].
    destruct (IH (ns ++ [normalized_row row csr fmts])
                 (am ++ [absolute_row row fmts])) as (ns'&am'&Heq&Hn&Ha).
    { intros ds' Hds'. apply H. by right. }
    exists (normalized_row row csr fmts :: ns'), (absolute_row row fmts :: am').
    split_and!.
    + cbn [datasets_loop]. unfold getitem. rewrite HT, bind_ret_l, Hrow.
      rewrite (formats_loop_nonzero _ _ _ _ _ Hz), bind_ret_l.
      cbn [app]. rewrite Heq. by rewrite <- !app_assoc.
    + constructor; [|done]. by exists row, csr.
    + constructor; [|done]. by exists row.
Qed.

Lemma baseline_of_lookup (T : table) (ds : string) (row : series) :
  T !! ds = Some row → baseline_of T ds = row !! CSR_BASELINE_KEY.
Proof. unfold baseline_of. by intros ->. Qed.

Lemma kept_cons (T : table) (ds : string) (l : list string) :
  kept T (ds :: l) =
  match baseline_of T ds with
  | Some _ => ds :: kept T l
  | None => kept T l
  end.
Proof.
  unfold kept. destruct (baseline_of T ds) eqn:E.
  - apply filter_cons_True. rewrite E. by eexists.
  - apply filter_cons_False. rewrite E. by intros [? ?].
Qed.

Lemma skipped_cons (T : table) (ds : string) (l : list string) :
  skipped T (ds :: l) =
  match baseline_of T ds with
  | Some _ => skipped T l
  | None => ds :: skipped T l
  end.
Proof.
  unfold skipped. destruct (baseline_of T ds) eqn:E.
  - apply filter_cons_False. by rewrite E.
  - by apply filter_cons_True.
Qed.

(** The loop over datasets none of which has a zero baseline: one warning
    for each dataset without baseline, one row for each of the others. *)
Lemma datasets_loop_total (T : table) (fmts datasets : list string)
    (ns am : list (list float)) :
  (∀ ds, ds ∈ datasets → ∃ row,
     T !! ds = Some row ∧
     ∀ csr, row !! CSR_BASELINE_KEY = Some csr → eqb csr zero = false) →
  ∃ ns' am',
    datasets_loop T fmts datasets ns am =
    Run (missing_baseline_warning <$> skipped T datasets)
        (Return (ns ++ ns', am ++ am')) ∧
    Forall2 (λ ds rn, ∃ row csr,
       T !! ds = Some row ∧ row !! CSR_BASELINE_KEY = Some csr ∧
       rn = normalized_row row csr fmts) (kept T datasets) ns' ∧
    Forall2 (λ ds ra, ∃ row,
       T !! ds = Some row ∧ ra = absolute_row row fmts) (kept T datasets) am'.
Proof.
  revert ns am. induction datasets as [|ds datasets IH]; intros ns am H.
  - exists [], []. rewrite !app_nil_r. by repeat split; constructor.
  - destruct (H ds) as (row&HT&Hz); [by left|].
    assert (∀ ds', ds' ∈ datasets → ∃ row,
              T !! ds' = Some row ∧
              ∀ csr, row !! CSR_BASELINE_KEY = Some csr → eqb csr zero = false)
      as H' by (intros ds' Hds'; apply H; by right).
    pose proof (baseline_of_lookup T ds row HT) as Hb.
    rewrite kept_cons, skipped_cons, Hb.
    destruct (row !! CSR_BASELINE_KEY) as [csr|] eqn:Hrow.
    + destruct (IH (ns ++ [normalized_row row csr fmts])
                   (am ++ [absolute_row row fmts]) H')
        as (ns'&am'&Heq&Hn&Ha).
      exists (normalized_row row csr fmts :: ns'),
        (absolute_row row fmts :: am').
      split_and!.
      * cbn [datasets_loop]. unfold getitem. rewrite HT, bind_ret_l, Hrow.
        rewrite (formats_loop_nonzero _ _ _ _ _ (Hz csr eq_refl)), bind_ret_l.
        cbn [app]. rewrite Heq. by rewrite <- !app_assoc.
      * constructor; [|done]. by exists row, csr.
      * constructor; [|done]. by exists row.
    + destruct (IH ns am H') as (ns'&am'&Heq&Hn&Ha).
      exists ns', am'.
      split_and!; [|done..].
      rewrite (datasets_loop_missing_baseline _ _ _ _ _ _ _ HT Hrow).
      by rewrite bind_print_l, Heq.
Qed.

End AdjSpaceFacts.

(** ** The loops of [relabelling.py] *)

Module RelabelFacts.
Import PyFloat Py Config Relabel PyFacts.

Lemma items_loop_present (row : series) (ds : string) (items : list string)
    (acc : list float) :
  (∀ item, item ∈ items → is_Some (row !! item)) →
  items_loop row ds items acc =
  mret (acc ++ ((λ item, default zero (row !! item)) <$> items)).
Proof.
  revert acc. induction items as [|item items IH]; intros acc H.
  - cbn. by rewrite app_nil_r.
  - cbn [items_loop]. destruct (H item) as [size Hsize]; [by left|].
    rewrite fmap_cons, Hsize. cbn [default].
    rewrite IH by (intros ??; apply H; by right).
    by rewrite <- app_assoc.
Qed.

Lemma mapM_truediv (v : float) (sizes : list float) :
  eqb v zero = false →
  mapM (λ s, truediv s v) sizes = mret ((λ s, fdiv s v) <$> sizes).
Proof.
  intros Hz. induction sizes as [|s sizes IH]; [done|].
  cbn [mapM]. fold (mapM (M := run) (λ s, truediv s v)).
  by rewrite (truediv_nonzero _ _ Hz), bind_ret_l, IH, bind_ret_l.
Qed.

Lemma mapM_to_MB (sizes : list float) :
  mapM to_MB sizes = mret ((λ s, fdiv s mebi) <$> sizes).
Proof.
  induction sizes as [|s sizes IH]; [done|].
  cbn [mapM]. fold (mapM (M := run) to_MB).
  by rewrite to_MB_total, bind_ret_l, IH, bind_ret_l.
Qed.

Lemma divisor_nonzero (v : float) : eqb (divisor v) zero = false.
Proof. unfold divisor. by destruct (eqb v zero) eqn:E. Qed.

Lemma relabel_loop_missing_baseline (data : table) (items rest : list string)
    (b ds : string) (row : series) (nv am : list (list float)) :
  data !! ds = Some row → row !! b = None →
  datasets_order_loop data items b (ds :: rest) nv am =
  raise (ValueError (baseline_missing_msg b ds)).
Proof.
  intros HT Hrow. cbn [datasets_order_loop]. unfold getitem.
  by rewrite HT, bind_ret_l, Hrow.
Qed.

Lemma relabel_loop_app (data : table) (items l1 l2 : list string)
    (b : string) (nv am : list (list float)) :
  datasets_order_loop data items b (l1 ++ l2) nv am =
  ('(nv', am') ← datasets_order_loop data items b l1 nv am;
   datasets_order_loop data items b l2 nv' am').
Proof.
  revert nv am.
  induction l1 as [|ds l1 IH]; intros nv am; cbn [datasets_order_loop app].
  - by rewrite bind_ret_l.
  - rewrite bind_assoc. apply bind_ext; intros row.
    destruct (row !! b) as [v|]; [|done].
    repeat (rewrite bind_assoc; apply bind_ext; intros ?).
    apply IH.
Qed.

Lemma relabel_loop_step (data : table) (items rest : list string)
    (b ds : string) (row : series) (v : float) (nv am : list (list float)) :
  data !! ds = Some row → row !! b = Some v →
  (∀ item, item ∈ items → is_Some (row !! item)) →
  datasets_order_loop data items b (ds :: rest) nv am =
  (Run (if eqb v zero then [zero_baseline_warning b ds] else []) (Return ());;
   datasets_order_loop data items b rest
     (nv ++ [(λ item, fdiv (default zero (row !! item)) (divisor v)) <$> items])
     (am ++ [(λ item, fdiv (default zero (row !! item)) mebi) <$> items])).
Proof.
  intros HT Hrow Hitems. cbn [datasets_order_loop]. unfold getitem.
  rewrite HT, bind_ret_l, Hrow.
  pose proof (divisor_nonzero v) as Hd. unfold divisor in *.
  destruct (eqb v zero).
  - rewrite bind_assoc. apply bind_ext; intros _. rewrite bind_ret_l.
    rewrite (items_loop_present row ds items [] Hitems), bind_ret_l.
    rewrite (mapM_truediv _ _ Hd), bind_ret_l, mapM_to_MB, bind_ret_l.
    cbn [app]. rewrite <- !list_fmap_compose. reflexivity.
  - rewrite !bind_ret_l.
    rewrite (items_loop_present row ds items [] Hitems), bind_ret_l.
    rewrite (mapM_truediv _ _ Hd), bind_ret_l, mapM_to_MB, bind_ret_l.
    cbn [app]. rewrite <- !list_fmap_compose. symmetry.
    apply (bind_ret_l ()).
Qed.

(** The loop over datasets that all have the baseline and every item: one
    row per dataset, and one warning per zero baseline. *)
Lemma relabel_loop_complete (data : table) (items datasets : list string)
    (b : string) (nv am : list (list float)) :
  (∀ ds, ds ∈ datasets → ∃ row v,
     data !! ds = Some row ∧ row !! b = Some v ∧
     ∀ item, item ∈ items → is_Some (row !! item)) →
  ∃ nv' am',
    datasets_order_loop data items b datasets nv am =
    Run (zero_baseline_warnings data b datasets)
        (Return (nv ++ nv', am ++ am')) ∧
    Forall2 (λ ds rn, ∃ row v,
       data !! ds = Some row ∧ row !! b = Some v ∧
       rn = (λ item, fdiv (default zero (row !! item)) (divisor v)) <$> items)
      datasets nv' ∧
    Forall2 (λ ds ra, ∃ row,
       data !! ds = Some row ∧
       ra = (λ item, fdiv (default zero (row !! item)) mebi) <$> items)
      datasets am'.
Proof.
  revert nv am. induction datasets as [|ds datasets IH]; intros nv am H.
  - exists [], []. rewrite !app_nil_r. by repeat split; constructor.
  - destruct (H ds) as (row&v&HT&Hrow&Hitems); [by left|].
    set (rn := (λ item, fdiv (default zero (row !! item)) (divisor v))
                 <$> items).
    set (ra := (λ item, fdiv (default zero (row !! item)) mebi) <$> items).
    destruct (IH (nv ++ [rn]) (am ++ [ra])) as (nv'&am'&Heq&Hn&Ha).
    { intros ds' Hds'. apply H. by right. }
    exists (rn :: nv'), (ra :: am'). split_and!.
    + rewrite (relabel_loop_step _ _ _ _ _ row v _ _ HT Hrow Hitems).
      fold rn ra. rewrite Heq, bind_Return. cbn [printed result].
      unfold zero_baseline_warnings. cbn [omap list_omap].
      rewrite HT. cbn [mbind option_bind]. rewrite Hrow. cbn [option_bind].
      rewrite <- !app_assoc. cbn [app].
      change (Some v ≫= ?f) with (f v). cbv beta.
      by destruct (eqb v zero).
    + constructor; [|done]. by exists row, v.
    + constructor; [|done]. by exists row.
Qed.

End RelabelFacts.

(** ** The two normalisations *)

Module NormalizerFacts.
Import PyFloat Py Config PyFacts Examples.

Import AdjSpace.

Lemma filtered_lookup (T : table) (incl : bool) (ds : string) (row : series) :
  T !! ds = Some row → filtered T incl !! ds = Some (filtered_row row incl).
Proof.
  intros H. destruct incl; [done|]. cbn. by rewrite lookup_fmap, H.
Qed.

Lemma filtered_row_lookup (row : series) (incl : bool) (fmt : string) :
  fmt ∈ current_formats incl → filtered_row row incl !! fmt = row !! fmt.
Proof.
  destruct incl; [done|]. intros Hin. apply lookup_delete_ne.
  intros <-. revert Hin. by apply (bool_decide_unpack _).
Qed.

Lemma filtered_lookup_inv (T : table) (incl : bool) (ds : string)
    (row' : series) :
  filtered T incl !! ds = Some row' →
  ∃ row, T !! ds = Some row ∧ row' = filtered_row row incl.
Proof.
  destruct incl; cbn; [by eauto|].
  rewrite lookup_fmap. destruct (T !! ds) as [row|]; [|done].
  intros [= <-]. by exists row.
Qed.

Lemma baseline_in_formats (incl : bool) :
  current_formats incl !! 0%nat = Some CSR_BASELINE_KEY.
Proof. by destruct incl. Qed.

Lemma plot_adj_unfold (T : table) (datasets : list string) (incl : bool) :
  plot_normalized_with_annotation T datasets incl =
  collect (filtered T incl) datasets incl.
Proof. reflexivity. Qed.

(** The run of [adj_space_plot.py] on datasets that all have a non-zero
    baseline. *)
Lemma adj_all_present (T : table) (datasets : list string) (incl : bool) :
  datasets ≠ [] →
  (∀ ds, ds ∈ datasets → ∃ row csr,
     T !! ds = Some row ∧ row !! CSR_BASELINE_KEY = Some csr ∧
     eqb csr zero = false) →
  ∃ ns am,
    plot_normalized_with_annotation T datasets incl =
    Run [] (Return (Some (ns, am))) ∧
    Forall2 (λ ds rn, ∃ row csr,
       T !! ds = Some row ∧ row !! CSR_BASELINE_KEY = Some csr ∧
       rn = normalized_row (filtered_row row incl) csr
              (current_formats incl)) datasets ns ∧
    Forall2 (λ ds ra, ∃ row,
       T !! ds = Some row ∧
       ra = absolute_row (filtered_row row incl)
              (current_formats incl)) datasets am.
Proof.
  intros Hne H.
  destruct (AdjSpaceFacts.datasets_loop_all_present (filtered T incl)
              (current_formats incl) datasets [] [])
    as (ns&am&Heq&Hn&Ha).
  { intros ds Hds. destruct (H ds Hds) as (row&csr&HT&Hrow&Hz).
    exists (filtered_row row incl), csr.
    split_and!; [by apply filtered_lookup| |done].
    rewrite filtered_row_lookup; [done|].
    eapply list_elem_of_lookup_2, baseline_in_formats. }
  exists ns, am. split_and!.
  - rewrite plot_adj_unfold. unfold collect.
    rewrite Heq, bind_ret_l. cbn [app].
    destruct ns; [|reflexivity]. by apply Forall2_nil_inv_r in Hn.
  - eapply Forall2_impl; [exact Hn|]. cbn.
    intros ds rn (row'&csr&HT'&Hrow'&->).
    apply filtered_lookup_inv in HT' as (row&HT&->).
    exists row, csr. split_and!; [done| |done].
    rewrite <- Hrow'. symmetry. apply filtered_row_lookup.
    eapply list_elem_of_lookup_2, baseline_in_formats.
  - eapply Forall2_impl; [exact Ha|]. cbn.
    intros ds ra (row'&HT'&->).
    apply filtered_lookup_inv in HT' as (row&HT&->). by exists row.
Qed.

Lemma normalized_row_lookup (row : series) (incl : bool) (csr : float)
    (j : nat) (fmt : string) :
  current_formats incl !! j = Some fmt →
  normalized_row (filtered_row row incl) csr
    (current_formats incl) !! j =
  Some (match row !! fmt with Some size => fdiv size csr | None => zero end).
Proof.
  intros Hj. unfold normalized_row.
  rewrite list_lookup_fmap, Hj. cbn.
  rewrite filtered_row_lookup; [done|]. by eapply list_elem_of_lookup_2.
Qed.

Lemma absolute_row_lookup (row : series) (incl : bool) (j : nat)
    (fmt : string) :
  current_formats incl !! j = Some fmt →
  absolute_row (filtered_row row incl)
    (current_formats incl) !! j =
  Some (match row !! fmt with Some size => fdiv size mebi | None => zero end).
Proof.
  intros Hj. unfold absolute_row.
  rewrite list_lookup_fmap, Hj. cbn.
  rewrite filtered_row_lookup; [done|]. by eapply list_elem_of_lookup_2.
Qed.

Lemma baseline_of_filtered (T : table) (incl : bool) (ds : string) :
  baseline_of (filtered T incl) ds = baseline_of T ds.
Proof.
  unfold baseline_of. destruct (T !! ds) as [row|] eqn:HT.
  - rewrite (filtered_lookup _ _ _ _ HT). cbn.
    apply filtered_row_lookup.
    eapply list_elem_of_lookup_2, baseline_in_formats.
  - destruct incl; cbn; [by rewrite HT|]. by rewrite lookup_fmap, HT.
Qed.

Lemma kept_filtered (T : table) (incl : bool) (datasets : list string) :
  kept (filtered T incl) datasets = kept T datasets.
Proof.
  induction datasets as [|ds datasets IH]; [done|].
  by rewrite !AdjSpaceFacts.kept_cons, baseline_of_filtered, IH.
Qed.

Lemma skipped_filtered (T : table) (incl : bool) (datasets : list string) :
  skipped (filtered T incl) datasets = skipped T datasets.
Proof.
  induction datasets as [|ds datasets IH]; [done|].
  by rewrite !AdjSpaceFacts.skipped_cons, baseline_of_filtered, IH.
Qed.

(** C7, as the code has it: where every listed dataset is in the table and
    no listed baseline is zero, the loop over the datasets of
    [plot_normalized_with_annotation] in [adj_space_plot.py] ends without
    an error and prints one warning for each dataset without baseline and
    nothing else, so nothing for an absent series; for every dataset with
    a baseline it builds a row with one entry for each requested series:
    the ratio and the size in MB of a series that is present, and zero for
    both when it is absent. *)
Theorem missing_series_zero_filled (T : table) (datasets : list string)
    (incl : bool) :
  (∀ ds, ds ∈ datasets → ∃ row,
     T !! ds = Some row ∧
     ∀ csr, row !! CSR_BASELINE_KEY = Some csr → eqb csr zero = false) →
  ∃ ns am,
    datasets_loop (filtered T incl) (current_formats incl) datasets [] [] =
    Run (missing_baseline_warning <$> skipped T datasets)
        (Return (ns, am)) ∧
    length ns = length (kept T datasets) ∧
    length am = length (kept T datasets) ∧
    ∀ i ds row csr,
      kept T datasets !! i = Some ds → T !! ds = Some row →
      row !! CSR_BASELINE_KEY = Some csr →
      ∃ rn ra,
        ns !! i = Some rn ∧ am !! i = Some ra ∧
        length rn = length (current_formats incl) ∧
        length ra = length (current_formats incl) ∧
        ∀ j fmt, current_formats incl !! j = Some fmt →
          match row !! fmt with
          | None => rn !! j = Some zero ∧ ra !! j = Some zero
          | Some size =>
              rn !! j = Some (fdiv size csr) ∧ ra !! j = Some (fdiv size mebi)
          end.
Proof.
  intros H.
  destruct (AdjSpaceFacts.datasets_loop_total (filtered T incl)
              (current_formats incl) datasets [] [])
    as (ns&am&Heq&Hn&Ha).
  { intros ds Hds. destruct (H ds Hds) as (row&HT&Hz).
    exists (filtered_row row incl). split; [by apply filtered_lookup|].
    intros csr Hcsr. apply Hz. rewrite <- Hcsr. symmetry.
    apply filtered_row_lookup.
    eapply list_elem_of_lookup_2, baseline_in_formats. }
  rewrite kept_filtered in Hn, Ha. rewrite skipped_filtered in Heq.
  exists ns, am. split_and!.
  - exact Heq.
  - symmetry. by eapply Forall2_length.
  - symmetry. by eapply Forall2_length.
  - intros i ds row csr Hi HT Hrow.
    destruct (Forall2_lookup_l _ _ _ _ _ Hn Hi)
      as (rn&Hrn&row1&csr1&HT1&Hr1&->).
    destruct (Forall2_lookup_l _ _ _ _ _ Ha Hi) as (ra&Hra&row2&HT2&->).
    rewrite (filtered_lookup _ _ _ _ HT) in HT1, HT2. simplify_eq.
    rewrite filtered_row_lookup in Hr1
      by (eapply list_elem_of_lookup_2, baseline_in_formats).
    simplify_eq. eexists _, _. split_and!; [done..| | |].
    + unfold normalized_row. by rewrite length_fmap.
    + unfold absolute_row. by rewrite length_fmap.
    + intros j fmt Hj.
      rewrite (normalized_row_lookup _ _ _ _ _ Hj).
      rewrite (absolute_row_lookup _ _ _ _ Hj).
      by destruct (row !! fmt).
Qed.

Lemma missing_series_zero_filled_witness :
  (∀ ds, ds ∈ ["bare"; "good"] → ∃ row,
     missing_baseline_table !! ds = Some row ∧
     ∀ csr, row !! CSR_BASELINE_KEY = Some csr → eqb csr zero = false) ∧
  ∃ ns am,
    datasets_loop (filtered missing_baseline_table true)
      (current_formats true) ["bare"; "good"] [] [] =
    Run (missing_baseline_warning
           <$> skipped missing_baseline_table ["bare"; "good"])
        (Return (ns, am)) ∧
    length ns = length (kept missing_baseline_table ["bare"; "good"]) ∧
    length am = length (kept missing_baseline_table ["bare"; "good"]) ∧
    ∀ i ds row csr,
      kept missing_baseline_table ["bare"; "good"] !! i = Some ds →
      missing_baseline_table !! ds = Some row →
      row !! CSR_BASELINE_KEY = Some csr →
      ∃ rn ra,
        ns !! i = Some rn ∧ am !! i = Some ra ∧
        length rn = length (current_formats true) ∧
        length ra = length (current_formats true) ∧
        ∀ j fmt, current_formats true !! j = Some fmt →
          match row !! fmt with
          | None => rn !! j = Some zero ∧ ra !! j = Some zero
          | Some size =>
              rn !! j = Some (fdiv size csr) ∧ ra !! j = Some (fdiv size mebi)
          end.
Proof.
  assert (∀ ds, ds ∈ ["bare"; "good"] → ∃ row,
     missing_baseline_table !! ds = Some row ∧
     ∀ csr, row !! CSR_BASELINE_KEY = Some csr → eqb csr zero = false) as H1.
  { intros ds [->|[->|[]%elem_of_nil]%elem_of_cons]%elem_of_cons.
    - eexists. split; [reflexivity|]. intros csr. vm_compute. discriminate.
    - eexists. split; [reflexivity|]. intros csr. vm_compute.
      by intros [= <-]. }
  split; [exact H1|].
  exact (missing_series_zero_filled missing_baseline_table ["bare"; "good"]
           true H1).
Defined.

(** The example of the specification: the ratio of the baseline is [1.0]
    and gets no label; the ratio of [Our] is about [0.6828] and is labelled
    [0.7x]; the two absent series are zero. *)
Lemma amazon_example :
  plot_normalized_with_annotation amazon_table ["amazon"] true =
  Run [] (Return (Some
    ([[one; zero; zero; fdiv (of_int 14362964) (of_int 21035422)]],
     [[fdiv (of_int 21035422) mebi; zero; zero;
       fdiv (of_int 14362964) mebi]]))) ∧
  format_annotation_with_ratio (fdiv (of_int 21035422) mebi) one "MB" true
    = "" ∧
  format_annotation_with_ratio (fdiv (of_int 14362964) mebi)
    (fdiv (of_int 14362964) (of_int 21035422)) "MB" true = "0.7x".
Proof. repeat split; vm_compute; reflexivity. Qed.

(** X10: when no listed dataset has a baseline (also when no dataset is
    listed), [plot_normalized_with_annotation] of [adj_space_plot.py]
    prints one warning for each listed dataset, then the line
    [No data to plot.], and returns before anything is drawn. *)
Lemma adj_no_data (T : table) (datasets : list string) (incl : bool) :
  (∀ ds, ds ∈ datasets → is_Some (T !! ds)) →
  kept T datasets = [] →
  plot_normalized_with_annotation T datasets incl =
  Run ((missing_baseline_warning <$> skipped T datasets)
         ++ ["No data to plot."]) (Return None).
Proof.
  intros H Hk.
  destruct (AdjSpaceFacts.datasets_loop_total (filtered T incl)
              (current_formats incl) datasets [] [])
    as (ns&am&Heq&Hn&Ha).
  { intros ds Hds. destruct (H ds Hds) as [row HT].
    exists (filtered_row row incl). split; [by apply filtered_lookup|].
    intros csr Hcsr. exfalso.
    assert (ds ∈ kept T datasets) as Hin;
      [|by rewrite Hk in Hin; apply elem_of_nil in Hin].
    apply list_elem_of_filter. split; [|done].
    rewrite <- (baseline_of_filtered T incl).
    rewrite (AdjSpaceFacts.baseline_of_lookup _ _ _
               (filtered_lookup _ incl _ _ HT)), Hcsr.
    by eexists. }
  rewrite kept_filtered, Hk in Hn. apply Forall2_nil_inv_l in Hn as ->.
  rewrite skipped_filtered in Heq.
  rewrite plot_adj_unfold. unfold collect. by rewrite Heq, bind_Return.
Qed.

(** C7 as stated fails twice.  A requested series that is absent leaves
    no line among those that the loop prints.  And where the baseline of
    the dataset is zero nothing is recorded for the absent series: the
    loop ends with [ZeroDivisionError]. *)
Lemma missing_series_prints_nothing :
  ¬ (∀ (T : table) (datasets : list string) (incl : bool) ds row fmt,
       ds ∈ datasets → T !! ds = Some row →
       fmt ∈ current_formats incl → row !! fmt = None →
       printed (datasets_loop (filtered T incl) (current_formats incl)
                  datasets [] []) ≠ []) ∧
  ¬ (∀ (T : table) (datasets : list string) (incl : bool) ds row fmt,
       ds ∈ datasets → T !! ds = Some row →
       is_Some (row !! CSR_BASELINE_KEY) →
       fmt ∈ current_formats incl → row !! fmt = None →
       ∃ arrays,
         result (datasets_loop (filtered T incl) (current_formats incl)
                   datasets [] []) = Return arrays).
Proof.
  split.
  - intros H.
    apply (H amazon_table ["amazon"] true "amazon"
             {[ "CSR" := of_int 21035422; "Our" := of_int 14362964 ]}
             LOGGRAPH_KEY).
    + by left.
    + reflexivity.
    + by apply (bool_decide_unpack _).
    + reflexivity.
    + reflexivity.
  - intros H.
    destruct (H zero_baseline_table ["bad"; "good"] true "bad"
                {[ "CSR" := of_int 0; "LogGraph" := of_int 5 ]}
                CGRAPHINDEX_KEY) as [arrays Hres].
    + by left.
    + reflexivity.
    + by eexists.
    + by apply (bool_decide_unpack _).
    + reflexivity.
    + vm_compute in Hres. discriminate.
Qed.

Lemma zero_baseline_warnings_nonzero (data : table) (b : string)
    (datasets : list string) :
  (∀ ds, ds ∈ datasets → ∃ row v,
     data !! ds = Some row ∧ row !! b = Some v ∧ eqb v zero = false) →
  Relabel.zero_baseline_warnings data b datasets = [].
Proof.
  induction datasets as [|ds datasets IH]; intros H; [done|].
  destruct (H ds) as (row&v&HT&Hrow&Hz); [by left|].
  unfold Relabel.zero_baseline_warnings in *. cbn [omap list_omap].
  rewrite HT. change (Some row ≫= ?f) with (f row). cbv beta.
  rewrite Hrow. change (Some v ≫= ?f) with (f v). cbv beta. rewrite Hz.
  apply IH. intros ds' Hds'. apply H. by right.
Qed.

(** C4: where every listed dataset holds the baseline key with a finite
    non-zero value, both normalisations return, and the entry of the
    baseline series in every row of ratios is exactly [1.0]: in
    [adj_space_plot.py] for the key [CSR], in [relabelling.py] (where every
    dataset must hold every item) for the key that is passed. *)
Theorem baseline_self_ratio :
  (∀ (T : table) (datasets : list string) (incl : bool),
     datasets ≠ [] →
     (∀ ds, ds ∈ datasets → ∃ row csr,
        T !! ds = Some row ∧ row !! CSR_BASELINE_KEY = Some csr ∧
        is_finite csr = true ∧ eqb csr zero = false) →
     ∃ ns am,
       plot_normalized_with_annotation T datasets incl =
       Run [] (Return (Some (ns, am))) ∧
       length ns = length datasets ∧
       ∀ i rn j, ns !! i = Some rn →
                 current_formats incl !! j = Some CSR_BASELINE_KEY →
                 rn !! j = Some one) ∧
  (∀ (data : table) (datasets items : list string) (b : string),
     items ≠ [] →
     (∀ ds, ds ∈ datasets → ∃ row v,
        data !! ds = Some row ∧ row !! b = Some v ∧
        is_finite v = true ∧ eqb v zero = false ∧
        ∀ item, item ∈ items → is_Some (row !! item)) →
     ∃ nv am,
       Relabel.plot_data_normalized_with_annotation data datasets items b =
       Run [] (Return (Some (nv, am))) ∧
       length nv = length datasets ∧
       ∀ i rn j, nv !! i = Some rn → items !! j = Some b →
                 rn !! j = Some one).
Proof.
  split.
  - intros T datasets incl Hne H.
    destruct (adj_all_present T datasets incl Hne) as (ns&am&Heq&Hn&_).
    { intros ds Hds. destruct (H ds Hds) as (row&csr&?&?&?&?). eauto. }
    exists ns, am. split_and!; [done|by erewrite <- Forall2_length|].
    intros i rn j Hi Hj.
    destruct (Forall2_lookup_r _ _ _ _ _ Hn Hi) as (ds&Hds&row&csr&HT&Hrow&->).
    rewrite (normalized_row_lookup _ _ _ _ _ Hj), Hrow.
    destruct (H ds) as (row'&csr'&?&?&Hfin&Hz);
      [by eapply list_elem_of_lookup_2|].
    simplify_eq. by rewrite fdiv_self_one.
  - intros data datasets items b Hne H.
    destruct (RelabelFacts.relabel_loop_complete data items datasets b [] [])
      as (nv&am&Heq&Hn&_).
    { intros ds Hds. destruct (H ds Hds) as (row&v&?&?&?&?&?). eauto. }
    exists nv, am. split_and!; [|by erewrite <- Forall2_length|].
    + unfold Relabel.plot_data_normalized_with_annotation.
      rewrite Heq, zero_baseline_warnings_nonzero.
      * rewrite bind_Return. by destruct items.
      * intros ds Hds. destruct (H ds Hds) as (row&v&?&?&?&?&?). eauto.
    + intros i rn j Hi Hj.
      destruct (Forall2_lookup_r _ _ _ _ _ Hn Hi)
        as (ds&Hds&row&v&HT&Hrow&->).
      rewrite list_lookup_fmap, Hj. cbn. rewrite Hrow. cbn.
      destruct (H ds) as (row'&v'&?&?&Hfin&Hz&_);
        [by eapply list_elem_of_lookup_2|].
      simplify_eq. unfold Relabel.divisor. rewrite Hz.
      by rewrite fdiv_self_one.
Qed.

Lemma baseline_self_ratio_witness :
  (Data.datasets ≠ [] ∧
   (∀ ds, ds ∈ Data.datasets → ∃ row csr,
      Data.SPACE_DATA !! ds = Some row ∧
      row !! CSR_BASELINE_KEY = Some csr ∧
      is_finite csr = true ∧ eqb csr zero = false) ∧
   ∃ ns am,
     plot_normalized_with_annotation Data.SPACE_DATA Data.datasets true =
     Run [] (Return (Some (ns, am))) ∧
     length ns = length Data.datasets ∧
     ∀ i rn j, ns !! i = Some rn →
               current_formats true !! j = Some CSR_BASELINE_KEY →
               rn !! j = Some one) ∧
  (Data.techniques_for_plot_final ≠ [] ∧
   (∀ ds, ds ∈ Data.datasets → ∃ row v,
      Data.RELABEL_DATA !! ds = Some row ∧
      row !! Data.BASELINE_TECHNIQUE_NAME = Some v ∧
      is_finite v = true ∧ eqb v zero = false ∧
      ∀ item, item ∈ Data.techniques_for_plot_final →
              is_Some (row !! item)) ∧
   ∃ nv am,
     Relabel.plot_data_normalized_with_annotation Data.RELABEL_DATA
       Data.datasets Data.techniques_for_plot_final
       Data.BASELINE_TECHNIQUE_NAME =
     Run [] (Return (Some (nv, am))) ∧
     length nv = length Data.datasets ∧
     ∀ i rn j, nv !! i = Some rn →
               Data.techniques_for_plot_final !! j =
                 Some Data.BASELINE_TECHNIQUE_NAME →
               rn !! j = Some one).
Proof.
  assert (Data.datasets ≠ []) as H1 by discriminate.
  assert (∀ ds, ds ∈ Data.datasets → ∃ row csr,
      Data.SPACE_DATA !! ds = Some row ∧
      row !! CSR_BASELINE_KEY = Some csr ∧
      is_finite csr = true ∧ eqb csr zero = false) as H2.
  { intros ds Hds. unfold Data.datasets in Hds.
    repeat (apply elem_of_cons in Hds as [->|Hds];
            [eexists _, _; split_and!; reflexivity|]).
    by apply elem_of_nil in Hds. }
  assert (Data.techniques_for_plot_final ≠ []) as H3 by discriminate.
  assert (∀ ds, ds ∈ Data.datasets → ∃ row v,
      Data.RELABEL_DATA !! ds = Some row ∧
      row !! Data.BASELINE_TECHNIQUE_NAME = Some v ∧
      is_finite v = true ∧ eqb v zero = false ∧
      ∀ item, item ∈ Data.techniques_for_plot_final →
              is_Some (row !! item)) as H4.
  { intros ds Hds. unfold Data.datasets in Hds.
    repeat (apply elem_of_cons in Hds as [->|Hds];
            [eexists _, _; split_and!; [reflexivity..|];
             intros item Hitem; unfold Data.techniques_for_plot_final in Hitem;
             repeat (apply elem_of_cons in Hitem as [->|Hitem];
                     [eexists; reflexivity|]);
             by apply elem_of_nil in Hitem|]).
    by apply elem_of_nil in Hds. }
  split.
  - split; [exact H1|]. split; [exact H2|].
    exact (proj1 baseline_self_ratio Data.SPACE_DATA Data.datasets true
             H1 H2).
  - split; [exact H3|]. split; [exact H4|].
    exact (proj2 baseline_self_ratio Data.RELABEL_DATA Data.datasets
             Data.techniques_for_plot_final Data.BASELINE_TECHNIQUE_NAME
             H3 H4).
Defined.

(** X9: in [adj_space_plot.py] a zero baseline in the first listed
    dataset ends the run with [ZeroDivisionError] at the first format of
    the dataset, on every table, whatever the other datasets hold and with
    or without ['Our']: nothing is printed and no row is returned. *)
Lemma adj_zero_baseline_raises (T : table) (ds : string)
    (rest : list string) (incl : bool) (row : series) (csr : float) :
  T !! ds = Some row → row !! CSR_BASELINE_KEY = Some csr →
  eqb csr zero = true →
  plot_normalized_with_annotation T (ds :: rest) incl =
  raise ZeroDivisionError.
Proof.
  intros HT Hrow Hz. rewrite plot_adj_unfold. unfold collect.
  assert (current_formats incl =
          CSR_BASELINE_KEY :: tail (current_formats incl)) as ->
    by by destruct incl.
  rewrite (AdjSpaceFacts.datasets_loop_zero_baseline _ _ _ _
             (filtered_row row incl) csr); [done| |..|done].
  - by apply filtered_lookup.
  - rewrite filtered_row_lookup; [done|].
    eapply list_elem_of_lookup_2, baseline_in_formats.
Qed.

(** X12: in [relabelling.py] a zero baseline gives a row of NaN, a
    warning, and the run goes on: where every listed dataset has the
    baseline and every item, the function returns one row per dataset, the
    lines it prints are the warnings for the zero baselines, and the row
    of a dataset with a zero baseline holds NaN only. *)
Lemma relabel_zero_baseline_nan (data : table) (datasets items : list string)
    (b : string) :
  items ≠ [] →
  (∀ ds, ds ∈ datasets → ∃ row v,
     data !! ds = Some row ∧ row !! b = Some v ∧
     ∀ item, item ∈ items → is_Some (row !! item)) →
  ∃ nv am,
    Relabel.plot_data_normalized_with_annotation data datasets items b =
    Run (Relabel.zero_baseline_warnings data b datasets)
        (Return (Some (nv, am))) ∧
    length nv = length datasets ∧
    ∀ i ds row v, datasets !! i = Some ds → data !! ds = Some row →
      row !! b = Some v → eqb v zero = true →
      nv !! i = Some (replicate (length items) nan).
Proof.
  intros Hne H.
  destruct (RelabelFacts.relabel_loop_complete data items datasets b [] []
              H) as (nv&am&Heq&Hn&_).
  exists nv, am. split_and!; [|by erewrite <- Forall2_length|].
  - unfold Relabel.plot_data_normalized_with_annotation.
    rewrite Heq, bind_Return. destruct items; [done|].
    cbn. by rewrite app_nil_r.
  - intros i ds row v Hi HT Hrow Hz.
    destruct (Forall2_lookup_l _ _ _ _ _ Hn Hi) as (rn&Hrn&row'&v'&?&?&->).
    simplify_eq. rewrite Hrn. f_equal. unfold Relabel.divisor. rewrite Hz.
    clear. induction items as [|item items IH]; [done|].
    cbn. by rewrite fdiv_nan_r, IH.
Qed.

(** C5 at a table whose first dataset has a zero baseline:
    [adj_space_plot.py] raises [ZeroDivisionError] and builds no row, also
    not for the dataset ["good"]; [relabelling.py], on the same table,
    warns, builds a row of NaN for ["bad"] and the row of ["good"]. *)
Theorem zero_baseline_aborts_adj_space :
  plot_normalized_with_annotation zero_baseline_table ["bad"; "good"] true =
  Run [] (Raise ZeroDivisionError) ∧
  Relabel.plot_data_normalized_with_annotation zero_baseline_table
    ["bad"; "good"] ["CSR"; "LogGraph"] "CSR" =
  Run [Relabel.zero_baseline_warning "CSR" "bad"]
      (Return (Some ([[nan; nan]; [one; of_int 2]],
                     [[fdiv (of_int 0) mebi; fdiv (of_int 5) mebi];
                      [fdiv (of_int 4) mebi; fdiv (of_int 8) mebi]]))).
Proof. split; vm_compute; reflexivity. Qed.

(** C6, as the code has it: when the run reaches a dataset that lacks the
    baseline key, [relabelling.py] raises [ValueError]; the loop over the
    datasets in [adj_space_plot.py] prints a warning and goes on to the
    next dataset with the rows that it had, so that the rows at its end
    are those built when the dataset is not listed, and the printed lines
    are those with the one warning put in. *)
Theorem missing_baseline_policy (T : table) (pre post : list string)
    (ds : string) (row : series) :
  T !! ds = Some row →
  (∀ items b,
     row !! b = None →
     (∀ e, result (Relabel.plot_data_normalized_with_annotation
                     T pre items b) ≠ Raise e) →
     result (Relabel.plot_data_normalized_with_annotation
               T (pre ++ ds :: post) items b) =
     Raise (ValueError (Relabel.baseline_missing_msg b ds))) ∧
  (∀ incl,
     row !! CSR_BASELINE_KEY = None →
     datasets_loop (filtered T incl) (current_formats incl)
       (pre ++ ds :: post) [] [] =
     (arrays ← datasets_loop (filtered T incl) (current_formats incl)
                 pre [] [];
      print (missing_baseline_warning ds);;
      datasets_loop (filtered T incl) (current_formats incl) post
        arrays.1 arrays.2) ∧
     result (datasets_loop (filtered T incl) (current_formats incl)
               (pre ++ ds :: post) [] []) =
     result (datasets_loop (filtered T incl) (current_formats incl)
               (pre ++ post) [] []) ∧
     ((∀ e, result (datasets_loop (filtered T incl) (current_formats incl)
                      pre [] []) ≠ Raise e) →
      ∃ l1 l2,
        printed (datasets_loop (filtered T incl) (current_formats incl)
                   (pre ++ post) [] []) = l1 ++ l2 ∧
        printed (datasets_loop (filtered T incl) (current_formats incl)
                   (pre ++ ds :: post) [] []) =
        l1 ++ missing_baseline_warning ds :: l2)).
Proof.
  intros HT. split.
  - intros items b Hrow Hpre.
    unfold Relabel.plot_data_normalized_with_annotation in *.
    rewrite RelabelFacts.relabel_loop_app.
    destruct (Relabel.datasets_order_loop T items b pre [] [])
      as [l [[nv am]|e]] eqn:E.
    + rewrite bind_Return. cbv beta iota.
      by rewrite (RelabelFacts.relabel_loop_missing_baseline
                    _ _ _ _ _ row _ _ HT Hrow).
    + by destruct (Hpre e).
  - intros incl Hrow.
    pose proof (filtered_lookup T incl ds row HT) as HT'.
    assert (filtered_row row incl !! CSR_BASELINE_KEY = None) as Hrow'.
    { rewrite filtered_row_lookup; [done|].
      eapply list_elem_of_lookup_2, baseline_in_formats. }
    rewrite !AdjSpaceFacts.datasets_loop_app.
    set (c := datasets_loop (filtered T incl) (current_formats incl) pre
                [] []).
    set (k := λ a : list (list float) * list (list float),
           datasets_loop (filtered T incl) (current_formats incl) post
             a.1 a.2).
    assert ((c ≫= λ '(ns, am),
                    datasets_loop (filtered T incl) (current_formats incl)
                      (ds :: post) ns am) =
            (c ≫= λ a, print (missing_baseline_warning ds);; k a)) as ->.
    { apply bind_ext. intros [ns am].
      by rewrite (AdjSpaceFacts.datasets_loop_missing_baseline
                    _ _ _ _ _ _ _ HT' Hrow'). }
    assert ((c ≫= λ '(ns, am),
                    datasets_loop (filtered T incl) (current_formats incl)
                      post ns am) = (c ≫= k)) as ->.
    { apply bind_ext. by intros [ns am]. }
    split; [done|].
    apply (bind_print_between c (missing_baseline_warning ds) k).
Qed.

Lemma missing_baseline_policy_witness :
  missing_baseline_table !! "bare" = Some {[ "LogGraph" := of_int 5 ]} ∧
  (({[ "LogGraph" := of_int 5 ]} : series) !! "CSR" = None ∧
   (∀ e, result (Relabel.plot_data_normalized_with_annotation
                   missing_baseline_table ["good"] ["CSR"; "LogGraph"] "CSR")
         ≠ Raise e) ∧
   result (Relabel.plot_data_normalized_with_annotation
             missing_baseline_table (["good"] ++ "bare" :: ["good"])
             ["CSR"; "LogGraph"] "CSR") =
   Raise (ValueError (Relabel.baseline_missing_msg "CSR" "bare"))) ∧
  (({[ "LogGraph" := of_int 5 ]} : series) !! CSR_BASELINE_KEY = None ∧
   datasets_loop (filtered missing_baseline_table true) (current_formats true)
     (["good"] ++ "bare" :: ["good"]) [] [] =
   (arrays ← datasets_loop (filtered missing_baseline_table true)
               (current_formats true) ["good"] [] [];
    print (missing_baseline_warning "bare");;
    datasets_loop (filtered missing_baseline_table true)
      (current_formats true) ["good"] arrays.1 arrays.2) ∧
   result (datasets_loop (filtered missing_baseline_table true)
             (current_formats true) (["good"] ++ "bare" :: ["good"]) [] []) =
   result (datasets_loop (filtered missing_baseline_table true)
             (current_formats true) (["good"] ++ ["good"]) [] []) ∧
   (∀ e, result (datasets_loop (filtered missing_baseline_table true)
                   (current_formats true) ["good"] [] []) ≠ Raise e) ∧
   ∃ l1 l2,
     printed (datasets_loop (filtered missing_baseline_table true)
                (current_formats true) (["good"] ++ ["good"]) [] [])
       = l1 ++ l2 ∧
     printed (datasets_loop (filtered missing_baseline_table true)
                (current_formats true) (["good"] ++ "bare" :: ["good"])
                [] []) =
     l1 ++ missing_baseline_warning "bare" :: l2).
Proof.
  assert (missing_baseline_table !! "bare" =
          Some {[ "LogGraph" := of_int 5 ]}) as H1 by reflexivity.
  assert (({[ "LogGraph" := of_int 5 ]} : series) !! "CSR" = None) as H2
    by reflexivity.
  assert (∀ e, result (Relabel.plot_data_normalized_with_annotation
                   missing_baseline_table ["good"] ["CSR"; "LogGraph"] "CSR")
         ≠ Raise e) as H3 by (intros e; vm_compute; discriminate).
  assert (∀ e, result (datasets_loop (filtered missing_baseline_table true)
                   (current_formats true) ["good"] [] []) ≠ Raise e) as H4
    by (intros e; vm_compute; discriminate).
  destruct (missing_baseline_policy missing_baseline_table ["good"] ["good"]
              "bare" _ H1) as [Hrelabel Hadj].
  split; [exact H1|]. split.
  - split; [exact H2|]. split; [exact H3|].
    exact (Hrelabel ["CSR"; "LogGraph"] "CSR" H2 H3).
  - split; [exact H2|].
    destruct (Hadj true H2) as (H5&H6&H7).
    split; [exact H5|]. split; [exact H6|]. split; [exact H4|]. exact (H7 H4).
Defined.

(** C6 as stated fails: [adj_space_plot.py] does not fill in zeros for a
    dataset without baseline; it builds no row for it. *)
Lemma missing_baseline_not_zero_filled :
  ¬ (∀ (T : table) (ds : string) (row : series) (incl : bool),
       T !! ds = Some row → row !! CSR_BASELINE_KEY = None →
       ∃ ns am,
         result (plot_normalized_with_annotation T [ds] incl) =
         Return (Some (ns, am)) ∧
         ns = [replicate (length (current_formats incl)) zero]).
Proof.
  intros H.
  destruct (H missing_baseline_table "bare" {[ "LogGraph" := of_int 5 ]} true)
    as (ns&am&Hres&_); [reflexivity..|].
  vm_compute in Hres. discriminate.
Qed.

End NormalizerFacts.

(** ** The store *)

Module StoreFacts.
Import PyFloat Py Config Store PyFacts Examples.

Lemma alloc_fresh (h : heap) (o : pyobj) :
  h !! (alloc h o).1 = None.
Proof. cbn. apply not_elem_of_dom, is_fresh. Qed.

Lemma copy_inv_alloc (h0 h : heap) (memo : gmap loc loc) (l : loc)
    (vals : series) :
  copy_inv h0 h memo → h0 !! l = Some (Series vals) →
  copy_inv h0 (alloc h (Series vals)).2
    (<[l := (alloc h (Series vals)).1]> memo).
Proof.
  intros [Hsub Hmemo] Hl.
  pose proof (alloc_fresh h (Series vals)) as Hfresh.
  cbn in *. set (l' := fresh (dom h)) in *. split.
  - intros l1 o Hl1. rewrite lookup_insert_ne; [by apply Hsub|].
    intros <-. apply Hsub in Hl1. congruence.
  - intros l1 l1' Hl1. apply lookup_insert_Some in Hl1 as [[<- <-]|[Hne Hl1]].
    + split.
      * destruct (h0 !! l') eqn:E; [|done]. apply Hsub in E. congruence.
      * exists vals. by rewrite lookup_insert_eq.
    + destruct (Hmemo _ _ Hl1) as (Hnone&vals1&Hv1&Hv1').
      split; [done|]. exists vals1. split; [done|].
      rewrite lookup_insert_ne; [done|]. intros <-. congruence.
Qed.

Lemma deepcopy_items_spec (h0 : heap) (items : list (string * loc))
    (memo : gmap loc loc) (h : heap) (y : gmap string loc) :
  copy_inv h0 h memo →
  (∀ k l, (k, l) ∈ items → ∃ vals, h0 !! l = Some (Series vals)) →
  ∃ y' h' memo',
    deepcopy_items items memo h y = Some (y', h') ∧
    copy_inv h0 h' memo' ∧ memo ⊆ memo' ∧
    (∀ k l', y' !! k = Some l' →
       (∃ l, (k, l) ∈ items ∧ memo' !! l = Some l') ∨ y !! k = Some l') ∧
    (∀ k, is_Some (y !! k) ∨ k ∈ items.*1 → is_Some (y' !! k)).
Proof.
  revert memo h y. induction items as [|[k0 l0] items IH];
    intros memo h y Hinv Hitems.
  - exists y, h, memo. cbn. split_and!; [done..|eauto|].
    intros k [?|?%elem_of_nil]; done.
  - destruct (Hitems k0 l0) as [vals Hl0]; [by left|].
    cbn [deepcopy_items]. destruct (memo !! l0) as [l0'|] eqn:Hm.
    + destruct (IH memo h (<[k0 := l0']> y))
        as (y'&h'&memo'&Heq&Hinv'&Hsub&Hy&Hd);
        [done|by intros ???; eapply Hitems; right|].
      exists y', h', memo'. split_and!; [done..| |].
      * intros k l' Hk. destruct (Hy k l' Hk) as [(l&Hin&Hl)|Hk'].
        { left. exists l. split; [by right|done]. }
        apply lookup_insert_Some in Hk' as [[<- <-]|[_ Hk']]; [|by right].
        left. exists l0. split; [by left|].
        by eapply lookup_weaken.
      * intros k Hk. apply Hd. rewrite fmap_cons, elem_of_cons in Hk.
        destruct (decide (k = k0)) as [->|Hne].
        { left. rewrite lookup_insert_eq. eauto. }
        rewrite lookup_insert_ne by done. cbn in Hk.
        destruct Hk as [?|[?|?]]; [by left|done|by right].
    + destruct Hinv as [Hsub0 Hmemo0].
      rewrite (Hsub0 _ _ Hl0).
      pose proof (copy_inv_alloc h0 h memo l0 vals (conj Hsub0 Hmemo0) Hl0)
        as Hinv1.
      destruct (alloc h (Series vals)) as [l0' h1] eqn:Halloc.
      cbn [fst snd] in *.
      destruct (IH (<[l0 := l0']> memo) h1 (<[k0 := l0']> y))
        as (y'&h'&memo'&Heq&Hinv'&Hsub&Hy&Hd);
        [done|by intros ???; eapply Hitems; right|].
      exists y', h', memo'. split_and!; [done..| | |].
      * etrans; [|exact Hsub]. by apply insert_subseteq.
      * intros k l' Hk. destruct (Hy k l' Hk) as [(l&Hin&Hl)|Hk'].
        { left. exists l. split; [by right|done]. }
        apply lookup_insert_Some in Hk' as [[<- <-]|[_ Hk']]; [|by right].
        left. exists l0. split; [by left|].
        eapply lookup_weaken; [|exact Hsub]. by rewrite lookup_insert_eq.
      * intros k Hk. apply Hd. rewrite fmap_cons, elem_of_cons in Hk.
        destruct (decide (k = k0)) as [->|Hne].
        { left. rewrite lookup_insert_eq. eauto. }
        rewrite lookup_insert_ne by done. cbn in Hk.
        destruct Hk as [?|[?|?]]; [by left|done|by right].
Qed.

Lemma read_table_Some (h : heap) (r : loc) (T : table) :
  read_table h r = Some T ↔
  ∃ rows, h !! r = Some (Table rows) ∧
          (∀ k l, rows !! k = Some l → is_Some (read_series h l)) ∧
          T = omap (read_series h) rows.
Proof.
  unfold read_table. split.
  - destruct (h !! r) as [[rows|]|]; [|done..].
    case_decide as Hall; [|done]. intros [= <-]. by exists rows.
  - intros (rows&->&Hall&->). by rewrite decide_True.
Qed.

Lemma read_series_Some (h : heap) (l : loc) (vals : series) :
  read_series h l = Some vals ↔ h !! l = Some (Series vals).
Proof.
  unfold read_series. destruct (h !! l) as [[]|]; naive_solver.
Qed.

(** [copy.deepcopy] returns a new table of new series with the values of
    the old ones, and leaves every old object as it was. *)
Lemma deepcopy_spec (h : heap) (r : loc) (T : table) :
  read_table h r = Some T →
  ∃ cp h1 y,
    deepcopy h r = Some (cp, h1) ∧
    (∀ l o, h !! l = Some o → h1 !! l = Some o) ∧
    h !! cp = None ∧ h1 !! cp = Some (Table y) ∧
    (∀ k l', y !! k = Some l' →
       h !! l' = None ∧ is_Some (read_series h1 l')) ∧
    (∀ k, (y !! k ≫= read_series h1) = T !! k).
Proof.
  intros (rows&Hr&Hall&->)%read_table_Some. unfold deepcopy. rewrite Hr.
  destruct (deepcopy_items_spec h (map_to_list rows) ∅ h ∅)
    as (y&h'&memo&Heq&[Hsub Hmemo]&_&Hy&Hd).
  { split; [done|]. intros ?? ?%lookup_empty_Some. done. }
  { intros k l Hkl%elem_of_map_to_list.
    destruct (Hall k l Hkl) as [vals Hvals%read_series_Some]. eauto. }
  rewrite Heq. cbn [mbind option_bind].
  pose proof (alloc_fresh h' (Table y)) as Hfresh. cbn in Hfresh.
  set (cp := fresh (dom h')) in *.
  exists cp, (<[cp := Table y]> h'), y. split_and!; [done| | | | |].
  - intros l o Hl. rewrite lookup_insert_ne; [by apply Hsub|].
    intros <-. apply Hsub in Hl. congruence.
  - destruct (h !! cp) eqn:E; [|done]. apply Hsub in E. congruence.
  - by rewrite lookup_insert_eq.
  - intros k l' Hk. destruct (Hy k l' Hk) as [(l&_&Hl)|?%lookup_empty_Some];
      [|done]. destruct (Hmemo _ _ Hl) as (?&vals&Hv&Hv'). split; [done|].
    exists vals. unfold read_series.
    rewrite lookup_insert_ne, Hv'; [done|]. intros <-. congruence.
  - intros k. rewrite lookup_omap.
    destruct (rows !! k) as [l|] eqn:Hk.
    + destruct (Hd k) as [l' Hl'].
      { right. apply list_elem_of_fmap. exists (k, l). split; [done|].
        by apply elem_of_map_to_list. }
      rewrite Hl'. cbn.
      destruct (Hy k l' Hl')
        as [(l2&Hin%elem_of_map_to_list&Hl2)|?%lookup_empty_Some];
        [|done].
      simplify_eq. destruct (Hmemo _ _ Hl2) as (_&vals&Hv&Hv').
      unfold read_series. rewrite Hv, lookup_insert_ne, Hv'; [done|].
      intros <-. congruence.
    + destruct (y !! k) as [l'|] eqn:Hk'; [|done].
      destruct (Hy k l' Hk')
        as [(l2&Hin%elem_of_map_to_list&Hl2)|?%lookup_empty_Some];
        [|done].
      congruence.
Qed.

Lemma dict_pop_lookup (h : heap) (l0 l : loc) (key : string) :
  dict_pop h l0 key !! l =
  if decide (l = l0) then popped key <$> h !! l else h !! l.
Proof.
  unfold dict_pop. case_decide as Hl.
  - subst. destruct (h !! l0) as [[rows|vals]|] eqn:E; cbn.
    + by rewrite E.
    + by rewrite lookup_insert_eq.
    + by rewrite E.
  - destruct (h !! l0) as [[rows|vals]|]; [done| |done].
    by rewrite lookup_insert_ne.
Qed.

Lemma popped_idemp (key : string) (o : pyobj) :
  popped key (popped key o) = popped key o.
Proof. destruct o; cbn; [done|]. by rewrite delete_delete_eq. Qed.

Lemma foldl_dict_pop_lookup (kvs : list (string * loc)) (h : heap) (l : loc)
    (key : string) :
  foldl (λ h kv, dict_pop h kv.2 key) h kvs !! l =
  if decide (l ∈ kvs.*2) then popped key <$> h !! l else h !! l.
Proof.
  revert h. induction kvs as [|[k0 l0] kvs IH]; intros h; cbn [foldl].
  - rewrite decide_False; [done|]. by intros ?%elem_of_nil.
  - rewrite IH, dict_pop_lookup. rewrite fmap_cons. cbn [snd].
    destruct (decide (l = l0)) as [->|Hne].
    + rewrite (decide_True (P := l0 ∈ l0 :: kvs.*2)) by by left.
      case_decide; [|done].
      destruct (h !! l0) as [o|]; cbn; [|done]. by rewrite popped_idemp.
    + case_decide as Hin.
      * by rewrite decide_True by by right.
      * rewrite decide_False; [done|].
        by intros [?|?]%elem_of_cons.
Qed.

Lemma read_table_frame (h h' : heap) (r : loc) (T : table) :
  (∀ l o, h !! l = Some o → h' !! l = Some o) →
  read_table h r = Some T → read_table h' r = Some T.
Proof.
  intros Hsub (rows&Hr&Hall&->)%read_table_Some. apply read_table_Some.
  exists rows. split_and!; [by apply Hsub| |].
  - intros k l Hk. destruct (Hall k l Hk) as [vals Hv%read_series_Some].
    exists vals. apply read_series_Some. by apply Hsub.
  - apply map_eq. intros k. rewrite !lookup_omap.
    destruct (rows !! k) as [l|] eqn:Hk; [|done]. cbn.
    destruct (Hall k l Hk) as [vals Hv]. rewrite Hv.
    apply read_series_Some in Hv. symmetry. apply read_series_Some.
    by apply Hsub.
Qed.

(** The loop that pops the key of the optional series changes the series
    of the table it is given, and nothing else. *)
Lemma pop_our_data_lookup (h : heap) (cp : loc) (y : gmap string loc)
    (l : loc) :
  h !! cp = Some (Table y) →
  ((∃ k, y !! k = Some l) →
   pop_our_data h cp !! l = popped OUR_DATA_KEY <$> h !! l) ∧
  ((∀ k, y !! k ≠ Some l) → pop_our_data h cp !! l = h !! l).
Proof.
  intros Hcp. unfold pop_our_data. rewrite Hcp, foldl_dict_pop_lookup.
  assert (l ∈ (map_to_list y).*2 ↔ ∃ k, y !! k = Some l) as Hiff.
  { rewrite list_elem_of_fmap. split.
    - intros ([k l']&->&Hin%elem_of_map_to_list). by exists k.
    - intros [k Hk]. exists (k, l). split; [done|].
      by apply elem_of_map_to_list. }
  split; intros H.
  - by rewrite decide_True by by apply Hiff.
  - rewrite decide_False; [done|]. intros [k Hk]%Hiff. by apply (H k).
Qed.

(** C9: [plot_normalized_with_annotation] of [adj_space_plot.py], run on
    a store in which [data_to_plot] is a table of value [T], leaves every
    object of that store as it was, so that [data_to_plot] still is a
    table of value [T], with or without the optional series; what it
    computes is the run of the function on the value [T]. *)
Theorem normalization_leaves_input (h : heap) (data_to_plot : loc)
    (T : table) (datasets_list : list string) (include_our_data : bool) :
  read_table h data_to_plot = Some T →
  ∃ h',
    plot_normalized_with_annotation h data_to_plot datasets_list
      include_our_data =
    Some (h', AdjSpace.plot_normalized_with_annotation T datasets_list
                include_our_data) ∧
    (∀ l o, h !! l = Some o → h' !! l = Some o) ∧
    read_table h' data_to_plot = Some T.
Proof.
  intros HT.
  destruct (deepcopy_spec h data_to_plot T HT)
    as (cp&h1&y&Hdc&Hsub&Hcp0&Hcp&Hy&Hread).
  unfold plot_normalized_with_annotation. rewrite Hdc. cbn [mbind option_bind].
  destruct include_our_data.
  - exists h1.
    assert (read_table h1 cp = Some T) as ->.
    { apply read_table_Some. exists y. split_and!; [done| |].
      - intros k l Hk. by destruct (Hy k l Hk).
      - apply map_eq. intros k. by rewrite lookup_omap, Hread. }
    split_and!; [done|done|by eapply read_table_frame].
  - set (h2 := pop_our_data h1 cp).
    assert (∀ l o, h !! l = Some o → h2 !! l = Some o) as Hsub2.
    { intros l o Hl. unfold h2.
      rewrite (proj2 (pop_our_data_lookup h1 cp y l Hcp)); [by apply Hsub|].
      intros k Hk. destruct (Hy k l Hk). congruence. }
    exists h2.
    assert (read_table h2 cp =
            Some (AdjSpace.filtered T false)) as ->.
    { apply read_table_Some. exists y.
      assert (∀ k l, y !! k = Some l →
                read_series h2 l = delete OUR_DATA_KEY <$> read_series h1 l)
        as Hser.
      { intros k l Hk. unfold read_series, h2.
        rewrite (proj1 (pop_our_data_lookup h1 cp y l Hcp)) by eauto.
        by destruct (h1 !! l) as [[]|]. }
      split_and!.
      - unfold h2. rewrite (proj2 (pop_our_data_lookup h1 cp y cp Hcp));
          [done|].
        intros k Hk. destruct (Hy k cp Hk) as [_ [vals Hv]].
        unfold read_series in Hv. by rewrite Hcp in Hv.
      - intros k l Hk. rewrite (Hser k l Hk).
        destruct (Hy k l Hk) as [_ [vals ->]]. by eexists.
      - apply map_eq. intros k. unfold AdjSpace.filtered.
        rewrite lookup_omap, lookup_fmap, <- Hread.
        destruct (y !! k) as [l|] eqn:Hk; [|done]. cbn.
        symmetry. by apply (Hser k). }
    split_and!; [done|done|by eapply read_table_frame].
Qed.

Lemma normalization_leaves_input_witness :
  read_table shared_store 1%positive =
  Some {[ "a" := {[ "CSR" := of_int 4; "Our" := of_int 2 ]};
          "b" := {[ "CSR" := of_int 4; "Our" := of_int 2 ]} ]} ∧
  ∃ h',
    plot_normalized_with_annotation shared_store 1%positive ["a"; "b"] false =
    Some (h', AdjSpace.plot_normalized_with_annotation
                {[ "a" := {[ "CSR" := of_int 4; "Our" := of_int 2 ]};
                   "b" := {[ "CSR" := of_int 4; "Our" := of_int 2 ]} ]}
                ["a"; "b"] false) ∧
    (∀ l o, shared_store !! l = Some o → h' !! l = Some o) ∧
    read_table h' 1%positive =
    Some {[ "a" := {[ "CSR" := of_int 4; "Our" := of_int 2 ]};
            "b" := {[ "CSR" := of_int 4; "Our" := of_int 2 ]} ]}.
Proof.
  assert (read_table shared_store 1%positive =
    Some {[ "a" := {[ "CSR" := of_int 4; "Our" := of_int 2 ]};
            "b" := {[ "CSR" := of_int 4; "Our" := of_int 2 ]} ]}) as H1
    by (vm_compute; reflexivity).
  split; [exact H1|].
  exact (normalization_leaves_input shared_store 1%positive _ ["a"; "b"]
           false H1).
Defined.

(** Without the copy the same loops would change the caller's table: the
    theorem above is a property of [copy.deepcopy], not of the model of
    the store. *)
Lemma without_copy_input_changes :
  ∃ h' out,
    plot_without_copy shared_store 1%positive ["a"; "b"] false =
    Some (h', out) ∧
    read_table h' 1%positive =
    Some {[ "a" := {[ "CSR" := of_int 4 ]}; "b" := {[ "CSR" := of_int 4 ]} ]}.
Proof. eexists _, _. split; vm_compute; reflexivity. Qed.

End StoreFacts.

(** ** Division *)

Module DivFacts.
Import PyFloat PyFloatFacts Py PyFacts.

Lemma shr_1_nonneg (mrs : shr_record) : 0 ≤ shr_m mrs → 0 ≤ shr_m (shr_1 mrs).
Proof.
  destruct mrs as [[|[p|p|]|p] r s]; cbn; lia.
Qed.

Lemma iter_pos_shr_1_nonneg (p : positive) (mrs : shr_record) :
  0 ≤ shr_m mrs → 0 ≤ shr_m (@SpecFloat.iter_pos _ shr_1 p mrs).
Proof.
  revert mrs. induction p as [p IH|p IH|]; intros mrs H; cbn.
  - by apply IH, IH, shr_1_nonneg.
  - by apply IH, IH.
  - by apply shr_1_nonneg.
Qed.

Lemma shr_fexp_nonneg (m e : Z) (l : location) :
  0 ≤ m → 0 ≤ shr_m (shr_fexp prec emax m e l).1.
Proof.
  intros Hm. unfold shr_fexp, shr.
  assert (0 ≤ shr_m (shr_record_of_loc m l)) as H0
    by (by destruct l as [|[]]).
  destruct (fexp prec emax (Zdigits2 m + e) - e); cbn [fst]; [done| |done].
  by apply iter_pos_shr_1_nonneg.
Qed.

Lemma round_nearest_even_nonneg (m : Z) (l : location) :
  0 ≤ m → 0 ≤ round_nearest_even m l.
Proof.
  intros Hm. destruct l as [|[]]; cbn; [done| |done|lia].
  destruct (Z.even m); lia.
Qed.

Lemma binary_round_aux_not_nan (sx : bool) (mx ex : Z) (lx : location) :
  0 ≤ mx → is_nan (binary_round_aux prec emax sx mx ex lx) = false.
Proof.
  intros Hm. unfold binary_round_aux.
  pose proof (shr_fexp_nonneg mx ex lx Hm) as H1.
  destruct (shr_fexp prec emax mx ex lx) as [mrs' e']. cbn [fst] in H1.
  pose proof (shr_fexp_nonneg
    (round_nearest_even (shr_m mrs') (loc_of_shr_record mrs')) e' loc_Exact
    (round_nearest_even_nonneg _ _ H1)) as H2.
  destruct (shr_fexp prec emax _ e' loc_Exact) as [mrs'' e''].
  cbn [fst] in H2.
  destruct (shr_m mrs'') as [|m|m]; [done| |lia].
  by destruct (e'' <=? emax - prec).
Qed.

(** The quotient of two finite floats is not NaN unless both are zero. *)
Lemma fdiv_finite_not_nan (sx sy : bool) (mx my : positive) (ex ey : Z) :
  is_nan (fdiv (S754_finite sx mx ex) (S754_finite sy my ey)) = false.
Proof.
  unfold fdiv, SFdiv, SFdiv_core_binary.
  set (e' := Z.min _ _). set (m' := match ex - ey - e' with 0 => _ | _ => _ end).
  assert (0 ≤ m') as Hm'.
  { unfold m'. destruct (ex - ey - e'); [done| |done].
    rewrite Z.shiftl_mul_pow2 by done. lia. }
  pose proof (Z_div_mod m' (Z.pos my) ltac:(done)) as Hd.
  change (IntDef.Z.div_eucl m' (Z.pos my)) with (Z.div_eucl m' (Z.pos my)).
  destruct (Z.div_eucl m' (Z.pos my)) as [q r].
  apply binary_round_aux_not_nan. nia.
Qed.

(** [a / b] is not NaN when [a] is not and [b] is finite and not zero. *)
Lemma fdiv_not_nan (a b : float) :
  is_nan a = false → is_finite b = true → eqb b zero = false →
  is_nan (fdiv a b) = false.
Proof.
  intros Ha Hb Hz. destruct (finite_nonzero_inv b Hb Hz) as (s&m&e&->).
  destruct a as [sa|sa| |sa ma ea]; try done.
  apply fdiv_finite_not_nan.
Qed.

End DivFacts.

(** ** More on the Pareto frontier *)

Module ParetoMoreFacts.
Import PyFloat PyFloatFacts Pareto ParetoFacts.

Lemma scan_sublist (l : list point) (min_y : float) :
  scan min_y l `sublist_of` l.
Proof.
  revert min_y. induction l as [|[x y] l IH]; intros m; cbn; [constructor|].
  destruct (ltb y m); [apply sublist_skip|apply sublist_cons]; apply IH.
Qed.

Lemma sublist_strongly_sorted {A} (R : relation A) (l1 l2 : list A) :
  l1 `sublist_of` l2 → StronglySorted R l2 → StronglySorted R l1.
Proof.
  induction 1 as [|x l1 l2 Hsub IH|x l1 l2 Hsub IH]; intros Hs; [done| |].
  - apply StronglySorted_inv in Hs as [Hs Hx]. constructor; [by apply IH|].
    rewrite Forall_forall in Hx |- *. intros y Hy.
    apply Hx. by eapply elem_of_sublist.
  - apply StronglySorted_inv in Hs as [Hs _]. by apply IH.
Qed.

(** A point that sorts behind everything in a list is put at its end. *)
Lemma insert_sorted_last (p : point) (l : list point) :
  Forall (λ q, key_le q p) l → insert_sorted p l = l ++ [p].
Proof.
  induction 1 as [|q l Hq Hl IH]; cbn; [done|].
  unfold key_le in Hq. by rewrite Hq, IH.
Qed.

Lemma foldl_insert_sorted_id (l acc : list point) :
  StronglySorted key_le (acc ++ l) →
  foldl (λ acc p, insert_sorted p acc) acc l = acc ++ l.
Proof.
  revert acc. induction l as [|p l IH]; intros acc Hs; cbn.
  - by rewrite app_nil_r.
  - rewrite insert_sorted_last.
    + rewrite IH; rewrite <- app_assoc; [done|]. apply Hs.
    + rewrite Forall_forall. intros q Hq.
      eapply StronglySorted_app_1_elem_of; [done..|]. by left.
Qed.

(** Sorting a list that is in order returns it. *)
Lemma sorted_id (l : list point) : StronglySorted key_le l → sorted l = l.
Proof. intros Hs. by apply (foldl_insert_sorted_id l []). Qed.

Lemma scan_id (l : list point) (min_y : float) :
  Forall (λ p, ltb p.2 min_y = true) l →
  StronglySorted (λ p q, ltb q.2 p.2 = true) l →
  scan min_y l = l.
Proof.
  intros Hm Hs. revert min_y Hm.
  induction Hs as [|[x y] l Hs IH Hle]; intros m Hm; cbn; [done|].
  apply Forall_cons in Hm as [Hy Hm]. cbn in Hy. rewrite Hy. f_equal.
  by apply IH.
Qed.

Lemma strongly_sorted_impl {A} (R1 R2 : relation A) (l : list A) :
  (∀ x y, R1 x y → R2 x y) → StronglySorted R1 l → StronglySorted R2 l.
Proof.
  intros HR. induction 1 as [|x l Hs IH Hx]; constructor; [done|].
  eapply Forall_impl; [done|]. intros y. apply HR.
Qed.

Lemma pareto_frontier_key_sorted (points : list point) :
  Forall no_nan points → StronglySorted key_le (pareto_frontier points).
Proof.
  intros Hnn. rewrite pareto_frontier_scan.
  eapply sublist_strongly_sorted; [apply scan_sublist|by apply sorted_sorted].
Qed.

(** X1: for every list of points, with or without NaN: whatever
    rearrangement of the input [sorted] hands to the loop (the order of
    keys that hold NaN depends on the sorting algorithm, but what a sort
    returns is a rearrangement of its input), the list that the loop builds
    is a selection from the input: it holds input points only, each at
    most as often as the input does, and so it is never longer than the
    input. *)
Theorem pareto_frontier_selection (points sorted_points : list point) :
  sorted_points ≡ₚ points →
  (foldl scan_step ([], inf) sorted_points).1 ⊆+ points.
Proof.
  intros Hperm. rewrite foldl_scan_step. cbn [app].
  rewrite <- Hperm. apply sublist_submseteq, scan_sublist.
Qed.

(** The points [(3.0, 1.0)], [(2.0, 0.0)], [(nan, 0.0)], [(1.0, 0.0)] in
    the order in which the interpreter sorts them. *)
Lemma pareto_frontier_selection_witness :
  [(one, zero); (of_int 2, zero); (of_int 3, one); (nan, zero)] ≡ₚ
    [(of_int 3, one); (of_int 2, zero); (nan, zero); (one, zero)] ∧
  (foldl scan_step ([], inf)
     [(one, zero); (of_int 2, zero); (of_int 3, one); (nan, zero)]).1
    ⊆+ [(of_int 3, one); (of_int 2, zero); (nan, zero); (one, zero)].
Proof.
  assert ([(one, zero); (of_int 2, zero); (of_int 3, one); (nan, zero)] ≡ₚ
    [(of_int 3, one); (of_int 2, zero); (nan, zero); (one, zero)]) as H1.
  { apply (bool_decide_unpack _). vm_compute. reflexivity. }
  split; [exact H1|].
  exact (pareto_frontier_selection _ _ H1).
Defined.

(** X3: the frontier of a frontier is the frontier itself. *)
Theorem pareto_frontier_idempotent (points : list point) :
  Forall no_nan points →
  pareto_frontier (pareto_frontier points) = pareto_frontier points.
Proof.
  intros Hnn. rewrite (pareto_frontier_scan (pareto_frontier points)).
  rewrite sorted_id by by apply pareto_frontier_key_sorted.
  apply scan_id.
  - rewrite Forall_forall. intros p Hp. rewrite pareto_frontier_scan in Hp.
    by apply scan_subseteq in Hp as [_ ?].
  - rewrite pareto_frontier_scan.
    eapply strongly_sorted_impl;
      [|apply scan_strongly_sorted;
        [by rewrite sorted_perm|by apply sorted_sorted]].
    by intros p q [_ ?].
Qed.

(** The frontier of a rearranged input holds, for every point of the
    frontier, a point equal to it. *)
Lemma frontier_perm_elem (l l' : list point) (p : point) :
  Forall no_nan l → l ≡ₚ l' → p ∈ pareto_frontier l →
  ∃ p', p' ∈ pareto_frontier l' ∧ point_eqb p' p = true.
Proof.
  intros Hnn Hperm Hp.
  apply not_dominated_on_frontier.
  - by rewrite <- Hperm.
  - rewrite pareto_frontier_scan in Hp. by apply scan_subseteq in Hp as [_ ?].
  - rewrite <- Hperm. by apply frontier_subseteq.
  - intros q Hq. apply (frontier_not_dominated l); [done..|].
    by rewrite Hperm.
Qed.

(** Two lists with strictly ascending [x] that hold the same points up to
    [==] are equal up to [==], position by position. *)
Lemma strict_lists_eqb (a b : list point) :
  Forall no_nan a → Forall no_nan b →
  StronglySorted (λ p q, ltb p.1 q.1 = true) a →
  StronglySorted (λ p q, ltb p.1 q.1 = true) b →
  (∀ p, p ∈ a → ∃ p', p' ∈ b ∧ point_eqb p' p = true) →
  (∀ p, p ∈ b → ∃ p', p' ∈ a ∧ point_eqb p' p = true) →
  Forall2 (λ p q, point_eqb p q = true) a b.
Proof.
  intros Ha. revert b.
  induction a as [|p a IH]; intros b Hb Hsa Hsb Hab Hba.
  - destruct b as [|q b]; [constructor|].
    destruct (Hba q) as (?&?%elem_of_nil&_); [by left|done].
  - destruct b as [|q b].
    { destruct (Hab p) as (?&?%elem_of_nil&_); [by left|done]. }
    apply Forall_cons in Ha as [Hp Ha]. apply Forall_cons in Hb as [Hq Hb].
    apply StronglySorted_inv in Hsa as [Hsa Hpa].
    apply StronglySorted_inv in Hsb as [Hsb Hqb].
    rewrite Forall_forall in Ha, Hb, Hpa, Hqb.
    assert (eqb p.1 q.1 = true ∧ eqb p.2 q.2 = true) as [Hx Hy].
    { destruct (Hab p) as (p'&Hp'&Hpp); [by left|].
      destruct (Hba q) as (q'&Hq'&Hqq); [by left|].
      unfold point_eqb in Hpp, Hqq.
      apply andb_true_iff in Hpp as [Hpp1 Hpp2].
      apply andb_true_iff in Hqq as [Hqq1 Hqq2].
      apply elem_of_cons in Hp' as [->|Hp'].
      { by rewrite (eqb_sym p.1), (eqb_sym p.2). }
      apply elem_of_cons in Hq' as [->|Hq']; [done|].
      pose proof (Hqb p' Hp') as H1. pose proof (Hpa q' Hq') as H2.
      destruct (Ha q' Hq') as [? _], (Hb p' Hp') as [? _].
      destruct Hp as [? _], Hq as [? _].
      exfalso. clear -H1 H2 Hpp1 Hqq1 H H0 H3 H4. float_order. }
    constructor; [unfold point_eqb; by rewrite Hx, Hy|].
    apply IH; [by apply Forall_forall..|done|done| |].
    + intros r Hr. destruct (Hab r) as (r'&Hr'&Hrr); [by right|].
      exists r'. split; [|done].
      apply elem_of_cons in Hr' as [->|?]; [|done].
      unfold point_eqb in Hrr. apply andb_true_iff in Hrr as [Hrr _].
      pose proof (Hpa r Hr) as H1.
      destruct (Ha r Hr) as [? _], Hp as [? _], Hq as [? _].
      exfalso. clear -H1 Hrr Hx H H0 H2. float_order.
    + intros r Hr. destruct (Hba r) as (r'&Hr'&Hrr); [by right|].
      exists r'. split; [|done].
      apply elem_of_cons in Hr' as [->|?]; [|done].
      unfold point_eqb in Hrr. apply andb_true_iff in Hrr as [Hrr _].
      pose proof (Hqb r Hr) as H1.
      destruct (Hb r Hr) as [? _], Hp as [? _], Hq as [? _].
      exfalso. clear -H1 Hrr Hx H H0 H2. float_order.
Qed.

Lemma frontier_x_strict (points : list point) :
  Forall no_nan points →
  StronglySorted (λ p q, ltb p.1 q.1 = true ∧ ltb q.2 p.2 = true)
    (pareto_frontier points).
Proof.
  intros Hnn.
  pose proof (pareto_frontier_key_sorted points Hnn) as Hk.
  assert (Forall no_nan (pareto_frontier points)) as Hnn'.
  { rewrite Forall_forall in Hnn |- *. intros p Hp.
    by apply Hnn, frontier_subseteq. }
  rewrite pareto_frontier_scan in *.
  pose proof (scan_strongly_sorted (sorted points) inf) as Hs.
  specialize (Hs ltac:(by rewrite sorted_perm) (sorted_sorted _ Hnn)).
  induction Hs as [|p l Hs IH Hp]; [constructor|].
  apply StronglySorted_inv in Hk as [Hk Hkp].
  apply Forall_cons in Hnn' as [Hnp Hnl].
  constructor; [by apply IH|].
  rewrite Forall_forall in Hp, Hkp, Hnl |- *. intros q Hq.
  destruct (Hp q Hq) as [Hx Hy]. split; [|done].
  pose proof (Hkp q Hq) as Hle. destruct (Hnl q Hq) as [??], Hnp as [??].
  clear -Hx Hy Hle H H0 H1 H2.
  destruct p as [px py], q as [qx qy]. unfold key_le, key_lt in Hle.
  cbn [fst snd] in *. float_order.
Qed.

(** X2: without NaN among the points, the frontier is strictly ascending
    in [x] and strictly descending in [y]: no two of its points share an
    [x] or a [y]. *)
Theorem pareto_frontier_strict (points : list point) :
  Forall no_nan points →
  StronglySorted (λ p q, ltb p.1 q.1 = true ∧ ltb q.2 p.2 = true)
    (pareto_frontier points).
Proof. apply frontier_x_strict. Qed.

(** X4: the frontier does not depend on the order of the input: two
    arrangements of the same points give frontiers of the same length
    whose points are equal under [==], position by position.  (Under [==],
    not as values: of [0.0] and [-0.0] the one that comes first in the
    input is returned.) *)
Theorem pareto_frontier_order_independent (l l' : list point) :
  Forall no_nan l → l ≡ₚ l' →
  Forall2 (λ p q, point_eqb p q = true)
    (pareto_frontier l) (pareto_frontier l').
Proof.
  intros Hnn Hperm.
  assert (Forall no_nan l') as Hnn' by by rewrite <- Hperm.
  apply strict_lists_eqb.
  - rewrite Forall_forall in Hnn |- *. intros p Hp.
    by apply Hnn, frontier_subseteq.
  - rewrite Forall_forall in Hnn' |- *. intros p Hp.
    by apply Hnn', frontier_subseteq.
  - eapply strongly_sorted_impl; [|by apply frontier_x_strict].
    by intros p q [? _].
  - eapply strongly_sorted_impl; [|by apply frontier_x_strict].
    by intros p q [? _].
  - intros p Hp. by apply (frontier_perm_elem l l').
  - intros p Hp. by apply (frontier_perm_elem l' l).
Qed.

End ParetoMoreFacts.

(** ** The figures of [plot_pareto_for_datasets] *)

Module ParetoPlotFacts.
Import PyFloat PyFloatFacts Py PyFacts Config Pareto ParetoFacts ParetoPlot.
Import ParetoMoreFacts DivFacts.

Lemma representations_loop_spec (space_data time_data : table)
    (dataset : string) (reps : list string) (acc : list point) :
  representations_loop space_data time_data dataset reps acc =
  mret (acc ++ omap (point_of space_data time_data dataset) reps).
Proof.
  revert acc. induction reps as [|rep reps IH]; intros acc.
  - cbn. by rewrite app_nil_r.
  - cbn [representations_loop].
    set (f := point_of space_data time_data dataset) in *.
    assert (omap f (rep :: reps) =
            match f rep with Some p => p :: omap f reps | None => omap f reps end)
      as -> by done.
    unfold f at 1, point_of.
    destruct (measured space_data dataset rep) as [space|]; [|apply IH].
    destruct (measured time_data dataset rep) as [time_ns|]; [|apply IH].
    rewrite to_MB_total, bind_ret_l, IH. cbn [mbind option_bind].
    by rewrite <- app_assoc.
Qed.

(** X6: for every pair of tables and every dataset, collecting the points
    of a figure neither raises nor prints: the markers are the points
    [(to_MB(space), time)] of the representations that both tables hold
    for the dataset, in the order of [representations]; a representation
    or a dataset that a table lacks is left out. *)
Theorem plot_pareto_dataset_points (space_data time_data : table)
    (dataset : string) :
  let points := omap (point_of space_data time_data dataset) representations in
  plot_pareto_dataset space_data time_data dataset =
  mret (points, frontier_line points).
Proof.
  intros points. unfold plot_pareto_dataset.
  by rewrite representations_loop_spec, bind_ret_l.
Qed.

(** X5: on points without NaN the black line is the frontier as
    [pareto_frontier] returns it, and it is drawn exactly when the
    frontier has two points or more: [frontier.sort()] changes nothing,
    and the test on the number of points is implied by the test on the
    frontier. *)
Theorem frontier_line_spec (points : list point) :
  Forall no_nan points →
  frontier_line points =
  if decide (2 ≤ length (pareto_frontier points))%nat
  then Some (pareto_frontier points) else None.
Proof.
  intros Hnn. unfold frontier_line.
  pose proof (submseteq_length _ _
    (sublist_submseteq _ _ (scan_sublist (sorted points) inf))) as Hlen.
  rewrite <- pareto_frontier_scan in Hlen.
  rewrite (Permutation_length (sorted_perm points)) in Hlen.
  rewrite sorted_id by by apply pareto_frontier_key_sorted.
  repeat case_decide; try done; lia.
Qed.

Lemma point_of_no_nan (space_data time_data : table) (dataset : string)
    (reps : list string) :
  (∀ rep v, measured space_data dataset rep = Some v → is_nan v = false) →
  (∀ rep v, measured time_data dataset rep = Some v → is_nan v = false) →
  Forall no_nan (omap (point_of space_data time_data dataset) reps).
Proof.
  intros Hs Ht. rewrite Forall_forall. intros p Hp.
  apply list_elem_of_omap in Hp as (rep&_&Hp). unfold point_of in Hp.
  destruct (measured space_data dataset rep) as [s|] eqn:Hms; [|done].
  destruct (measured time_data dataset rep) as [t|] eqn:Hmt; [|done].
  cbn in Hp. simplify_eq. split; cbn.
  - apply fdiv_not_nan; [by eapply Hs|done..].
  - by eapply Ht.
Qed.

(** X7: where no measured value of the dataset is NaN, the black line of
    a figure, when it is drawn, has at least two points; it goes strictly
    to the right and strictly down; and each of its points is the point
    of a representation that both tables hold and that no point of the
    figure dominates. *)
Theorem plot_pareto_dataset_line (space_data time_data : table)
    (dataset : string) (points line : list point) :
  (∀ rep v, measured space_data dataset rep = Some v → is_nan v = false) →
  (∀ rep v, measured time_data dataset rep = Some v → is_nan v = false) →
  result (plot_pareto_dataset space_data time_data dataset) =
    Return (points, Some line) →
  (2 ≤ length line)%nat ∧
  StronglySorted (λ p q, ltb p.1 q.1 = true ∧ ltb q.2 p.2 = true) line ∧
  ∀ p, p ∈ line →
    (∃ rep, rep ∈ representations ∧
            point_of space_data time_data dataset rep = Some p) ∧
    ∀ rep q, point_of space_data time_data dataset rep = Some q →
             rep ∈ representations → dominates q p = false.
Proof.
  intros Hs Ht. unfold plot_pareto_dataset.
  rewrite representations_loop_spec, bind_ret_l. cbn [app result mret run_ret ret].
  pose proof (point_of_no_nan _ _ dataset representations Hs Ht) as Hnn.
  remember (omap (point_of space_data time_data dataset) representations)
    as pts eqn:Hpts.
  intros [= <- Hline]. rewrite frontier_line_spec in Hline by done.
  case_decide as Hlen; [|done]. injection Hline as <-. subst pts.
  split_and!; [done|by apply frontier_x_strict|].
  intros p Hp. split.
  - apply frontier_subseteq, list_elem_of_omap in Hp as (rep&?&?). eauto.
  - intros rep q Hq Hrep. eapply frontier_not_dominated; [done..|].
    apply list_elem_of_omap. eauto.
Qed.

End ParetoPlotFacts.

(** ** [adj_space_plot.py] with and without ['Our'] *)

Module AdjSpaceMoreFacts.
Import PyFloat Py Config AdjSpace PyFacts AdjSpaceFacts AdjSpaceMore.

Lemma normalized_row_delete_our (row : series) (csr : float) :
  normalized_row (delete OUR_DATA_KEY row) csr base_formats =
  normalized_row row csr base_formats.
Proof.
  unfold normalized_row, base_formats. cbn [fmap list_fmap].
  by rewrite !lookup_delete_ne by done.
Qed.

Lemma absolute_row_delete_our (row : series) :
  absolute_row (delete OUR_DATA_KEY row) base_formats =
  absolute_row row base_formats.
Proof.
  unfold absolute_row, base_formats. cbn [fmap list_fmap].
  by rewrite !lookup_delete_ne by done.
Qed.

Lemma normalized_row_take (row : series) (csr : float) :
  take (length base_formats)
    (normalized_row row csr (base_formats ++ [OUR_DATA_KEY])) =
  normalized_row row csr base_formats.
Proof. reflexivity. Qed.

Lemma absolute_row_take (row : series) :
  take (length base_formats)
    (absolute_row row (base_formats ++ [OUR_DATA_KEY])) =
  absolute_row row base_formats.
Proof. reflexivity. Qed.

(** The loop over the datasets without ['Our'] does what the loop with
    ['Our'] does, up to the last entry of every row. *)
Lemma datasets_loop_without_our (T : table) (datasets : list string)
    (ns am : list (list float)) :
  datasets_loop (delete OUR_DATA_KEY <$> T) base_formats datasets
    (take (length base_formats) <$> ns) (take (length base_formats) <$> am) =
  (arrays ← datasets_loop T (base_formats ++ [OUR_DATA_KEY]) datasets ns am;
   mret (without_our arrays)).
Proof.
  revert ns am. induction datasets as [|ds datasets IH]; intros ns am.
  - cbn [datasets_loop]. by rewrite bind_ret_l.
  - cbn [datasets_loop]. unfold getitem. rewrite lookup_fmap.
    destruct (T !! ds) as [row|]; cbn [fmap option_fmap option_map];
      [|done].
    rewrite !bind_ret_l. rewrite lookup_delete_ne by done.
    destruct (row !! CSR_BASELINE_KEY) as [csr|] eqn:Hrow.
    + destruct (eqb csr zero) eqn:Hz.
      * change (formats_loop ?r ?c base_formats ?a ?b) with
          (formats_loop r c
             (CSR_BASELINE_KEY :: [LOGGRAPH_KEY; CGRAPHINDEX_KEY]) a b).
        rewrite (formats_loop_zero _ csr csr CSR_BASELINE_KEY);
          [|done|by rewrite lookup_delete_ne].
        change (base_formats ++ [OUR_DATA_KEY]) with
          (CSR_BASELINE_KEY :: [LOGGRAPH_KEY; CGRAPHINDEX_KEY; OUR_DATA_KEY]).
        by rewrite (formats_loop_zero _ csr csr CSR_BASELINE_KEY).
      * rewrite !formats_loop_nonzero by done. rewrite !bind_ret_l.
        cbn [app]. rewrite normalized_row_delete_our, absolute_row_delete_our.
        rewrite <- (normalized_row_take row csr), <- (absolute_row_take row).
        rewrite <- (IH (ns ++ [_]) (am ++ [_])).
        by rewrite !fmap_app.
    + by rewrite IH, bind_assoc.
Qed.

Lemma hand_over_without_our (arrays : list (list float) * list (list float)) :
  hand_over (without_our arrays) =
  (r ← hand_over arrays; mret (fmap (M:=option) without_our r)).
Proof.
  destruct arrays as [[|rn ns] am]; [done|].
  unfold without_our. cbn [fst snd fmap list_fmap hand_over].
  by rewrite bind_ret_l.
Qed.

(** X8: on every table and every list of datasets, the run without
    ['Our'] prints the same lines and ends in the same way as the run with
    it (the same exception, the same early return), and the arrays it
    returns are those of the run with ['Our'] without the last entry of
    every row. *)
Theorem include_our_data_only_adds_column (data_to_plot : table)
    (datasets_list : list string) :
  plot_normalized_with_annotation data_to_plot datasets_list false =
  (r ← plot_normalized_with_annotation data_to_plot datasets_list true;
   mret (fmap (M:=option) without_our r)).
Proof.
  unfold plot_normalized_with_annotation, collect, filtered, current_formats.
  pose proof (datasets_loop_without_our data_to_plot datasets_list [] [])
    as Hloop.
  cbn [fmap list_fmap] in Hloop. rewrite Hloop.
  rewrite !bind_assoc. apply bind_ext. intros arrays.
  rewrite bind_ret_l. apply hand_over_without_our.
Qed.

End AdjSpaceMoreFacts.

(** ** The techniques of [relabelling.py] *)

Module RelabelConfigFacts.
Import Py RelabelConfig.

(** X11: for every master list, colour table, baseline and choice of the
    user, when the baseline is in the master list and has a colour the
    module computes a list of techniques that keeps the order of the
    master list, holds the baseline (chosen or not, so it is never
    empty), and holds besides it exactly the chosen techniques that the
    master list knows, or all of the master list when the choice is
    [None]; chosen names that the master list does not know are dropped
    without a word. *)
Theorem techniques_for_plot_spec (master : list string) (colors : gset string)
    (baseline : string) (chosen : option (list string)) :
  baseline ∈ master → baseline ∈ colors →
  ∃ final,
    techniques_for_plot master colors baseline chosen = mret final ∧
    final `sublist_of` master ∧
    baseline ∈ final ∧
    ∀ tech, tech ∈ final ↔
      tech ∈ master ∧
      (tech = baseline ∨ match chosen with
                         | None => True
                         | Some chosen => tech ∈ chosen
                         end).
Proof.
  intros Hm Hc. unfold techniques_for_plot.
  rewrite decide_False by (by intros []).
  rewrite decide_False by (by intros []).
  destruct chosen as [chosen|].
  - eexists. split; [done|].
    assert (∀ tech,
      tech ∈ filter (λ tech, tech ∈ (list_to_set
                (filter (λ tech, tech ∈ master) chosen) : gset string)
                ∪ {[ baseline ]}) master ↔
      tech ∈ master ∧ (tech = baseline ∨ tech ∈ chosen)) as Hspec.
    { intros tech.
      rewrite list_elem_of_filter, elem_of_union, elem_of_list_to_set,
        list_elem_of_filter, elem_of_singleton. tauto. }
    split_and!; [apply sublist_filter| |done].
    apply Hspec. auto.
  - exists master. split_and!; [done..|]. intros tech. tauto.
Qed.

End RelabelConfigFacts.

(** ** Sorted keys *)

Module PyStrFacts.
Import PyStr.

Lemma ascii_compare_refl (a : Ascii.ascii) : Ascii.compare a a = Eq.
Proof. unfold Ascii.compare. apply N.compare_refl. Qed.

Lemma ascii_compare_trans (c : comparison) (a b d : Ascii.ascii) :
  Ascii.compare a b = c → Ascii.compare b d = c → Ascii.compare a d = c.
Proof.
  unfold Ascii.compare.
  destruct c; rewrite ?N.compare_eq_iff, ?N.compare_lt_iff, ?N.compare_gt_iff;
    lia.
Qed.

Lemma string_compare_refl (s : string) : String.compare s s = Eq.
Proof.
  induction s as [|a s IH]; [done|].
  cbn. by rewrite ascii_compare_refl.
Qed.

Lemma string_compare_lt_trans (s1 s2 s3 : string) :
  String.compare s1 s2 = Lt → String.compare s2 s3 = Lt →
  String.compare s1 s3 = Lt.
Proof.
  revert s2 s3. induction s1 as [|a1 s1 IH]; intros [|a2 s2] [|a3 s3];
    cbn; try done.
  destruct (Ascii.compare a1 a2) eqn:H12; try done;
    destruct (Ascii.compare a2 a3) eqn:H23; try done.
  - apply Ascii.compare_eq_iff in H12, H23. subst.
    rewrite ascii_compare_refl. apply IH.
  - apply Ascii.compare_eq_iff in H12. subst. by rewrite H23.
  - apply Ascii.compare_eq_iff in H23. subst. by rewrite H12.
  - by rewrite (ascii_compare_trans Lt a1 a2 a3).
Qed.

#[global] Instance str_le_total : Total str_le.
Proof. intros a b. apply String.leb_total. Qed.

#[global] Instance str_le_antisym : AntiSymm (=) str_le.
Proof. intros a b. apply String.leb_antisym. Qed.

#[global] Instance str_le_trans : Transitive str_le.
Proof.
  intros a b c. unfold str_le, String.leb.
  destruct (String.compare a b) eqn:Hab; [| |done].
  - apply String.compare_eq_iff in Hab. by subst.
  - destruct (String.compare b c) eqn:Hbc; [| |done].
    + apply String.compare_eq_iff in Hbc. subst. by rewrite Hab.
    + by rewrite (string_compare_lt_trans a b c).
Qed.

Lemma sorted_keys_perm {V} (d : gmap string V) :
  sorted_keys d ≡ₚ (map_to_list d).*1.
Proof. apply merge_sort_Permutation. Qed.

Lemma elem_of_sorted_keys {V} (d : gmap string V) (k : string) :
  k ∈ sorted_keys d ↔ is_Some (d !! k).
Proof.
  rewrite sorted_keys_perm, list_elem_of_fmap. split.
  - intros ([k' v]&->&Hin). apply elem_of_map_to_list in Hin. by exists v.
  - intros [v Hv]. exists (k, v). split; [done|].
    by apply elem_of_map_to_list.
Qed.

Lemma sorted_keys_NoDup {V} (d : gmap string V) : NoDup (sorted_keys d).
Proof. rewrite sorted_keys_perm. apply NoDup_fst_map_to_list. Qed.

Lemma sorted_keys_sorted {V} (d : gmap string V) :
  StronglySorted str_le (sorted_keys d).
Proof. apply StronglySorted_merge_sort; apply _. Qed.

(** The sorted list of the keys is the only list of the keys that is in
    order, whichever way the dict hands them out. *)
Lemma sorted_keys_unique {V} (d : gmap string V) (l : list string) :
  l ≡ₚ (map_to_list d).*1 → StronglySorted str_le l → l = sorted_keys d.
Proof.
  intros Hperm Hs. apply (StronglySorted_unique str_le); [done| |].
  - apply sorted_keys_sorted.
  - by rewrite sorted_keys_perm.
Qed.

Lemma sorted_keys_empty {V} : sorted_keys (∅ : gmap string V) = [].
Proof. apply Permutation_nil_r. by rewrite sorted_keys_perm, map_to_list_empty. Qed.

End PyStrFacts.

(** ** The bars of [adj_time_plot.py] *)

Module AdjTimeFacts.
Import PyFloat PyFloatFacts Py PyFacts Config PyStr PyStrFacts AdjTime.

Lemma ltb_zero_nonzero (v : float) : ltb zero v = true → eqb v zero = false.
Proof. by destruct v as [[]|[]| |[] m e]. Qed.

(** On datasets that the table holds, [has_data] returns, and it says
    whether one of them has a value above zero. *)
Lemma has_data_spec (data : table) (tech : string) (datasets : list string) :
  (∀ ds, ds ∈ datasets → is_Some (data !! ds)) →
  ∃ b : bool, has_data data tech datasets = mret b ∧
    (b = true ↔ ∃ ds row v, ds ∈ datasets ∧ data !! ds = Some row ∧
                            row !! tech = Some v ∧ ltb zero v = true).
Proof.
  induction datasets as [|ds datasets IH]; intros Hin.
  - exists false. split; [done|]. split; [done|].
    by intros (?&?&?&?%elem_of_nil&_).
  - destruct (Hin ds) as [row Hrow]; [by left|].
    destruct IH as (b&Hb&Hiff); [intros ??; apply Hin; by right|].
    cbn [has_data]. unfold getitem. rewrite Hrow, bind_ret_l.
    destruct (row !! tech) as [v|] eqn:Hv;
      [destruct (ltb zero v) eqn:Hpos|].
    + exists true. split; [done|]. split; [|done]. intros _.
      exists ds, row, v. split_and!; [by left|done..].
    + exists b. split; [done|]. rewrite Hiff. split.
      * intros (ds'&row'&v'&?&?&?&?). exists ds', row', v'.
        split_and!; [by right|done..].
      * intros (ds'&row'&v'&[->|?]%elem_of_cons&?&?&?);
          [simplify_eq; congruence|by exists ds', row', v'].
    + exists b. split; [done|]. rewrite Hiff. split.
      * intros (ds'&row'&v'&?&?&?&?). exists ds', row', v'.
        split_and!; [by right|done..].
      * intros (ds'&row'&v'&[->|?]%elem_of_cons&?&?&?);
          [simplify_eq; congruence|by exists ds', row', v'].
Qed.

Lemma has_data_sorted_keys (data : table) (tech : string) :
  ∃ b : bool, has_data data tech (sorted_keys data) = mret b ∧
              (b = true ↔ positive_in data tech).
Proof.
  destruct (has_data_spec data tech (sorted_keys data)) as (b&Hb&Hiff).
  { intros ds. by rewrite elem_of_sorted_keys. }
  exists b. split; [done|]. rewrite Hiff. unfold positive_in. split.
  - intros (ds&row&v&_&?&?&?). by exists ds, row, v.
  - intros (ds&row&v&Hrow&?&?). exists ds, row, v.
    split_and!; [|done..]. apply elem_of_sorted_keys. by rewrite Hrow.
Qed.

Lemma available_loop_spec (data : table) (techs acc : list string) :
  ∃ l, available_loop data (sorted_keys data) techs acc = mret (acc ++ l) ∧
       l `sublist_of` techs ∧
       ∀ tech, tech ∈ l ↔ tech ∈ techs ∧ positive_in data tech.
Proof.
  revert acc. induction techs as [|tech techs IH]; intros acc.
  - exists []. rewrite app_nil_r. split_and!; [done..|].
    intros tech. rewrite elem_of_nil. tauto.
  - destruct (has_data_sorted_keys data tech) as (b&Hb&Hiff).
    cbn [available_loop]. rewrite Hb, bind_ret_l.
    destruct b.
    + destruct (IH (acc ++ [tech])) as (l&Hl&Hsub&Hspec).
      exists (tech :: l). rewrite Hl, <- app_assoc.
      split_and!; [done|by apply sublist_skip|].
      intros tech'. rewrite !elem_of_cons, Hspec.
      assert (positive_in data tech) by by apply Hiff.
      split; [intros [->|[? ?]]; auto|tauto].
    + destruct (IH acc) as (l&Hl&Hsub&Hspec).
      exists l. split_and!; [done|by apply sublist_cons|].
      intros tech'. rewrite elem_of_cons, Hspec.
      split; [tauto|]. intros [[->|?] Hp]; [|done].
      apply Hiff in Hp. discriminate.
Qed.

Lemma values_loop_spec (data : table) (technique normalize_to : string)
    (datasets : list string) (nv av : list float) :
  (∀ ds, ds ∈ datasets → is_Some (data !! ds)) →
  values_loop data technique normalize_to datasets nv av =
  mret (nv ++ omap (λ ds, row ← data !! ds;
                     Some (guarded_ratio row technique normalize_to)) datasets,
        av ++ omap (λ ds, row ← data !! ds;
                     Some (guarded_value row technique normalize_to)) datasets).
Proof.
  revert nv av. induction datasets as [|ds datasets IH]; intros nv av Hin.
  - cbn. by rewrite !app_nil_r.
  - destruct (Hin ds) as [row Hrow]; [by left|].
    cbn [values_loop omap list_omap]. unfold getitem.
    rewrite Hrow, bind_ret_l. cbn [mbind option_bind].
    unfold guarded_ratio at 1, guarded_value at 1.
    assert (∀ ds', ds' ∈ datasets → is_Some (data !! ds')) as Hin'
      by (intros ??; apply Hin; by right).
    destruct (row !! technique) as [cur|];
      [destruct (row !! normalize_to) as [base|];
       [destruct (ltb zero base) eqn:Hpos|]|].
    + rewrite truediv_nonzero by by apply ltb_zero_nonzero.
      rewrite bind_ret_l, IH by done. by rewrite <- !app_assoc.
    + rewrite IH by done. by rewrite <- !app_assoc.
    + rewrite IH by done. by rewrite <- !app_assoc.
    + rewrite IH by done. by rewrite <- !app_assoc.
Qed.

Lemma techniques_loop_spec (data : table) (normalize_to : string)
    (techs : list string) (drawn : list bars) :
  techniques_loop data normalize_to (sorted_keys data) techs drawn =
  mret (drawn ++ (bars_of data normalize_to <$> techs)).
Proof.
  revert drawn. induction techs as [|technique techs IH]; intros drawn.
  - cbn. by rewrite app_nil_r.
  - cbn [techniques_loop]. rewrite values_loop_spec
      by (intros ds; by rewrite elem_of_sorted_keys).
    rewrite bind_ret_l. cbn [app]. rewrite IH. rewrite fmap_cons.
    by rewrite <- app_assoc.
Qed.

Lemma bar_width_nonempty (available : list string) :
  available ≠ [] → available `sublist_of` techniques →
  ∃ width, bar_width available = mret width.
Proof.
  intros Hne Hsub. apply sublist_length in Hsub. unfold bar_width.
  destruct available as [|? [|? [|? [|? [|? ?]]]]];
    [done|by eexists..|cbn in Hsub; lia].
Qed.

(** X13: the outcome of [plot_time_comparison_normalized] on every table:
    nothing is printed and no [KeyError] is raised; the techniques drawn
    are those of the four that have a value above zero in some dataset, in
    the order of [techniques]; when there is none (an empty table, or a
    table of zeros) the run ends with [ZeroDivisionError] at
    [0.8 / len(available_techniques)]; otherwise it returns the bars of
    the techniques drawn, one bar per dataset in sorted order. *)
Theorem plot_time_comparison_normalized_outcome (data : table)
    (normalize_to : string) :
  ∃ available,
    available `sublist_of` techniques ∧
    (∀ tech, tech ∈ available ↔ tech ∈ techniques ∧ positive_in data tech) ∧
    plot_time_comparison_normalized data normalize_to =
    match available with
    | [] => raise ZeroDivisionError
    | _ => mret (bars_of data normalize_to <$> available)
    end.
Proof.
  destruct (available_loop_spec data techniques []) as (l&Hl&Hsub&Hspec).
  exists l. split_and!; [done..|].
  unfold plot_time_comparison_normalized. rewrite Hl, bind_ret_l. cbn [app].
  destruct l as [|tech l]; [done|].
  destruct (bar_width_nonempty (tech :: l)) as [width ->]; [done..|].
  by rewrite bind_ret_l, techniques_loop_spec.
Qed.

(** X14: the bar of the baseline technique itself: [1.0] in a dataset
    whose baseline is finite and above zero, [0] where the baseline is
    missing, zero, negative or NaN, and NaN where it is [inf]. *)
Theorem baseline_bar_heights (data : table) (normalize_to : string) :
  Forall2 (λ ds height, ∃ row,
      data !! ds = Some row ∧
      height = match row !! normalize_to with
               | Some base_value =>
                   if ltb zero base_value
                   then if is_finite base_value then one else nan
                   else zero
               | None => zero
               end)
    (sorted_keys data) (bar_heights data normalize_to normalize_to).
Proof.
  unfold bar_heights.
  assert (∀ ds, ds ∈ sorted_keys data → is_Some (data !! ds)) as Hin
    by (intros ds; by rewrite elem_of_sorted_keys).
  induction (sorted_keys data) as [|ds l IH]; [constructor|].
  destruct (Hin ds) as [row Hrow]; [by left|].
  cbn [omap list_omap]. rewrite Hrow. cbn [mbind option_bind].
  constructor; [|apply IH; intros ??; apply Hin; by right].
  exists row. split; [done|]. unfold guarded_ratio.
  destruct (row !! normalize_to) as [base|] eqn:Hbase; [|done].
  destruct (ltb zero base) eqn:Hpos; [|done].
  destruct (is_finite base) eqn:Hfin.
  - apply fdiv_self_one; [done|by apply ltb_zero_nonzero].
  - by destruct base as [[]|[]| |].
Qed.

End AdjTimeFacts.

(** ** The labels of the combined plot *)

Module AdjTimeLabelsFacts.
Import PyFloat PyFloatFacts Py PyFacts Config ConfigFacts AdjTimeLabels.

(** The number of binary digits of a mantissa bounds it. *)
Lemma digits2_pos_bounds (m : positive) :
  2 ^ (Z.pos (digits2_pos m) - 1) ≤ Z.pos m < 2 ^ Z.pos (digits2_pos m).
Proof.
  induction m as [m IH|m IH|]; cbn [digits2_pos]; [| |done].
  - rewrite Pos2Z.inj_succ. replace (Z.succ (Z.pos (digits2_pos m)) - 1)
      with (Z.succ (Z.pos (digits2_pos m) - 1)) by lia.
    rewrite !Z.pow_succ_r by lia. lia.
  - rewrite Pos2Z.inj_succ. replace (Z.succ (Z.pos (digits2_pos m)) - 1)
      with (Z.succ (Z.pos (digits2_pos m) - 1)) by lia.
    rewrite !Z.pow_succ_r by lia. lia.
Qed.

(** The mantissa of a float of the format has 53 digits, or fewer at the
    least exponent. *)
Lemma valid_binary_bounds (s : bool) (m : positive) (e : Z) :
  valid_binary prec emax (S754_finite s m e) = true →
  Z.pos m < 2 ^ 53 ∧ -1074 ≤ e ∧ (2 ^ 52 ≤ Z.pos m ∨ e = -1074).
Proof.
  cbn [valid_binary]. unfold bounded, canonical_mantissa, fexp, SpecFloat.emin.
  intros [Hc _]%andb_true_iff. apply Z.eqb_eq in Hc.
  pose proof (digits2_pos_bounds m) as [Hlo Hhi].
  unfold prec, emax in Hc.
  assert (Z.pos (digits2_pos m) ≤ 53) as Hd by lia.
  split_and!; [|lia|].
  - eapply Z.lt_le_trans; [done|]. by apply Z.pow_le_mono_r.
  - destruct (decide (e = -1074)); [by right|left].
    assert (Z.pos (digits2_pos m) = 53) as Hd' by lia.
    by rewrite Hd' in Hlo.
Qed.

(** No tenth is printed exactly when twenty times the value is at most
    one. *)
Lemma tenths_zero_iff (m : positive) (e : Z) :
  tenths m e = 0 ↔ e < 0 ∧ 20 * Z.pos m ≤ 2 ^ (- e).
Proof.
  unfold tenths. destruct (Z.leb_spec 0 e) as [He|He].
  - assert (0 < 2 ^ e) by (by apply Z.pow_pos_nonneg). split; [nia|lia].
  - assert (0 < 2 ^ (- e)) as Hd by (apply Z.pow_pos_nonneg; lia).
    unfold round_half_even.
    pose proof (Z.div_mod (Z.pos m * 10) (2 ^ (- e)) ltac:(lia)) as Hn.
    pose proof (Z.mod_pos_bound (Z.pos m * 10) (2 ^ (- e)) Hd) as Hr.
    assert (0 ≤ Z.pos m * 10 / 2 ^ (- e)) as Hq
      by (apply Z.div_pos; lia).
    set (q := Z.pos m * 10 / 2 ^ (- e)) in *.
    set (r := (Z.pos m * 10) mod 2 ^ (- e)) in *.
    set (d := 2 ^ (- e)) in *.
    destruct (Z.compare_spec (2 * r) d) as [Heq|Hlt|Hgt].
    + destruct (Z.even q) eqn:Hev.
      * split; [intros ->; split; [done|]; nia|].
        intros [_ H20]. destruct (decide (q = 0)) as [|Hq0]; [done|].
        exfalso. nia.
      * split; [intros ?; exfalso; lia|].
        intros [_ H20]. assert (q = 0) as Hq0 by nia.
        rewrite Hq0 in Hev. done.
    + split; [intros ->; split; [done|]; nia|].
      intros [_ H20]. destruct (decide (q = 0)) as [|Hq0]; [done|].
      exfalso. nia.
    + split; [intros ?; exfalso; lia|].
      intros [_ H20]. exfalso. nia.
Qed.

(** [0.05] is the least float above one twentieth: a float of the format
    is below it exactly when twenty times its value is at most one. *)
Lemma below_one_twentieth (m : positive) (e : Z) :
  valid_binary prec emax (S754_finite false m e) = true →
  leb one_twentieth (S754_finite false m e) = false ↔
  e < 0 ∧ 20 * Z.pos m ≤ 2 ^ (- e).
Proof.
  intros (Hm&Hemin&Hnorm)%valid_binary_bounds.
  assert (one_twentieth = S754_finite false 7205759403792794 (-57)) as ->
    by (vm_compute; reflexivity).
  unfold leb, SFleb, SFcompare.
  destruct (Z.compare_spec (-57) e) as [<-|Hlt|Hgt].
  - change (2 ^ (- -57)) with 144115188075855872.
    rewrite Pos.compare_cont_spec. cbn [Pos.switch_Eq].
    destruct (Pos.compare_spec 7205759403792794 m) as [<-|Hc|Hc];
      [|apply Pos2Z.pos_lt_pos in Hc..]; clear Hm Hnorm Hemin.
    + split; [done|]. intros [_ ?]. lia.
    + split; [done|]. intros [_ ?]. lia.
    + split; [|done]. intros _. lia.
  - split; [done|]. intros [He H20]. exfalso.
    destruct Hnorm as [Hnorm|Hnorm]; [|lia].
    assert (2 ^ (- e) ≤ 2 ^ 56) by (apply Z.pow_le_mono_r; lia).
    lia.
  - split; [|done]. intros _. split; [lia|].
    assert (2 ^ 58 ≤ 2 ^ (- e)) by (apply Z.pow_le_mono_r; lia).
    lia.
Qed.


Lemma ltb_leb_trans (a b c : float) :
  ltb a b = true → leb b c = true → ltb a c = true.
Proof.
  intros Hab Hbc.
  assert (is_nan a = false) by (by destruct a, b).
  assert (is_nan b = false) by (by destruct a, b).
  assert (is_nan c = false) by (by destruct b, c).
  float_order.
Qed.

(** The decimal digits of a number above zero do not start with [0]. *)
Lemma pretty_N_go_head (x : N) (s : string) :
  (0 < x)%N →
  ∃ c s', pretty_N_go x s = String c s' ∧ String c "" ≠ "0".
Proof.
  revert s. induction (N.lt_wf_0 x) as [x _ IH]; intros s Hx.
  rewrite pretty_N_go_step by done.
  destruct (decide (x < 10)%N) as [Hlt|Hge].
  - rewrite N.div_small, pretty_N_go_0 by done.
    rewrite N.mod_small by done. eexists _, _. split; [done|].
    assert (x = 1 ∨ x = 2 ∨ x = 3 ∨ x = 4 ∨ x = 5 ∨ x = 6
            ∨ x = 7 ∨ x = 8 ∨ x = 9)%N as Hc by lia.
    by repeat (destruct Hc as [->|Hc]; [done|]); subst.
  - apply IH; [apply N.div_lt; lia|]. apply N.div_str_pos. lia.
Qed.

Lemma pretty_N_head (x : N) :
  (0 < x)%N → ∃ c s', pretty x = String c s' ∧ String c "" ≠ "0".
Proof.
  intros Hx. unfold pretty, pretty_N.
  rewrite decide_False by lia. by apply pretty_N_go_head.
Qed.

(** The text of a positive finite ratio is [0.0x] exactly when no tenth
    is printed. *)
Lemma format_1f_zero_text (m : positive) (e : Z) :
  format_1f (S754_finite false m e) +:+ "x" = "0.0x" ↔ tenths m e = 0.
Proof.
  pose proof (tenths_nonneg m e) as Ht. cbn [format_1f].
  set (t := tenths m e) in *. split.
  - intros Heq.
    assert (Z.to_N (t `div` 10) = 0%N) as Ha.
    { destruct (decide (0 < Z.to_N (t `div` 10))%N) as [Hpos|]; [|lia].
      destruct (pretty_N_head _ Hpos) as (c&s'&Hp&Hc).
      rewrite Hp in Heq. injection Heq as Hc' _. by subst c. }
    rewrite Ha in Heq.
    assert (Z.to_N (t `mod` 10) = 0%N) as Hb.
    { destruct (decide (0 < Z.to_N (t `mod` 10))%N) as [Hpos|]; [|lia].
      destruct (pretty_N_head _ Hpos) as (c&s'&Hp&Hc).
      rewrite Hp in Heq. injection Heq as Hc' _. by subst c. }
    pose proof (Z.div_mod t 10 ltac:(done)) as Hdm.
    pose proof (Z.mod_pos_bound t 10 ltac:(done)).
    assert (0 ≤ t `div` 10) by (by apply Z.div_pos).
    lia.
  - by intros ->.
Qed.

(** X15: a single-hop bar of [plot_combined_neighbors_comparison] gets a
    label exactly when its ratio is at least the float [0.05] and is not
    [1.0], and the label is the ratio with one decimal followed by [x]:
    the test [norm_val > 0.01] lets ratios between [0.01] and [0.05]
    through, their text is [0.0x], and the second test drops it. *)
Theorem single_hop_annotation_shown (norm_val : float) :
  valid_binary prec emax norm_val = true →
  single_hop_annotation norm_val =
  if leb one_twentieth norm_val && neb norm_val one
  then Some (format_1f norm_val +:+ "x")
  else None.
Proof.
  intros Hvalid. unfold single_hop_annotation.
  assert (ltb one_hundredth one_twentieth = true) as H15
    by (vm_compute; reflexivity).
  destruct norm_val as [s|s| |s m e].
  - by destruct s.
  - by destruct s.
  - done.
  - destruct s.
    { assert (one_hundredth = S754_finite false 5764607523034235 (-59)) as ->
        by (vm_compute; reflexivity).
      assert (one_twentieth = S754_finite false 7205759403792794 (-57)) as ->
        by (vm_compute; reflexivity).
      reflexivity. }
    unfold format_annotation_with_ratio. cbn [andb].
    destruct (neb (S754_finite false m e) one) eqn:Hne.
    + rewrite andb_true_r.
      assert (String.eqb (format_1f (S754_finite false m e) +:+ "x") ""
              = false) as ->.
      { apply String.eqb_neq. cbn [format_1f].
        by destruct (pretty (Z.to_N (tenths m e `div` 10))). }
      cbn [negb andb].
      pose proof (below_one_twentieth m e Hvalid) as Hb.
      pose proof (format_1f_zero_text m e) as Hz.
      pose proof (tenths_zero_iff m e) as Ht.
      destruct (leb one_twentieth (S754_finite false m e)) eqn:Hle.
      * rewrite (ltb_leb_trans _ _ _ H15 Hle).
        assert (String.eqb (format_1f (S754_finite false m e) +:+ "x")
                  "0.0x" = false) as ->; [|done].
        apply String.eqb_neq. intros Heq.
        apply Hz, Ht, Hb in Heq. discriminate.
      * assert (String.eqb (format_1f (S754_finite false m e) +:+ "x")
                  "0.0x" = true) as ->.
        { apply String.eqb_eq. by apply Hz, Ht, Hb. }
        by destruct (ltb one_hundredth (S754_finite false m e)).
    + rewrite andb_false_r. cbn. by destruct (ltb one_hundredth (S754_finite false m e)).
Qed.

End AdjTimeLabelsFacts.

(** ** The bars of [gdb_space_comparison.py] *)

Module GdbSpaceFacts.
Import PyFloat PyFloatFacts Py PyFacts Config GdbSpace.

Lemma format_loop_spec (data : table) (fmt normalize_by : string)
    (datasets : list string) (nv av : list float) :
  (∀ ds_name, ds_name ∈ datasets → ∃ ds_data,
     data !! ds_name = Some ds_data ∧ is_Some (ds_data !! fmt) ∧
     is_Some (ds_data !! normalize_by)) →
  ∃ entries,
    format_loop data fmt normalize_by datasets nv av =
    mret (nv ++ entries.*1, av ++ entries.*2) ∧
    Forall2 (λ ds_name entry, ∃ ds_data,
       data !! ds_name = Some ds_data ∧
       format_entry ds_data fmt normalize_by = Some entry) datasets entries.
Proof.
  revert nv av. induction datasets as [|ds datasets IH]; intros nv av H.
  - exists []. cbn. rewrite !app_nil_r. split; [done|constructor].
  - destruct (H ds) as (row&Hrow&[val Hval]&[base Hbase]); [by left|].
    assert (∀ ds_name, ds_name ∈ datasets → ∃ ds_data,
      data !! ds_name = Some ds_data ∧ is_Some (ds_data !! fmt) ∧
      is_Some (ds_data !! normalize_by)) as H'
      by (intros ??; apply H; by right).
    cbn [format_loop]. unfold getitem.
    rewrite Hrow, bind_ret_l, Hval, bind_ret_l, Hbase, bind_ret_l.
    destruct (eqb val zero || eqb base zero) eqn:Hz.
    + destruct (IH (nv ++ [nan]) (av ++ [nan]) H') as (entries&Heq&Hall).
      exists ((nan, nan) :: entries). split.
      * rewrite Heq, !fmap_cons. cbn [fst snd]. by rewrite <- !app_assoc.
      * constructor; [|done]. exists row. split; [done|].
        unfold format_entry. rewrite Hval, Hbase. cbn. by rewrite Hz.
    + apply orb_false_iff in Hz as Hz'. destruct Hz' as [_ Hb].
      rewrite (truediv_nonzero _ _ Hb), bind_ret_l, to_MB_total, bind_ret_l.
      destruct (IH (nv ++ [fdiv val base]) (av ++ [fdiv val mebi]) H')
        as (entries&Heq&Hall).
      exists ((fdiv val base, fdiv val mebi) :: entries). split.
      * rewrite Heq, !fmap_cons. cbn [fst snd]. by rewrite <- !app_assoc.
      * constructor; [|done]. exists row. split; [done|].
        unfold format_entry. rewrite Hval, Hbase. cbn. by rewrite Hz.
Qed.

Lemma db_formats_loop_spec (data : table) (normalize_by : string)
    (datasets fmts : list string) (acc : list element) :
  (∀ ds_name, ds_name ∈ datasets → ∃ ds_data,
     data !! ds_name = Some ds_data ∧
     (∀ fmt, fmt ∈ fmts → is_Some (ds_data !! fmt)) ∧
     is_Some (ds_data !! normalize_by)) →
  ∃ elements,
    db_formats_loop data normalize_by datasets fmts acc =
    mret (acc ++ elements) ∧
    Forall2 (λ fmt (el : element), el.1.1 = fmt ∧
       Forall2 (λ ds_name entry, ∃ ds_data,
          data !! ds_name = Some ds_data ∧
          format_entry ds_data fmt normalize_by = Some entry)
         datasets (zip el.1.2 el.2) ∧
       length el.1.2 = length el.2) fmts elements.
Proof.
  revert acc. induction fmts as [|fmt fmts IH]; intros acc H.
  - exists []. cbn. rewrite app_nil_r. split; [done|constructor].
  - destruct (format_loop_spec data fmt normalize_by datasets [] [])
      as (entries&Heq&Hall).
    { intros ds Hds. destruct (H ds Hds) as (row&?&Hf&?).
      exists row. split_and!; [done| |done]. apply Hf. by left. }
    destruct (IH (acc ++ [(fmt, entries.*1, entries.*2)]))
      as (elements&Heq'&Hall').
    { intros ds Hds. destruct (H ds Hds) as (row&?&Hf&?).
      exists row. split_and!; [done| |done]. intros ??. apply Hf. by right. }
    exists ((fmt, entries.*1, entries.*2) :: elements). split.
    + cbn [db_formats_loop]. rewrite Heq, bind_ret_l. cbn [app].
      rewrite Heq'. by rewrite <- app_assoc.
    + constructor; [|done]. cbn [fst snd]. split_and!; [done| |].
      * by rewrite zip_fst_snd.
      * by rewrite !length_fmap.
Qed.

Lemma input_loop_spec (data : table) (val_key base_key : string)
    (datasets : list string) (nv av : list float) :
  (∀ ds_name, ds_name ∈ datasets → ∃ ds_data,
     data !! ds_name = Some ds_data ∧ is_Some (ds_data !! val_key) ∧
     is_Some (ds_data !! base_key)) →
  ∃ entries,
    input_loop data val_key base_key datasets nv av =
    mret (nv ++ entries.*1, av ++ entries.*2) ∧
    Forall2 (λ ds_name entry, ∃ ds_data,
       data !! ds_name = Some ds_data ∧
       input_entry ds_data val_key base_key = Some entry) datasets entries.
Proof.
  revert nv av. induction datasets as [|ds datasets IH]; intros nv av H.
  - exists []. cbn. rewrite !app_nil_r. split; [done|constructor].
  - destruct (H ds) as (row&Hrow&[val Hval]&[base Hbase]); [by left|].
    assert (∀ ds_name, ds_name ∈ datasets → ∃ ds_data,
      data !! ds_name = Some ds_data ∧ is_Some (ds_data !! val_key) ∧
      is_Some (ds_data !! base_key)) as H'
      by (intros ??; apply H; by right).
    cbn [input_loop]. unfold getitem.
    rewrite Hrow, bind_ret_l, Hval, bind_ret_l, Hbase, bind_ret_l.
    assert ((if eqb base zero then mret nan else truediv val base) =
            mret (if eqb base zero then nan else fdiv val base)) as ->.
    { destruct (eqb base zero) eqn:Hb; [done|]. by apply truediv_nonzero. }
    rewrite bind_ret_l, to_MB_total, bind_ret_l.
    destruct (IH (nv ++ [if eqb base zero then nan else fdiv val base])
                 (av ++ [fdiv val mebi]) H') as (entries&Heq&Hall).
    exists ((if eqb base zero then nan else fdiv val base, fdiv val mebi)
              :: entries). split.
    + rewrite Heq, !fmap_cons. cbn [fst snd]. by rewrite <- !app_assoc.
    + constructor; [|done]. exists row. split; [done|].
      unfold input_entry. by rewrite Hval, Hbase.
Qed.

(** X16: on a table that holds every dataset of the module with the
    three formats and the two input sizes, [plot_storage_normalized]
    raises nothing, for either value of [normalize_by]: it returns the bar
    of the other input file first and then the bars of the formats in
    order, with one entry per dataset.  An entry of a format is NaN in
    both arrays when its size or the baseline is zero; the entry of the
    input file is NaN in the ratio only, and only for a zero baseline. *)
Theorem plot_storage_normalized_complete (datasets : list string)
    (data : table) (normalize_by : normalization) :
  complete datasets data →
  ∃ (input : element) (dbs : list element),
    plot_storage_normalized datasets data normalize_by =
      mret (input :: dbs) ∧
    input.1.1 = input_label normalize_by ∧
    length input.1.2 = length input.2 ∧
    Forall2 (λ ds_name entry, ∃ ds_data,
       data !! ds_name = Some ds_data ∧
       input_entry ds_data (input_key normalize_by) (key_of normalize_by)
         = Some entry) datasets (zip input.1.2 input.2) ∧
    Forall2 (λ fmt (el : element), el.1.1 = fmt ∧
       Forall2 (λ ds_name entry, ∃ ds_data,
          data !! ds_name = Some ds_data ∧
          format_entry ds_data fmt (key_of normalize_by) = Some entry)
         datasets (zip el.1.2 el.2) ∧
       length el.1.2 = length el.2) formats dbs.
Proof.
  intros Hc.
  assert (∀ k, k ∈ formats ++ ["zipped"; "unzipped"] →
            ∀ ds_name, ds_name ∈ datasets → ∃ ds_data,
              data !! ds_name = Some ds_data ∧ is_Some (ds_data !! k)) as Hk.
  { intros k Hin ds Hds. destruct (Hc ds Hds) as (row&?&Hall).
    exists row. split; [done|]. by apply Hall. }
  assert (key_of normalize_by ∈ formats ++ ["zipped"; "unzipped"]) as Hkey
    by (destruct normalize_by; apply (bool_decide_unpack _); reflexivity).
  assert (input_key normalize_by ∈ formats ++ ["zipped"; "unzipped"]) as Hinp
    by (destruct normalize_by; apply (bool_decide_unpack _); reflexivity).
  destruct (db_formats_loop_spec data (key_of normalize_by) datasets formats [])
    as (dbs&Hdbs&Hall).
  { intros ds Hds. destruct (Hc ds Hds) as (row&?&Hrow).
    exists row. split_and!; [done| |by apply Hrow].
    intros fmt Hfmt. apply Hrow, elem_of_app. by left. }
  destruct (input_loop_spec data (input_key normalize_by) (key_of normalize_by)
              datasets [] []) as (entries&Hin&Hent).
  { intros ds Hds. destruct (Hc ds Hds) as (row&?&Hrow).
    exists row. split_and!; [done|by apply Hrow..]. }
  exists (input_label normalize_by, entries.*1, entries.*2), dbs.
  split_and!; cbn [fst snd];
    [|done|by rewrite !length_fmap|by rewrite zip_fst_snd|done].
  unfold plot_storage_normalized. rewrite Hdbs, bind_ret_l. cbn [app].
  destruct normalize_by; cbn [input_key key_of] in Hin;
    by rewrite Hin, bind_ret_l.
Qed.

End GdbSpaceFacts.

(** ** The groups of [memory.py] *)

Module MemoryFacts.
Import PyFloat Config Memory.

Lemma elem_of_set_group (name : string) (v : Z) (g : groups)
    (item : string * entry) :
  item ∈ set_group name v g → item ∈ g ∨ 0 < v ∧ item = (name, Size v).
Proof.
  unfold set_group. destruct (Z.ltb_spec 0 v); [|by left].
  intros [?|Hx%list_elem_of_singleton]%elem_of_app; [by left|by right].
Qed.

Lemma elem_of_set_single (d : components) (k name : string) (g : groups)
    (item : string * entry) :
  item ∈ set_single d k name g →
  item ∈ g ∨ ∃ v, 0 < v ∧ item = (name, Size v).
Proof.
  unfold set_single. destruct (get d k) as [v|]; [|by left].
  destruct (Z.ltb_spec 0 v); [|by left].
  intros [?|Hx%list_elem_of_singleton]%elem_of_app; [by left|right; eauto].
Qed.

Lemma other_step_nonneg (d : components) (t : Z) (cs : list string) :
  0 ≤ t → 0 ≤ (foldl other_step (t, cs) d).1.
Proof.
  revert t cs. induction d as [|[comp size] d IH]; intros t cs Ht; [done|].
  cbn [foldl other_step].
  destruct (bool_decide _); cbn [andb]; [|by apply IH].
  destruct (Z.ltb_spec 0 size); apply IH; lia.
Qed.

(** The keys that the two kinds of assignment add. *)
Lemma set_group_keys (name : string) (v : Z) (g : groups) :
  (set_group name v g).*1 = g.*1 ++ (if 0 <? v then [name] else []).
Proof.
  unfold set_group. destruct (0 <? v); [|by rewrite app_nil_r].
  by rewrite fmap_app.
Qed.

Lemma set_single_keys (d : components) (k name : string) (g : groups) :
  ∃ b : bool, (set_single d k name g).*1 = g.*1 ++ (if b then [name] else []).
Proof.
  unfold set_single. destruct (get d k) as [v|].
  - exists (0 <? v). destruct (0 <? v); [|by rewrite app_nil_r].
    by rewrite fmap_app.
  - exists false. by rewrite app_nil_r.
Qed.

Lemma sublist_option (b : bool) (x : string) (l1 l2 : list string) :
  l1 `sublist_of` l2 →
  (if b then [x] else []) ++ l1 `sublist_of` x :: l2.
Proof. intros H. destruct b; [by apply sublist_skip|by apply sublist_cons]. Qed.

(** The value of a key, [0] when the dict does not hold it. *)
Lemma add_component_val (d : components) (acc : Z) (k : string) :
  add_component d acc k = acc + default 0 (get d k).
Proof. unfold add_component. destruct (get d k); cbn; lia. Qed.

Lemma total_size_app (g1 g2 : groups) :
  total_size (g1 ++ g2) = total_size g1 + total_size g2.
Proof.
  unfold total_size. induction g1 as [|item g1 IH]; cbn; [done|].
  fold (total_size (g1 ++ g2)) in *. cbn in IH. lia.
Qed.

Lemma total_size_set_group (name : string) (v : Z) (g : groups) :
  total_size (set_group name v g) = total_size g + Z.max 0 v.
Proof.
  unfold set_group. destruct (Z.ltb_spec 0 v).
  - rewrite total_size_app. cbn. lia.
  - lia.
Qed.

Lemma total_size_set_single (d : components) (k name : string) (g : groups) :
  total_size (set_single d k name g) =
  total_size g + Z.max 0 (default 0 (get d k)).
Proof.
  unfold set_single. destruct (get d k) as [v|]; cbn; [|lia].
  destruct (Z.ltb_spec 0 v).
  - rewrite total_size_app. cbn. lia.
  - lia.
Qed.

Lemma total_size_cons (item : string * entry) (g : groups) :
  total_size (item :: g) = entry_size item.2 + total_size g.
Proof. reflexivity. Qed.

(** Deleting the key of the list takes nothing from the sum when no
    integer is held under it. *)
Lemma total_size_without_details (g : groups) :
  Forall (λ item, match item.2 with
                  | Size _ => item.1 ≠ "_other_details"
                  | Details _ => True
                  end) g →
  total_size (without_details g) = total_size g.
Proof.
  unfold without_details. induction 1 as [|[k e] g Hk Hg IH]; [done|].
  cbn [fst snd] in Hk. rewrite total_size_cons. cbn [snd].
  destruct (decide (k ≠ "_other_details")) as [Hne|He].
  - rewrite filter_cons_True by done. by rewrite total_size_cons, IH.
  - rewrite filter_cons_False by done. rewrite IH.
    destruct e as [n|l]; [done|]. cbn [entry_size]. lia.
Qed.

Lemma get_Some (d : components) (k : string) (v : Z) :
  get d k = Some v → (k, v) ∈ d.
Proof.
  induction d as [|[k' v'] d IH]; cbn; [done|].
  case_decide as Hk; [intros [= ->]; subst; by left|].
  intros ?. right. by apply IH.
Qed.

Lemma get_None (d : components) (k : string) :
  k ∉ d.*1 → get d k = None.
Proof.
  induction d as [|[k' v'] d IH]; cbn; [done|].
  intros Hk. apply not_elem_of_cons in Hk as [? ?].
  by rewrite decide_False, IH.
Qed.

Lemma total_cons (item : string * Z) (d : components) :
  total (item :: d) = item.2 + total d.
Proof. reflexivity. Qed.

(** The sum of a dict is the value of one key and the sum of the rest. *)
Lemma total_split_key (d : components) (k : string) :
  NoDup d.*1 →
  total d = default 0 (get d k) + total (filter (λ item, item.1 ≠ k) d).
Proof.
  induction d as [|[k' v'] d IH]; [done|].
  rewrite fmap_cons, NoDup_cons. cbn [fst]. intros [Hk' Hd].
  rewrite total_cons. cbn [get snd]. case_decide as Hk.
  - subst k'. rewrite filter_cons_False by (cbn; tauto).
    rewrite (IH Hd), (get_None d k Hk'). cbn [from_option id]. lia.
  - rewrite filter_cons_True by done. rewrite total_cons, (IH Hd).
    cbn [snd]. lia.
Qed.

Lemma get_filter (d : components) (P : string → Prop)
    `{∀ k, Decision (P k)} (k : string) :
  P k → get (filter (λ item, P item.1) d) k = get d k.
Proof.
  intros HP. induction d as [|[k' v'] d IH]; [done|].
  destruct (decide (P k')) as [HP'|HP'].
  - rewrite filter_cons_True by done. cbn. by rewrite IH.
  - rewrite filter_cons_False by done. cbn.
    rewrite decide_False by (by intros ->). done.
Qed.

Lemma filter_all {A} (P : A → Prop) `{∀ x, Decision (P x)} (l : list A) :
  (∀ x, x ∈ l → P x) → filter P l = l.
Proof.
  induction l as [|x l IH]; intros Hl; [done|].
  rewrite filter_cons_True by (apply Hl; by left).
  f_equal. apply IH. intros y Hy. apply Hl. by right.
Qed.

Lemma total_split (d : components) (ks : list string) :
  NoDup d.*1 → NoDup ks →
  total d = foldr (λ k acc, default 0 (get d k) + acc) 0 ks
            + total (filter (λ item, item.1 ∉ ks) d).
Proof.
  intros Hd. induction 1 as [|k ks Hk Hks IH]; cbn [foldr].
  - rewrite filter_all; [lia|]. intros item _. apply not_elem_of_nil.
  - rewrite IH.
    rewrite (total_split_key (filter (λ item, item.1 ∉ ks) d) k).
    + pose proof (get_filter d (λ k, k ∉ ks) k Hk) as Hg.
      cbn beta in Hg. rewrite Hg.
      rewrite list_filter_filter.
      rewrite (list_filter_iff _ (λ item, item.1 ∉ k :: ks)); [lia|].
      intros [k' v']; cbn. rewrite not_elem_of_cons. tauto.
    + apply (sublist_NoDup _ d.*1);
        first [done|apply (fmap_sublist fst), sublist_filter].
Qed.

(** What the loop over the items adds up: the positive sizes of the
    components that are not accounted for. *)
Lemma other_total_spec (d : components) (t : Z) (cs : list string) :
  (foldl other_step (t, cs) d).1 =
  t + total (filter (λ item, (item.1 ∉ accounted_components) ∧ 0 < item.2) d).
Proof.
  revert t cs. induction d as [|[comp size] d IH]; intros t cs.
  - cbn. lia.
  - cbn [foldl other_step].
    destruct (decide (comp ∉ accounted_components)) as [Hc|Hc].
    + rewrite bool_decide_eq_true_2 by done. cbn [andb].
      destruct (Z.ltb_spec 0 size).
      * rewrite filter_cons_True by done. rewrite IH, total_cons.
        cbn [snd]. lia.
      * rewrite filter_cons_False by (cbn; lia). apply IH.
    + rewrite bool_decide_eq_false_2 by done. cbn [andb].
      rewrite filter_cons_False by (cbn; tauto). apply IH.
Qed.

Lemma total_filter_nonneg (d : components) (P : string * Z → Prop)
    `{∀ item, Decision (P item)} :
  Forall (λ item, 0 ≤ item.2) d →
  total (filter (λ item, P item ∧ 0 < item.2) d) = total (filter P d).
Proof.
  induction 1 as [|[k v] d Hv Hd IH]; [done|]. cbn in Hv.
  destruct (decide (P (k, v))) as [HP|HP].
  - rewrite (filter_cons_True P) by done. rewrite total_cons, <- IH.
    destruct (decide (0 < v)).
    + by rewrite filter_cons_True, total_cons by done.
    + rewrite filter_cons_False by (cbn; tauto). cbn [snd]. lia.
  - rewrite (filter_cons_False P) by done.
    rewrite filter_cons_False by (cbn; tauto). done.
Qed.

Lemma group_components_entries (detailed_data : components)
    (item : string * entry) :
  item ∈ group_components detailed_data →
  match item.2 with
  | Size n => 0 < n ∧ item.1 ≠ "_other_details"
  | Details _ => item.1 = "_other_details"
  end.
Proof.
  unfold group_components.
  pose proof (other_step_nonneg detailed_data 0 [] ltac:(done)) as Hot.
  destruct (foldl other_step (0, []) detailed_data) as [ot oc].
  cbn [fst] in Hot. intros Hin.
  assert (item ∈ [("Other", Size ot); ("_other_details", Details oc)]
          → (0 <? ot) = true →
          match item.2 with
          | Size n => 0 < n ∧ item.1 ≠ "_other_details"
          | Details _ => item.1 = "_other_details"
          end) as Hother.
  { rewrite !elem_of_cons, elem_of_nil. intros [->|[->|[]]] ?; cbn; [|done].
    split; [lia|done]. }
  destruct (0 <? ot) eqn:Hpos;
    [apply elem_of_app in Hin as [Hin|Hin]; [|by apply Hother]|].
  all: repeat first
    [ apply elem_of_set_single in Hin as [Hin|(v&?&->)]; [|by cbn]
    | apply elem_of_set_group in Hin as [Hin|[? ->]]; [|by cbn] ].
  all: by apply elem_of_nil in Hin.
Qed.

(** X17: for every input, also with negative sizes, every size in the
    dict that [group_components] returns is above zero (a group whose
    total is not above zero is left out), and the only value that is not
    an integer is the list under ['_other_details']. *)
Theorem group_components_positive (detailed_data : components) :
  Forall (λ item, match item.2 with
                  | Size n => 0 < n
                  | Details _ => item.1 = "_other_details"
                  end) (group_components detailed_data) ∧
  Forall (λ item, ∃ n, item.2 = Size n ∧ 0 < n)
    (without_details (group_components detailed_data)).
Proof.
  split; rewrite Forall_forall; intros item Hin.
  - apply group_components_entries in Hin. destruct (item.2); tauto.
  - apply list_elem_of_filter in Hin as [Hne Hin].
    apply group_components_entries in Hin.
    destruct (item.2) as [n|l]; [|done]. exists n. tauto.
Qed.

(** X18: the keys of the dict that [group_components] returns are among
    the seven groups and ['_other_details'], each at most once and in this
    order, and ['_other_details'] is there exactly when ['Other'] is. *)
Theorem group_components_keys (detailed_data : components) :
  (group_components detailed_data).*1
    `sublist_of` preferred_order ++ ["_other_details"] ∧
  ("Other" ∈ (group_components detailed_data).*1 ↔
   "_other_details" ∈ (group_components detailed_data).*1).
Proof.
  unfold group_components.
  destruct (foldl other_step (0, []) detailed_data) as [ot oc].
  set (b7 := 0 <? ot).
  match goal with |- context [if b7 then ?g ++ _ else _] => set (g6 := g) end.
  assert (∃ b1 b2 b3 b4 b5 b6 : bool, g6.*1 =
    (if b1 then ["Adjacency Lists"] else []) ++
    (if b2 then ["Parent Lists"] else []) ++
    (if b3 then ["Fixed-size Properties"] else []) ++
    (if b4 then ["Variable-size Properties"] else []) ++
    (if b5 then ["Type System"] else []) ++
    (if b6 then ["Node ID Mapping"] else [])) as (b1&b2&b3&b4&b5&b6&Hg6).
  { unfold g6.
    destruct (set_single_keys detailed_data "nodePkToId" "Node ID Mapping"
      (set_group "Type System"
         (add_component detailed_data
            (add_component detailed_data 0 "typesSystemOverhead") "labels")
         (set_single detailed_data "varSize" "Variable-size Properties"
            (set_group "Fixed-size Properties"
               (foldl (add_component detailed_data) 0 fixed_components)
               (set_single detailed_data "nodeParentLists" "Parent Lists"
                  (set_group "Adjacency Lists"
                     (add_component detailed_data
                        (add_component detailed_data 0 "nodeAdjLists")
                        "edgeAdjLists") [])))))) as [b6 ->].
    rewrite set_group_keys.
    destruct (set_single_keys detailed_data "varSize"
      "Variable-size Properties"
      (set_group "Fixed-size Properties"
         (foldl (add_component detailed_data) 0 fixed_components)
         (set_single detailed_data "nodeParentLists" "Parent Lists"
            (set_group "Adjacency Lists"
               (add_component detailed_data
                  (add_component detailed_data 0 "nodeAdjLists")
                  "edgeAdjLists") [])))) as [b4 ->].
    rewrite set_group_keys.
    destruct (set_single_keys detailed_data "nodeParentLists" "Parent Lists"
      (set_group "Adjacency Lists"
         (add_component detailed_data
            (add_component detailed_data 0 "nodeAdjLists")
            "edgeAdjLists") [])) as [b2 ->].
    rewrite set_group_keys. cbn [fmap list_fmap app].
    eexists _, b2, _, b4, _, b6. rewrite <- !app_assoc. reflexivity. }
  assert ((if b7 then g6 ++ [("Other", Size ot);
                             ("_other_details", Details oc)] else g6).*1 =
          g6.*1 ++ (if b7 then ["Other"] else []) ++
                   (if b7 then ["_other_details"] else [])) as ->.
  { destruct b7; [by rewrite fmap_app|by rewrite app_nil_r]. }
  assert (g6.*1 `sublist_of`
            ["Adjacency Lists"; "Parent Lists"; "Fixed-size Properties";
             "Variable-size Properties"; "Type System"; "Node ID Mapping"])
    as Hsub.
  { rewrite Hg6. repeat apply sublist_option.
    rewrite <- (app_nil_r (if b6 then _ else _)). by apply sublist_option. }
  split.
  - unfold preferred_order.
    change (?l ++ ["_other_details"]) with
      (["Adjacency Lists"; "Parent Lists"; "Fixed-size Properties";
        "Variable-size Properties"; "Type System"; "Node ID Mapping"]
       ++ ["Other"; "_other_details"]).
    apply sublist_app; [done|].
    apply sublist_option.
    rewrite <- (app_nil_r (if b7 then _ else _)). by apply sublist_option.
  - assert (∀ k, k = "Other" ∨ k = "_other_details" →
                 k ∈ g6.*1 ++ (if b7 then ["Other"] else []) ++
                              (if b7 then ["_other_details"] else [])
                 ↔ b7 = true) as Hk.
    { intros k Hk. rewrite !elem_of_app. split.
      - intros [Hin|[Hin|Hin]];
          [|destruct b7; [done|by apply elem_of_nil in Hin]..].
        apply (elem_of_sublist _ _ _ Hin) in Hsub.
        rewrite !elem_of_cons, elem_of_nil in Hsub.
        destruct Hk as [-> | ->]; intuition discriminate.
      - intros ->. destruct Hk as [-> | ->]; right; [left|right]; by left. }
    rewrite (Hk "Other"), (Hk "_other_details") by auto. done.
Qed.

(** X19: on a dict without negative sizes the grouping loses and adds
    nothing: the sizes of the groups (the dict without
    ['_other_details']) add up to the sum of all components, known or
    not. *)
Theorem group_components_conserves (detailed_data : components) :
  NoDup detailed_data.*1 →
  Forall (λ item, 0 ≤ item.2) detailed_data →
  total_size (without_details (group_components detailed_data)) =
  total detailed_data.
Proof.
  intros Hnd Hnn. rewrite total_size_without_details.
  2: { rewrite Forall_forall. intros item Hin.
       apply group_components_entries in Hin. destruct (item.2); tauto. }
  unfold group_components.
  pose proof (other_total_spec detailed_data 0 []) as Hot.
  destruct (foldl other_step (0, []) detailed_data) as [ot oc].
  cbn [fst] in Hot. rewrite Z.add_0_l in Hot.
  rewrite (total_filter_nonneg detailed_data
             (λ item, item.1 ∉ accounted_components)) in Hot by done.
  assert (∀ k, 0 ≤ default 0 (get detailed_data k)) as Hval.
  { intros k. destruct (get detailed_data k) as [v|] eqn:Hk; cbn; [|done].
    apply get_Some in Hk. rewrite Forall_forall in Hnn.
    apply (Hnn (k, v) Hk). }
  assert (0 ≤ ot) as Hot0.
  { rewrite Hot. clear -Hnn.
    induction Hnn as [|[k v] d Hv Hd IH]; [done|]. cbn in Hv.
    destruct (decide (k ∉ accounted_components)).
    - rewrite filter_cons_True, total_cons by done. cbn [snd]. lia.
    - by rewrite filter_cons_False by (cbn; tauto). }
  set (ks := ["nodeAdjLists"; "edgeAdjLists"; "nodeParentLists";
     "nodeIntLikeProperties"; "edgeIntLikeProperties";
     "nodeDoubleProperties"; "edgeDoubleProperties";
     "varSize"; "typesSystemOverhead"; "labels"; "nodePkToId"]).
  rewrite (total_split detailed_data ks Hnd)
    by (unfold ks; by repeat (apply NoDup_cons_2;
          [rewrite ?elem_of_cons, elem_of_nil; intuition discriminate|]);
        apply NoDup_nil_2).
  rewrite (list_filter_iff (λ item, item.1 ∉ ks)
             (λ item, item.1 ∉ accounted_components))
    by (intros [k v]; cbn [fst]; unfold accounted_components;
        by rewrite elem_of_list_to_set).
  rewrite <- Hot.
  assert (total_size
    (if 0 <? ot
     then set_single detailed_data "nodePkToId" "Node ID Mapping"
      (set_group "Type System"
         (add_component detailed_data
            (add_component detailed_data 0 "typesSystemOverhead") "labels")
         (set_single detailed_data "varSize" "Variable-size Properties"
            (set_group "Fixed-size Properties"
               (foldl (add_component detailed_data) 0 fixed_components)
               (set_single detailed_data "nodeParentLists" "Parent Lists"
                  (set_group "Adjacency Lists"
                     (add_component detailed_data
                        (add_component detailed_data 0 "nodeAdjLists")
                        "edgeAdjLists") []))))) ++
       [("Other", Size ot); ("_other_details", Details oc)]
     else set_single detailed_data "nodePkToId" "Node ID Mapping"
      (set_group "Type System"
         (add_component detailed_data
            (add_component detailed_data 0 "typesSystemOverhead") "labels")
         (set_single detailed_data "varSize" "Variable-size Properties"
            (set_group "Fixed-size Properties"
               (foldl (add_component detailed_data) 0 fixed_components)
               (set_single detailed_data "nodeParentLists" "Parent Lists"
                  (set_group "Adjacency Lists"
                     (add_component detailed_data
                        (add_component detailed_data 0 "nodeAdjLists")
                        "edgeAdjLists") [])))))) =
    total_size (set_single detailed_data "nodePkToId" "Node ID Mapping"
      (set_group "Type System"
         (add_component detailed_data
            (add_component detailed_data 0 "typesSystemOverhead") "labels")
         (set_single detailed_data "varSize" "Variable-size Properties"
            (set_group "Fixed-size Properties"
               (foldl (add_component detailed_data) 0 fixed_components)
               (set_single detailed_data "nodeParentLists" "Parent Lists"
                  (set_group "Adjacency Lists"
                     (add_component detailed_data
                        (add_component detailed_data 0 "nodeAdjLists")
                        "edgeAdjLists") [])))))) + ot) as ->.
  { destruct (Z.ltb_spec 0 ot); [rewrite total_size_app; cbn; lia|lia]. }
  repeat first [rewrite total_size_set_single|rewrite total_size_set_group].
  unfold fixed_components, ks. cbn [foldl foldr]. change (total_size []) with 0.
  rewrite !add_component_val.
  pose proof (Hval "nodeAdjLists"). pose proof (Hval "edgeAdjLists").
  pose proof (Hval "nodeParentLists").
  pose proof (Hval "nodeIntLikeProperties").
  pose proof (Hval "edgeIntLikeProperties").
  pose proof (Hval "nodeDoubleProperties").
  pose proof (Hval "edgeDoubleProperties").
  pose proof (Hval "varSize"). pose proof (Hval "typesSystemOverhead").
  pose proof (Hval "labels"). pose proof (Hval "nodePkToId").
  lia.
Qed.

End MemoryFacts.

(** ** Missing datasets and items *)

Module MissingKeyFacts.
Import PyFloat Py Config PyFacts AdjSpace AdjSpaceFacts RelabelFacts.
Import NormalizerFacts.

Lemma filtered_lookup_None (T : table) (incl : bool) (ds : string) :
  T !! ds = None → filtered T incl !! ds = None.
Proof.
  intros H. destruct incl; [done|]. cbn. by rewrite lookup_fmap, H.
Qed.

(** X20: in [adj_space_plot.py] a listed dataset that the table does not
    hold ends the run with [KeyError] for its name: the datasets in front
    of it are worked on (their warnings are printed), the ones behind it
    are not looked at, and no array is returned. *)
Theorem adj_unknown_dataset_raises (data : table) (l1 l2 : list string)
    (ds : string) (incl : bool) :
  data !! ds = None →
  (∀ d, d ∈ l1 → ∃ row,
     data !! d = Some row ∧
     ∀ csr, row !! CSR_BASELINE_KEY = Some csr → eqb csr zero = false) →
  plot_normalized_with_annotation data (l1 ++ ds :: l2) incl =
  Run (missing_baseline_warning <$> skipped data l1) (Raise (KeyError ds)).
Proof.
  intros Hds H.
  destruct (datasets_loop_total (filtered data incl)
              (current_formats incl) l1 [] []) as (ns&am&Heq&_).
  { intros d Hd. destruct (H d Hd) as (row&HT&Hz).
    exists (filtered_row row incl). split; [by apply filtered_lookup|].
    intros csr Hcsr. apply Hz. rewrite <- Hcsr. symmetry.
    apply filtered_row_lookup.
    eapply list_elem_of_lookup_2, baseline_in_formats. }
  rewrite skipped_filtered in Heq.
  rewrite plot_adj_unfold. unfold collect.
  rewrite datasets_loop_app, Heq, bind_Return. cbn [app datasets_loop].
  unfold getitem. rewrite (filtered_lookup_None _ _ _ Hds).
  rewrite bind_raise_l. cbn [printed result raise].
  rewrite app_nil_r. apply bind_Raise.
Qed.

(** X21: the same in [relabelling.py]: a listed dataset that the table
    does not hold ends the run with [KeyError] for its name, after the
    warnings for the zero baselines of the datasets in front of it. *)
Theorem relabel_unknown_dataset_raises (data : table) (l1 l2 : list string)
    (ds : string) (items : list string) (b : string) :
  data !! ds = None →
  (∀ d, d ∈ l1 → ∃ row v,
     data !! d = Some row ∧ row !! b = Some v ∧
     ∀ item, item ∈ items → is_Some (row !! item)) →
  Relabel.plot_data_normalized_with_annotation data (l1 ++ ds :: l2)
    items b =
  Run (Relabel.zero_baseline_warnings data b l1) (Raise (KeyError ds)).
Proof.
  intros Hds H.
  destruct (relabel_loop_complete data items l1 b [] [] H)
    as (nv&am&Heq&_).
  unfold Relabel.plot_data_normalized_with_annotation.
  rewrite relabel_loop_app, Heq, bind_Return.
  cbn [app Relabel.datasets_order_loop].
  unfold getitem. rewrite Hds, bind_raise_l. cbn [printed result raise].
  rewrite app_nil_r. apply bind_Raise.
Qed.

Lemma items_loop_missing (row : series) (ds : string)
    (l1 l2 : list string) (item : string) (acc : list float) :
  (∀ i, i ∈ l1 → is_Some (row !! i)) → row !! item = None →
  Relabel.items_loop row ds (l1 ++ item :: l2) acc =
  raise (ValueError (Relabel.item_missing_msg item ds)).
Proof.
  revert acc. induction l1 as [|i l1 IH]; intros acc H Hitem.
  - cbn [app Relabel.items_loop]. by rewrite Hitem.
  - destruct (H i) as [size Hsize]; [by left|].
    cbn [app Relabel.items_loop]. rewrite Hsize.
    apply IH; [|done]. intros ??. apply H. by right.
Qed.

(** X22: where [adj_space_plot.py] fills in a zero, [relabelling.py]
    stops: an item of [items_order] that the first dataset lacks ends the
    run with [ValueError] for the first such item, after the warning for a
    zero baseline if there is one, and before any other dataset is looked
    at. *)
Theorem relabel_missing_item_raises (data : table) (ds : string)
    (rest l1 l2 : list string) (item b : string) (row : series)
    (v : float) :
  data !! ds = Some row → row !! b = Some v →
  (∀ i, i ∈ l1 → is_Some (row !! i)) → row !! item = None →
  Relabel.plot_data_normalized_with_annotation data (ds :: rest)
    (l1 ++ item :: l2) b =
  Run (if eqb v zero then [Relabel.zero_baseline_warning b ds] else [])
      (Raise (ValueError (Relabel.item_missing_msg item ds))).
Proof.
  intros HT Hrow Hl1 Hitem.
  unfold Relabel.plot_data_normalized_with_annotation.
  cbn [Relabel.datasets_order_loop]. unfold getitem.
  rewrite HT, bind_ret_l, Hrow.
  rewrite (items_loop_missing row ds l1 l2 item [] Hl1 Hitem).
  by destruct (eqb v zero).
Qed.

Lemma good_dataset (d : string) :
  d ∈ ["good"] → ∃ row v,
    Examples.zero_baseline_table !! d = Some row ∧
    row !! "CSR" = Some v ∧ eqb v zero = false ∧
    ∀ item, item ∈ ["CSR"; "LogGraph"] → is_Some (row !! item).
Proof.
  intros ->%list_elem_of_singleton.
  eexists _, _. split; [reflexivity|]. split; [reflexivity|].
  split; [reflexivity|].
  intros item [->|[->|[]%elem_of_nil]%elem_of_cons]%elem_of_cons; by eexists.
Qed.

Lemma adj_unknown_dataset_raises_witness :
  Examples.zero_baseline_table !! "ugly" = None ∧
  (∀ d, d ∈ ["good"] → ∃ row,
     Examples.zero_baseline_table !! d = Some row ∧
     ∀ csr, row !! CSR_BASELINE_KEY = Some csr → eqb csr zero = false) ∧
  plot_normalized_with_annotation Examples.zero_baseline_table
    (["good"] ++ "ugly" :: ["bad"]) true =
  Run (missing_baseline_warning
         <$> skipped Examples.zero_baseline_table ["good"])
      (Raise (KeyError "ugly")).
Proof.
  assert (Examples.zero_baseline_table !! "ugly" = None) as H1
    by reflexivity.
  assert (∀ d, d ∈ ["good"] → ∃ row,
     Examples.zero_baseline_table !! d = Some row ∧
     ∀ csr, row !! CSR_BASELINE_KEY = Some csr → eqb csr zero = false) as H2.
  { intros d Hd. destruct (good_dataset d Hd) as (row&v&?&Hv&?&_).
    exists row. split; [done|]. intros csr Hcsr.
    unfold CSR_BASELINE_KEY in Hcsr. congruence. }
  split; [exact H1|]. split; [exact H2|].
  exact (adj_unknown_dataset_raises Examples.zero_baseline_table ["good"]
           ["bad"] "ugly" true H1 H2).
Defined.

Lemma relabel_unknown_dataset_raises_witness :
  Examples.zero_baseline_table !! "ugly" = None ∧
  (∀ d, d ∈ ["good"] → ∃ row v,
     Examples.zero_baseline_table !! d = Some row ∧ row !! "CSR" = Some v ∧
     ∀ item, item ∈ ["CSR"; "LogGraph"] → is_Some (row !! item)) ∧
  Relabel.plot_data_normalized_with_annotation Examples.zero_baseline_table
    (["good"] ++ "ugly" :: ["bad"]) ["CSR"; "LogGraph"] "CSR" =
  Run (Relabel.zero_baseline_warnings Examples.zero_baseline_table "CSR"
         ["good"])
      (Raise (KeyError "ugly")).
Proof.
  assert (Examples.zero_baseline_table !! "ugly" = None) as H1
    by reflexivity.
  assert (∀ d, d ∈ ["good"] → ∃ row v,
     Examples.zero_baseline_table !! d = Some row ∧ row !! "CSR" = Some v ∧
     ∀ item, item ∈ ["CSR"; "LogGraph"] → is_Some (row !! item)) as H2.
  { intros d Hd. destruct (good_dataset d Hd) as (row&v&?&?&_&?).
    by exists row, v. }
  split; [exact H1|]. split; [exact H2|].
  exact (relabel_unknown_dataset_raises Examples.zero_baseline_table ["good"]
           ["bad"] "ugly" ["CSR"; "LogGraph"] "CSR" H1 H2).
Defined.

Lemma relabel_missing_item_raises_witness :
  Examples.zero_baseline_table !! "bad" =
    Some ({[ "CSR" := of_int 0; "LogGraph" := of_int 5 ]} : series) ∧
  ({[ "CSR" := of_int 0; "LogGraph" := of_int 5 ]} : series) !! "CSR"
    = Some (of_int 0) ∧
  (∀ i, i ∈ ["CSR"] →
     is_Some (({[ "CSR" := of_int 0; "LogGraph" := of_int 5 ]} : series)
                !! i)) ∧
  ({[ "CSR" := of_int 0; "LogGraph" := of_int 5 ]} : series) !! "Our"
    = None ∧
  Relabel.plot_data_normalized_with_annotation Examples.zero_baseline_table
    ("bad" :: ["good"]) (["CSR"] ++ "Our" :: ["LogGraph"]) "CSR" =
  Run (if eqb (of_int 0) zero
       then [Relabel.zero_baseline_warning "CSR" "bad"] else [])
      (Raise (ValueError (Relabel.item_missing_msg "Our" "bad"))).
Proof.
  assert (Examples.zero_baseline_table !! "bad" =
    Some ({[ "CSR" := of_int 0; "LogGraph" := of_int 5 ]} : series)) as H1
    by reflexivity.
  assert (({[ "CSR" := of_int 0; "LogGraph" := of_int 5 ]} : series) !! "CSR"
    = Some (of_int 0)) as H2 by reflexivity.
  assert (∀ i, i ∈ ["CSR"] →
     is_Some (({[ "CSR" := of_int 0; "LogGraph" := of_int 5 ]} : series)
                !! i)) as H3.
  { intros i ->%list_elem_of_singleton. by eexists. }
  assert (({[ "CSR" := of_int 0; "LogGraph" := of_int 5 ]} : series) !! "Our"
    = None) as H4 by reflexivity.
  split; [exact H1|]. split; [exact H2|]. split; [exact H3|].
  split; [exact H4|].
  exact (relabel_missing_item_raises Examples.zero_baseline_table "bad"
           ["good"] ["CSR"] ["LogGraph"] "Our" "CSR" _ _ H1 H2 H3 H4).
Defined.

End MissingKeyFacts.

(** ** Runs on the data of the scripts *)

Module MoreWitnesses.
Import PyFloat PyFloatFacts Py PyFacts Config Pareto ParetoFacts.
Import ParetoMoreFacts ParetoPlot ParetoPlotFacts MoreData.

Lemma prime_points_no_nan : Forall no_nan Data.prime_single_hop_points.
Proof. repeat constructor; vm_compute; reflexivity. Qed.

Lemma pareto_frontier_strict_witness :
  Forall no_nan Data.prime_single_hop_points ∧
  StronglySorted (λ p q, ltb p.1 q.1 = true ∧ ltb q.2 p.2 = true)
    (pareto_frontier Data.prime_single_hop_points).
Proof.
  split; [exact prime_points_no_nan|].
  exact (pareto_frontier_strict Data.prime_single_hop_points
           prime_points_no_nan).
Defined.

Lemma pareto_frontier_idempotent_witness :
  Forall no_nan Data.prime_single_hop_points ∧
  pareto_frontier (pareto_frontier Data.prime_single_hop_points) =
  pareto_frontier Data.prime_single_hop_points.
Proof.
  split; [exact prime_points_no_nan|].
  exact (pareto_frontier_idempotent Data.prime_single_hop_points
           prime_points_no_nan).
Defined.

Lemma pareto_frontier_order_independent_witness :
  Forall no_nan Data.prime_single_hop_points ∧
  Data.prime_single_hop_points ≡ₚ reverse Data.prime_single_hop_points ∧
  Forall2 (λ p q, point_eqb p q = true)
    (pareto_frontier Data.prime_single_hop_points)
    (pareto_frontier (reverse Data.prime_single_hop_points)).
Proof.
  assert (Data.prime_single_hop_points
            ≡ₚ reverse Data.prime_single_hop_points) as H2
    by (symmetry; apply reverse_Permutation).
  split; [exact prime_points_no_nan|]. split; [exact H2|].
  exact (pareto_frontier_order_independent Data.prime_single_hop_points
           (reverse Data.prime_single_hop_points) prime_points_no_nan H2).
Defined.

Lemma frontier_line_spec_witness :
  Forall no_nan Data.prime_single_hop_points ∧
  frontier_line Data.prime_single_hop_points =
  if decide (2 ≤ length (pareto_frontier Data.prime_single_hop_points))%nat
  then Some (pareto_frontier Data.prime_single_hop_points) else None.
Proof.
  split; [exact prime_points_no_nan|].
  exact (frontier_line_spec Data.prime_single_hop_points prime_points_no_nan).
Defined.


Lemma prime_measured (rep : string) (v : float) :
  measured Data.SPACE_DATA "prime" rep = Some v ∨
  measured TIME_NEIGHBORS_SINGLE_HOP "prime" rep = Some v →
  is_nan v = false.
Proof.
  unfold measured.
  assert (Data.SPACE_DATA !! "prime" =
          Some ({[ "CSR" := of_int 17473954; "LogGraph" := of_int 9924656;
                   "CGraphIndex" := of_int 15733715;
                   "Our" := of_int 10057280 ]} : series)) as ->
    by reflexivity.
  assert (TIME_NEIGHBORS_SINGLE_HOP !! "prime" =
          Some ({[ "CSR" := Data.milli 6281; "LogGraph" := Data.milli 17099;
                   "CGraphIndex" := Data.milli 5981;
                   "Our" := Data.milli 12049 ]} : series)) as ->
    by reflexivity.
  cbn [mbind option_bind].
  intros [H|H];
    repeat (apply lookup_insert_Some in H as [[_ <-]|[_ H]];
            [vm_compute; reflexivity|]);
    by apply lookup_singleton_Some in H as [_ <-].
Qed.

Lemma plot_pareto_dataset_line_witness :
  (∀ rep v, measured Data.SPACE_DATA "prime" rep = Some v →
            is_nan v = false) ∧
  (∀ rep v, measured TIME_NEIGHBORS_SINGLE_HOP "prime" rep = Some v →
            is_nan v = false) ∧
  result (plot_pareto_dataset Data.SPACE_DATA TIME_NEIGHBORS_SINGLE_HOP
            "prime") =
    Return (Data.prime_single_hop_points,
            Some (pareto_frontier Data.prime_single_hop_points)) ∧
  (2 ≤ length (pareto_frontier Data.prime_single_hop_points))%nat ∧
  StronglySorted (λ p q, ltb p.1 q.1 = true ∧ ltb q.2 p.2 = true)
    (pareto_frontier Data.prime_single_hop_points) ∧
  ∀ p, p ∈ pareto_frontier Data.prime_single_hop_points →
    (∃ rep, rep ∈ representations ∧
            point_of Data.SPACE_DATA TIME_NEIGHBORS_SINGLE_HOP "prime" rep
              = Some p) ∧
    ∀ rep q,
      point_of Data.SPACE_DATA TIME_NEIGHBORS_SINGLE_HOP "prime" rep = Some q →
      rep ∈ representations → dominates q p = false.
Proof.
  assert (∀ rep v, measured Data.SPACE_DATA "prime" rep = Some v →
                   is_nan v = false) as H1
    by (intros rep v H; apply (prime_measured rep v); by left).
  assert (∀ rep v, measured TIME_NEIGHBORS_SINGLE_HOP "prime" rep = Some v →
                   is_nan v = false) as H2
    by (intros rep v H; apply (prime_measured rep v); by right).
  assert (result (plot_pareto_dataset Data.SPACE_DATA
                    TIME_NEIGHBORS_SINGLE_HOP "prime") =
          Return (Data.prime_single_hop_points,
                  Some (pareto_frontier Data.prime_single_hop_points))) as H3
    by (vm_compute; reflexivity).
  split; [exact H1|]. split; [exact H2|]. split; [exact H3|].
  exact (plot_pareto_dataset_line Data.SPACE_DATA TIME_NEIGHBORS_SINGLE_HOP
           "prime" Data.prime_single_hop_points
           (pareto_frontier Data.prime_single_hop_points) H1 H2 H3).
Defined.


Lemma adj_zero_baseline_raises_witness :
  Examples.zero_baseline_table !! "bad" =
    Some ({[ "CSR" := of_int 0; "LogGraph" := of_int 5 ]} : series) ∧
  ({[ "CSR" := of_int 0; "LogGraph" := of_int 5 ]} : series)
    !! CSR_BASELINE_KEY = Some (of_int 0) ∧
  eqb (of_int 0) zero = true ∧
  AdjSpace.plot_normalized_with_annotation Examples.zero_baseline_table
    ("bad" :: ["good"]) true = raise ZeroDivisionError.
Proof.
  assert (Examples.zero_baseline_table !! "bad" =
          Some ({[ "CSR" := of_int 0; "LogGraph" := of_int 5 ]} : series))
    as H1 by reflexivity.
  assert (({[ "CSR" := of_int 0; "LogGraph" := of_int 5 ]} : series)
            !! CSR_BASELINE_KEY = Some (of_int 0)) as H2 by reflexivity.
  assert (eqb (of_int 0) zero = true) as H3 by reflexivity.
  split; [exact H1|]. split; [exact H2|]. split; [exact H3|].
  exact (NormalizerFacts.adj_zero_baseline_raises Examples.zero_baseline_table
           "bad" ["good"] true _ _ H1 H2 H3).
Defined.

Lemma adj_no_data_witness :
  (∀ ds, ds ∈ ["bare"] → is_Some (bare_table !! ds)) ∧
  AdjSpace.kept bare_table ["bare"] = [] ∧
  AdjSpace.plot_normalized_with_annotation bare_table ["bare"] true =
  Run ((AdjSpace.missing_baseline_warning
          <$> AdjSpace.skipped bare_table ["bare"])
         ++ ["No data to plot."]) (Return None).
Proof.
  assert (∀ ds, ds ∈ ["bare"] → is_Some (bare_table !! ds)) as H1.
  { intros ds ->%list_elem_of_singleton. by eexists. }
  assert (AdjSpace.kept bare_table ["bare"] = []) as H2
    by (vm_compute; reflexivity).
  split; [exact H1|]. split; [exact H2|].
  exact (NormalizerFacts.adj_no_data bare_table ["bare"] true H1 H2).
Defined.

Lemma relabel_zero_baseline_nan_witness :
  ["CSR"; "LogGraph"] ≠ [] ∧
  (∀ ds, ds ∈ ["bad"; "good"] → ∃ row v,
     Examples.zero_baseline_table !! ds = Some row ∧
     row !! "CSR" = Some v ∧
     ∀ item, item ∈ ["CSR"; "LogGraph"] → is_Some (row !! item)) ∧
  ∃ nv am,
    Relabel.plot_data_normalized_with_annotation Examples.zero_baseline_table
      ["bad"; "good"] ["CSR"; "LogGraph"] "CSR" =
    Run (Relabel.zero_baseline_warnings Examples.zero_baseline_table "CSR"
           ["bad"; "good"])
        (Return (Some (nv, am))) ∧
    length nv = length ["bad"; "good"] ∧
    ∀ i ds row v, ["bad"; "good"] !! i = Some ds →
      Examples.zero_baseline_table !! ds = Some row →
      row !! "CSR" = Some v → eqb v zero = true →
      nv !! i = Some (replicate (length ["CSR"; "LogGraph"]) nan).
Proof.
  assert (["CSR"; "LogGraph"] ≠ []) as H1 by discriminate.
  assert (∀ ds, ds ∈ ["bad"; "good"] → ∃ row v,
     Examples.zero_baseline_table !! ds = Some row ∧
     row !! "CSR" = Some v ∧
     ∀ item, item ∈ ["CSR"; "LogGraph"] → is_Some (row !! item)) as H2.
  { intros ds [->|[->|[]%elem_of_nil]%elem_of_cons]%elem_of_cons.
    - eexists _, _. split; [reflexivity|]. split; [reflexivity|].
      intros item [->|[->|[]%elem_of_nil]%elem_of_cons]%elem_of_cons;
        by eexists.
    - eexists _, _. split; [reflexivity|]. split; [reflexivity|].
      intros item [->|[->|[]%elem_of_nil]%elem_of_cons]%elem_of_cons;
        by eexists. }
  split; [exact H1|]. split; [exact H2|].
  exact (NormalizerFacts.relabel_zero_baseline_nan Examples.zero_baseline_table
           ["bad"; "good"] ["CSR"; "LogGraph"] "CSR" H1 H2).
Defined.

Lemma techniques_for_plot_spec_witness :
  "CSV" ∈ RelabelConfig.MASTER_TECHNIQUES_ORDER ∧
  "CSV" ∈ RelabelConfig.ALL_TECHNIQUE_COLORS ∧
  ∃ final,
    RelabelConfig.techniques_for_plot RelabelConfig.MASTER_TECHNIQUES_ORDER
      RelabelConfig.ALL_TECHNIQUE_COLORS "CSV" (Some ["random"; "BFS"])
      = mret final ∧
    final `sublist_of` RelabelConfig.MASTER_TECHNIQUES_ORDER ∧
    "CSV" ∈ final ∧
    ∀ tech, tech ∈ final ↔
      tech ∈ RelabelConfig.MASTER_TECHNIQUES_ORDER ∧
      (tech = "CSV" ∨ tech ∈ ["random"; "BFS"]).
Proof.
  assert ("CSV" ∈ RelabelConfig.MASTER_TECHNIQUES_ORDER) as H1 by by left.
  assert ("CSV" ∈ RelabelConfig.ALL_TECHNIQUE_COLORS) as H2
    by (apply elem_of_list_to_set; by left).
  split; [exact H1|]. split; [exact H2|].
  exact (RelabelConfigFacts.techniques_for_plot_spec
           RelabelConfig.MASTER_TECHNIQUES_ORDER
           RelabelConfig.ALL_TECHNIQUE_COLORS "CSV"
           (Some ["random"; "BFS"]) H1 H2).
Defined.

Lemma single_hop_annotation_shown_witness :
  valid_binary prec emax (fdiv (of_int 3) (of_int 100)) = true ∧
  AdjTimeLabels.single_hop_annotation (fdiv (of_int 3) (of_int 100)) =
  if leb AdjTimeLabels.one_twentieth (fdiv (of_int 3) (of_int 100))
     && neb (fdiv (of_int 3) (of_int 100)) one
  then Some (format_1f (fdiv (of_int 3) (of_int 100)) +:+ "x")
  else None.
Proof.
  assert (valid_binary prec emax (fdiv (of_int 3) (of_int 100)) = true) as H1
    by (vm_compute; reflexivity).
  split; [exact H1|].
  exact (AdjTimeLabelsFacts.single_hop_annotation_shown
           (fdiv (of_int 3) (of_int 100)) H1).
Defined.

Lemma group_components_conserves_witness :
  NoDup example_components.*1 ∧
  Forall (λ item, 0 ≤ item.2) example_components ∧
  Memory.total_size
    (Memory.without_details (Memory.group_components example_components)) =
  Memory.total example_components.
Proof.
  assert (NoDup example_components.*1) as H1
    by (apply (bool_decide_unpack _); vm_compute; reflexivity).
  assert (Forall (λ item, 0 ≤ item.2) example_components) as H2
    by (repeat constructor; cbn; lia).
  split; [exact H1|]. split; [exact H2|].
  exact (MemoryFacts.group_components_conserves example_components H1 H2).
Defined.

Lemma gdb_space_data_complete :
  GdbSpace.complete Data.datasets GDB_SPACE_DATA.
Proof.
  intros ds Hds. unfold Data.datasets in Hds.
  repeat (apply elem_of_cons in Hds as [->|Hds];
    [eexists; split; [reflexivity|];
     intros k Hk; unfold GdbSpace.formats in Hk; cbn [app] in Hk;
     repeat (apply elem_of_cons in Hk as [->|Hk]; [by eexists|]);
     by apply elem_of_nil in Hk|]).
  by apply elem_of_nil in Hds.
Qed.

Lemma plot_storage_normalized_complete_witness :
  GdbSpace.complete Data.datasets GDB_SPACE_DATA ∧
  ∃ (input : GdbSpace.element) (dbs : list GdbSpace.element),
    GdbSpace.plot_storage_normalized Data.datasets GDB_SPACE_DATA
      GdbSpace.unzipped = mret (input :: dbs) ∧
    input.1.1 = GdbSpace.input_label GdbSpace.unzipped ∧
    length input.1.2 = length input.2 ∧
    Forall2 (λ ds_name entry, ∃ ds_data,
       GDB_SPACE_DATA !! ds_name = Some ds_data ∧
       GdbSpace.input_entry ds_data (GdbSpace.input_key GdbSpace.unzipped)
         (GdbSpace.key_of GdbSpace.unzipped) = Some entry)
      Data.datasets (zip input.1.2 input.2) ∧
    Forall2 (λ fmt (el : GdbSpace.element), el.1.1 = fmt ∧
       Forall2 (λ ds_name entry, ∃ ds_data,
          GDB_SPACE_DATA !! ds_name = Some ds_data ∧
          GdbSpace.format_entry ds_data fmt
            (GdbSpace.key_of GdbSpace.unzipped) = Some entry)
         Data.datasets (zip el.1.2 el.2) ∧
       length el.1.2 = length el.2) GdbSpace.formats dbs.
Proof.
  split; [exact gdb_space_data_complete|].
  exact (GdbSpaceFacts.plot_storage_normalized_complete Data.datasets
           GDB_SPACE_DATA GdbSpace.unzipped gdb_space_data_complete).
Defined.

(** The examples, run. *)
Lemma more_examples :
  PyStr.sorted_keys Data.SPACE_DATA = Data.datasets ∧
  PyStr.sorted_keys GDB_SPACE_DATA = Data.datasets ∧
  RelabelConfig.techniques_for_plot RelabelConfig.MASTER_TECHNIQUES_ORDER
    RelabelConfig.ALL_TECHNIQUE_COLORS Data.BASELINE_TECHNIQUE_NAME
    RelabelConfig.CHOSEN_TECHNIQUES_TO_PLOT
    = mret Data.techniques_for_plot_final ∧
  RelabelConfig.techniques_for_plot RelabelConfig.MASTER_TECHNIQUES_ORDER
    RelabelConfig.ALL_TECHNIQUE_COLORS "CSV" (Some ["random"; "BFS"; "zstd"])
    = mret ["CSV"; "random"; "BFS"] ∧
  Memory.group_components example_components =
    [("Adjacency Lists", Memory.Size 150); ("Other", Memory.Size 7);
     ("_other_details", Memory.Details ["bloomFilter(0.0MB)"])] ∧
  AdjTimeLabels.single_hop_annotation (fdiv (of_int 3) (of_int 100)) = None ∧
  AdjTimeLabels.single_hop_annotation (fdiv (of_int 5) (of_int 100))
    = Some "0.1x" ∧
  result (AdjTime.plot_time_comparison_normalized ∅ "CSR") =
    Raise ZeroDivisionError ∧
  pareto_frontier [(one, inf); (one, nan)] = [].
Proof. repeat split; vm_compute; reflexivity. Qed.

End MoreWitnesses.
